(** * Document signatures and chained cipher modes (Rlueer/Crypto)

    A shallow embedding of
      - [Programming project2/ascon-code/ascon_modes.py]  (class [AsconModes]),
      - [Programming project2/ascon-code/changes.py]      (sign / verify),
      - [Programming project2/gift-cofb/changes.py]       (sign / verify, GIFT),
      - [Programming project2/gift-cofb/gift_cofb_modes.py] (class [GiftCofbModes]),
      - [Programming project1/prime_checker.py]           (primality tests),
    together with the properties stated about them.

    The cipher and hash primitives ([ascon_hash], [ascon_encrypt],
    [ascon_decrypt], [GiftCofb.encrypt], [GiftCofb.verify], ...) live in
    modules that the Python code imports; they are Section variables here,
    and every property says which contract of the primitive it relies on. *)

From Stdlib Require Import Strings.Byte NArith ZArith Lia.
From Stdlib Require Import Zmod.ZmodInv.
From stdpp Require Import base numbers option list strings pretty gmap.

Local Open Scope N_scope.

(** ** Bytes *)

Abbreviation byte := Byte.byte.
Abbreviation bytes := (list Byte.byte).

#[global] Instance byte_eq_dec : EqDecision byte := Byte.byte_eq_dec.

(** [bytes([n])] for an int known to be in [range(256)]. *)
Definition byte_of (n : N) : byte := default Byte.x00 (Byte.of_N n).

(** The int value of a byte ([b[i]] on a Python bytes object). *)
Definition byte_val (b : byte) : N := Byte.to_N b.

(** [a ^ b] on two ints taken from bytes objects. *)
Definition byte_xor (a b : byte) : byte :=
  byte_of (N.lxor (byte_val a) (byte_val b)).

(** [bytes(a ^ b for a, b in zip(x, y))]: [zip] stops at the shorter one. *)
Definition xor_bytes (x y : bytes) : bytes := zip_with byte_xor x y.

(** [zero_bytes(n)] of the Ascon module: [n * b"\x00"]. *)
Definition zero_bytes (n : nat) : bytes := replicate n Byte.x00.

(** [len(b)] as a Python int. *)
Definition len {A} (l : list A) : N := N.of_nat (length l).

(** Python slicing [b[i:j]] with non-negative ints [i], [j]: both ends are
    clamped to [len(b)], and the slice is empty when [j <= i]. *)
Definition slice {A} (b : list A) (i j : N) : list A :=
  let lo := N.min i (len b) in
  let hi := N.min j (len b) in
  take (N.to_nat (hi - lo)) (drop (N.to_nat lo) b).

(** ** Exceptions *)

(** The exceptions that the modelled code raises or meets.  The two
    signature errors carry their message; a message built from another
    exception ([f"...: {str(e)}"]) carries that exception. *)
Inductive exn :=
| FileNotFoundError
| ValueError (msg : string)
| IndexError
| ZeroDivisionError
| StructError
| UnicodeEncodeError
| UnicodeDecodeError
| AssertionError
| SignatureError (m : signature_msg)       (* ascon-code/changes.py *)
| GiftSignatureError (m : signature_msg)   (* gift-cofb/changes.py *)
with signature_msg :=
| FailedToCreate (cause : exn)      (* "Failed to create signature: ..." *)
| FileTooSmall                      (* "File too small to contain a valid signature" *)
| NoValidSignature                  (* "No valid signature found" *)
| DecryptionFailed                  (* "Signature decryption failed" (Ascon),
                                       "Signature verification failed" (GIFT) *)
| ContentModified                   (* "Document content has been modified" *)
| VerificationFailed (cause : exn). (* "Verification failed: ..." *)

(** A computation either returns or raises. *)
Inductive result (A : Type) :=
| Ok (a : A)
| Raise (e : exn).
Arguments Ok {A} a.
Arguments Raise {A} e.

#[global] Instance result_ret : MRet result := @Ok.
#[global] Instance result_bind : MBind result := λ A B k m,
  match m with
  | Ok a => k a
  | Raise e => Raise e
  end.

(** ** [AsconModes.pad_data] / [AsconModes.unpad_data] *)

Module AsconModes.

(** [pad_data(data, block_size)] for a non-negative [block_size].
    [len(data) % block_size] raises [ZeroDivisionError] for a zero block
    size, and [bytes([n] * n)] raises [ValueError] when [n] is not in
    [range(256)]. *)
Definition pad_data (data : bytes) (block_size : N) : result bytes :=
  if decide (block_size = 0) then Raise ZeroDivisionError
  else
    let padding_length := block_size - len data `mod` block_size in
    if decide (padding_length < 256) then
      let padding := replicate (N.to_nat padding_length) (byte_of padding_length) in
      Ok (data ++ padding)
    else Raise (ValueError "bytes must be in range(0, 256)").

(** [unpad_data(padded_data)].  [padded_data[-1]] raises [IndexError] on an
    empty buffer; [padded_data[-n:]] is the last [n] bytes, or the whole
    buffer when it is shorter than [n]; [padded_data[:-n]] drops them. *)
Definition unpad_data (padded_data : bytes) : result bytes :=
  match last padded_data with
  | None => Raise IndexError
  | Some b =>
    let padding_length := byte_val b in
    if decide (padding_length = 0 ∨ 16 < padding_length) then
      Raise (ValueError "Invalid padding")
    else if decide (slice padded_data (len padded_data - padding_length) (len padded_data)
                    ≠ replicate (N.to_nat padding_length) (byte_of padding_length)) then
      Raise (ValueError "Invalid padding")
    else Ok (slice padded_data 0 (len padded_data - padding_length))
  end.

(** [len(range(0, n, step))]: how often [for i in range(0, n, step)] runs. *)
Definition range_count (n step : N) : nat := N.to_nat ((n + (step - 1)) / step).

Section Modes.

(** [ascon_module.ascon_encrypt(key, nonce, associateddata, plaintext)] of the
    dynamically loaded [ascon.py]. *)
Variable ascon_encrypt : bytes → bytes → bytes → bytes → result bytes.

Definition block_size : N := 16.

(** The body of the [for] loop of [cbc_encrypt]; [count] iterations are
    left, [i] is the loop variable. *)
Fixpoint cbc_encrypt_loop (key padded_plaintext : bytes) (count : nat) (i : N)
    (ciphertext previous_block : bytes) : result bytes :=
  match count with
  | O => Ok ciphertext
  | S count' =>
    let block := slice padded_plaintext i (i + block_size) in
    let xored := xor_bytes block previous_block in
    c ← ascon_encrypt key previous_block [] xored;
    let encrypted := slice c 0 block_size in
    cbc_encrypt_loop key padded_plaintext count' (i + block_size)
      (ciphertext ++ encrypted) encrypted
  end.

Definition cbc_encrypt (key iv plaintext : bytes) : result bytes :=
  if decide (len key ≠ 16) then Raise (ValueError "Key must be 16 bytes")
  else if decide (len iv ≠ 16) then Raise (ValueError "IV must be 16 bytes")
  else
    padded_plaintext ← pad_data plaintext block_size;
    cbc_encrypt_loop key padded_plaintext
      (range_count (len padded_plaintext) block_size) 0 [] iv.

Fixpoint cbc_decrypt_loop (key ciphertext : bytes) (count : nat) (i : N)
    (plaintext previous_block : bytes) : result bytes :=
  match count with
  | O => Ok plaintext
  | S count' =>
    let current_block := slice ciphertext i (i + block_size) in
    c ← ascon_encrypt key previous_block [] (zero_bytes (N.to_nat block_size));
    let keystream := slice c 0 block_size in
    let decrypted := xor_bytes current_block keystream in
    let plaintext_block := xor_bytes decrypted previous_block in
    cbc_decrypt_loop key ciphertext count' (i + block_size)
      (plaintext ++ plaintext_block) current_block
  end.

Definition cbc_decrypt (key iv ciphertext : bytes) : result bytes :=
  if decide (len key ≠ 16) then Raise (ValueError "Key must be 16 bytes")
  else if decide (len iv ≠ 16) then Raise (ValueError "IV must be 16 bytes")
  else if decide (len ciphertext `mod` 16 ≠ 0) then
    Raise (ValueError "Ciphertext length must be multiple of 16")
  else
    plaintext ← cbc_decrypt_loop key ciphertext
      (range_count (len ciphertext) block_size) 0 [] iv;
    unpad_data plaintext.

Fixpoint ofb_encrypt_loop (key padded_plaintext : bytes) (count : nat) (i : N)
    (ciphertext previous_block : bytes) : result bytes :=
  match count with
  | O => Ok ciphertext
  | S count' =>
    c ← ascon_encrypt key previous_block [] (zero_bytes (N.to_nat block_size));
    let keystream := slice c 0 block_size in
    let block := slice padded_plaintext i (i + block_size) in
    let encrypted_block := xor_bytes block keystream in
    ofb_encrypt_loop key padded_plaintext count' (i + block_size)
      (ciphertext ++ encrypted_block) keystream
  end.

Fixpoint ofb_decrypt_loop (key ciphertext : bytes) (count : nat) (i : N)
    (plaintext previous_block : bytes) : result bytes :=
  match count with
  | O => Ok plaintext
  | S count' =>
    c ← ascon_encrypt key previous_block [] (zero_bytes (N.to_nat block_size));
    let keystream := slice c 0 block_size in
    let block := slice ciphertext i (i + block_size) in
    let decrypted_block := xor_bytes block keystream in
    ofb_decrypt_loop key ciphertext count' (i + block_size)
      (plaintext ++ decrypted_block) keystream
  end.

Definition ofb_encrypt (key iv plaintext : bytes) : result bytes :=
  if decide (len key ≠ 16) then Raise (ValueError "Key must be 16 bytes")
  else if decide (len iv ≠ 16) then Raise (ValueError "IV must be 16 bytes")
  else
    padded_plaintext ← pad_data plaintext block_size;
    ofb_encrypt_loop key padded_plaintext
      (range_count (len padded_plaintext) block_size) 0 [] iv.

Definition ofb_decrypt (key iv ciphertext : bytes) : result bytes :=
  if decide (len key ≠ 16) then Raise (ValueError "Key must be 16 bytes")
  else if decide (len iv ≠ 16) then Raise (ValueError "IV must be 16 bytes")
  else if decide (len ciphertext `mod` 16 ≠ 0) then
    Raise (ValueError "Ciphertext length must be multiple of 16")
  else
    plaintext ← ofb_decrypt_loop key ciphertext
      (range_count (len ciphertext) block_size) 0 [] iv;
    unpad_data plaintext.

End Modes.

End AsconModes.

(** ** Python built-ins used by [changes.py] *)

(** A Python [str]: its sequence of code points. *)
Abbreviation pystr := (list N).

(** One code point of [s.encode('utf-8')]; lone surrogates (and values that
    are not code points at all) have no encoding. *)
Definition utf8_encode_char (c : N) : option bytes :=
  if decide (c < 0x80) then Some [byte_of c]
  else if decide (c < 0x800) then
    Some [byte_of (0xC0 + c / 64); byte_of (0x80 + c `mod` 64)]
  else if decide (c < 0x10000) then
    if decide (0xD800 ≤ c ∧ c ≤ 0xDFFF) then None
    else Some [byte_of (0xE0 + c / 4096); byte_of (0x80 + (c / 64) `mod` 64);
               byte_of (0x80 + c `mod` 64)]
  else if decide (c < 0x110000) then
    Some [byte_of (0xF0 + c / 262144); byte_of (0x80 + (c / 4096) `mod` 64);
          byte_of (0x80 + (c / 64) `mod` 64); byte_of (0x80 + c `mod` 64)]
  else None.

Fixpoint utf8_encode (s : pystr) : option bytes :=
  match s with
  | [] => Some []
  | c :: s' =>
    match utf8_encode_char c, utf8_encode s' with
    | Some b, Some bs => Some (b ++ bs)
    | _, _ => None
    end
  end.

(** [s.encode('utf-8')]. *)
Definition str_encode (s : pystr) : result bytes :=
  match utf8_encode s with
  | Some b => Ok b
  | None => Raise UnicodeEncodeError
  end.

(** A continuation byte [10xxxxxx]. *)
Definition utf8_cont (b : byte) : bool :=
  bool_decide (0x80 ≤ byte_val b ∧ byte_val b < 0xC0).

(** The strict decoder of [b.decode('utf-8')]: overlong forms, surrogates,
    values above U+10FFFF and truncated sequences are rejected. *)
Fixpoint utf8_decode (b : bytes) : option pystr :=
  match b with
  | [] => Some []
  | b0 :: r =>
    let n0 := byte_val b0 in
    if decide (n0 < 0x80) then cons n0 <$> utf8_decode r
    else if decide (n0 < 0xC2) then None
    else if decide (n0 < 0xE0) then
      match r with
      | b1 :: r1 =>
        if utf8_cont b1 then
          cons ((n0 - 0xC0) * 64 + (byte_val b1 - 0x80)) <$> utf8_decode r1
        else None
      | _ => None
      end
    else if decide (n0 < 0xF0) then
      match r with
      | b1 :: b2 :: r2 =>
        let c := (n0 - 0xE0) * 4096 + (byte_val b1 - 0x80) * 64
                 + (byte_val b2 - 0x80) in
        if utf8_cont b1 && utf8_cont b2
           && bool_decide (0x800 ≤ c ∧ ¬ (0xD800 ≤ c ∧ c ≤ 0xDFFF)) then
          cons c <$> utf8_decode r2
        else None
      | _ => None
      end
    else if decide (n0 < 0xF5) then
      match r with
      | b1 :: b2 :: b3 :: r3 =>
        let c := (n0 - 0xF0) * 262144 + (byte_val b1 - 0x80) * 4096
                 + (byte_val b2 - 0x80) * 64 + (byte_val b3 - 0x80) in
        if utf8_cont b1 && utf8_cont b2 && utf8_cont b3
           && bool_decide (0x10000 ≤ c ∧ c < 0x110000) then
          cons c <$> utf8_decode r3
        else None
      | _ => None
      end
    else None
  end.

(** [b.decode('utf-8')]. *)
Definition bytes_decode (b : bytes) : result pystr :=
  match utf8_decode b with
  | Some s => Ok s
  | None => Raise UnicodeDecodeError
  end.

(** The [width] low-order bytes of [n], least significant first. *)
Fixpoint le_bytes (width : nat) (n : N) : bytes :=
  match width with
  | O => []
  | S w => byte_of (n `mod` 256) :: le_bytes w (n / 256)
  end.

(** The value of a little-endian byte string. *)
Fixpoint le_value (b : bytes) : N :=
  match b with
  | [] => 0
  | x :: r => byte_val x + 256 * le_value r
  end.

(** [struct.pack('<H', n)] for [n >= 0]. *)
Definition struct_pack_H (n : N) : result bytes :=
  if decide (n < 2 ^ 16) then Ok (le_bytes 2 n) else Raise StructError.

(** [struct.pack('<Q', n)] for [n >= 0]. *)
Definition struct_pack_Q (n : N) : result bytes :=
  if decide (n < 2 ^ 64) then Ok (le_bytes 8 n) else Raise StructError.

(** [struct.unpack('<H', b)[0]]: the buffer must have exactly 2 bytes. *)
Definition struct_unpack_H (b : bytes) : result N :=
  if decide (len b = 2) then Ok (le_value b) else Raise StructError.

(** [struct.unpack('<Q', b)[0]]: the buffer must have exactly 8 bytes. *)
Definition struct_unpack_Q (b : bytes) : result N :=
  if decide (len b = 8) then Ok (le_value b) else Raise StructError.

(** [l[i:i+len(sub)] == sub] at [i = 0]. *)
Fixpoint starts_with (sub l : bytes) : bool :=
  match sub, l with
  | [], _ => true
  | a :: sub', b :: l' => bool_decide (a = b) && starts_with sub' l'
  | _ :: _, [] => false
  end.

(** The highest index [j >= i] at which [sub] occurs in a buffer whose
    bytes from index [i] on are [l]. *)
Fixpoint rfind_from (sub l : bytes) (i : N) : option N :=
  match l with
  | [] => if starts_with sub [] then Some i else None
  | _ :: l' =>
    match rfind_from sub l' (i + 1) with
    | Some j => Some j
    | None => if starts_with sub l then Some i else None
    end
  end.

(** [content.rfind(sub)]: the highest index of an occurrence, [-1] if none. *)
Definition rfind (content sub : bytes) : Z :=
  match rfind_from sub content 0 with
  | Some j => Z.of_N j
  | None => (-1)%Z
  end.

(** [b"..."] for an ASCII literal. *)
Definition bytes_of_string (s : string) : bytes := String.list_byte_of_string s.

(** ** The world the signing code runs in *)

(** What one call of an AEAD encryption primitive was handed. *)
Inductive aead_call :=
| AsconEncrypt (key nonce associateddata plaintext : bytes)
| GiftEncrypt (message : list (list Z)) (key : list Z)
    (associated_data : list (list Z)) (nonce : list Z).

(** The files on disk, and (as a ghost trace) the AEAD encryption calls made
    so far, oldest first. *)
Record world := World {
  files : gmap string bytes;
  aead_calls : list aead_call
}.

(** Code with file effects that may raise: side effects done before an
    exception stay done. *)
Definition M (A : Type) : Type := world → result A * world.

#[global] Instance M_ret : MRet M := λ A a w, (Ok a, w).
#[global] Instance M_bind : MBind M := λ A B k m w,
  match m w with
  | (Ok a, w') => k a w'
  | (Raise e, w') => (Raise e, w')
  end.

Definition raise {A} (e : exn) : M A := λ w, (Raise e, w).

Definition lift {A} (r : result A) : M A := λ w, (r, w).

(** [try: body  except Exception as e: raise handler(e)]. *)
Definition try_except {A} (body : M A) (handler : exn → exn) : M A := λ w,
  match body w with
  | (Ok a, w') => (Ok a, w')
  | (Raise e, w') => (Raise (handler e), w')
  end.

(** [os.path.exists(filepath)]. *)
Definition os_path_exists (filepath : string) : M bool := λ w,
  (Ok (bool_decide (is_Some (files w !! filepath))), w).

(** [with open(filepath, 'rb') as f: f.read()]. *)
Definition read_file (filepath : string) : M bytes := λ w,
  match files w !! filepath with
  | Some content => (Ok content, w)
  | None => (Raise FileNotFoundError, w)
  end.

(** [with open(filepath, 'ab') as f: f.write(data)]: the file is created
    when it does not exist. *)
Definition append_file (filepath : string) (data : bytes) : M unit := λ w,
  (Ok (), World (<[filepath := default [] (files w !! filepath) ++ data]> (files w))
                (aead_calls w)).

Definition log_call (c : aead_call) : M unit := λ w,
  (Ok (), World (files w) (aead_calls w ++ [c])).

(** ** [ascon-code/changes.py] *)

Module AsconChanges.

Section Primitives.

(** [ascon_hash], [ascon_encrypt] and [ascon_decrypt] of the imported
    [ascon] module; [ascon_decrypt] returns [None] when the tag does not
    verify. *)
Variable ascon_hash : bytes → bytes.
Variable ascon_encrypt : bytes → bytes → bytes → bytes → result bytes.
Variable ascon_decrypt : bytes → bytes → bytes → bytes → result (option bytes).

Definition MAGIC : bytes := bytes_of_string "ASCON_SIG".

Definition call_ascon_encrypt (key nonce associateddata plaintext : bytes) : M bytes :=
  log_call (AsconEncrypt key nonce associateddata plaintext);;
  lift (ascon_encrypt key nonce associateddata plaintext).

(** [create_document_signature(filepath, author_key, author_id)].  [now] is
    what [datetime.now().isoformat()] returns in this call and
    [random_bytes] what [get_random_bytes(16)] returns. *)
Definition create_document_signature (now : pystr) (random_bytes : bytes)
    (filepath : string) (author_key : bytes) (author_id : pystr) : M (bytes * N) :=
  file_exists ← os_path_exists filepath;
  if negb file_exists then raise FileNotFoundError
  else if decide (len author_key ≠ 16) then
    raise (ValueError "Author key must be exactly 16 bytes")
  else
    try_except (
      document_content ← read_file filepath;
      timestamp ← lift (str_encode now);
      author_id_bytes ← lift (str_encode author_id);
      timestamp_len ← lift (struct_pack_H (len timestamp));
      author_id_len ← lift (struct_pack_H (len author_id_bytes));
      let metadata := timestamp_len ++ timestamp ++ author_id_len ++ author_id_bytes in
      let doc_hash := ascon_hash document_content in
      let signature_data := metadata ++ doc_hash in
      let nonce := random_bytes in
      encrypted_signature ← call_ascon_encrypt author_key nonce [] signature_data;
      sig_len ← lift (struct_pack_Q (len encrypted_signature));
      let final_signature := MAGIC ++ sig_len ++ nonce ++ encrypted_signature in
      append_file filepath final_signature;;
      mret (final_signature, len final_signature))
    (λ e, SignatureError (FailedToCreate e)).

(** [except SignatureError: raise] followed by
    [except Exception as e: raise SignatureError(f"Verification failed: ...")]. *)
Definition verify_handlers (e : exn) : exn :=
  match e with
  | SignatureError m => SignatureError m
  | _ => SignatureError (VerificationFailed e)
  end.

Definition MIN_SIG_SIZE : N := len MAGIC + 8 + 16.

(** [verify_document_signature(filepath, author_key)]. *)
Definition verify_document_signature (filepath : string) (author_key : bytes)
    : M (bool * pystr * pystr) :=
  try_except (
    content ← read_file filepath;
    if decide (len content < MIN_SIG_SIZE) then raise (SignatureError FileTooSmall)
    else
      let sig_start := rfind content MAGIC in
      if decide (sig_start = (-1)%Z) then raise (SignatureError NoValidSignature)
      else
        let sig_start := Z.to_N sig_start in
        let pos := sig_start + len MAGIC in
        sig_len ← lift (struct_unpack_Q (slice content pos (pos + 8)));
        let pos := pos + 8 in
        let nonce := slice content pos (pos + 16) in
        let pos := pos + 16 in
        let encrypted_signature := slice content pos (pos + sig_len) in
        let document_content := slice content 0 sig_start in
        signature_block ← lift (ascon_decrypt author_key nonce [] encrypted_signature);
        match signature_block with
        | None => raise (SignatureError DecryptionFailed)
        | Some signature_block =>
          let pos := 0 in
          timestamp_len ← lift (struct_unpack_H (slice signature_block pos (pos + 2)));
          let pos := pos + 2 in
          timestamp ← lift (bytes_decode (slice signature_block pos (pos + timestamp_len)));
          let pos := pos + timestamp_len in
          author_id_len ← lift (struct_unpack_H (slice signature_block pos (pos + 2)));
          let pos := pos + 2 in
          author_id ← lift (bytes_decode (slice signature_block pos (pos + author_id_len)));
          let pos := pos + author_id_len in
          let stored_hash := slice signature_block pos (pos + 32) in
          let current_hash := ascon_hash document_content in
          if decide (current_hash ≠ stored_hash) then
            raise (SignatureError ContentModified)
          else mret (true, author_id, timestamp)
        end)
    verify_handlers.

End Primitives.

End AsconChanges.

(** ** [gift-cofb/changes.py] *)

(** The values of [for i in range(0, n, step)]. *)
Definition range_list (n step : N) : list N :=
  (λ k, N.of_nat k * step) <$> seq 0 (AsconModes.range_count n step).

(** The lower-case hex digit of a nibble, as a code point. *)
Definition hex_digit (n : N) : N := if decide (n < 10) then 48 + n else 87 + n.

(** [b.hex()]. *)
Definition bytes_hex (b : bytes) : pystr :=
  b ≫= λ x, [hex_digit (byte_val x / 16); hex_digit (byte_val x `mod` 16)].

Definition hex_value (c : N) : option N :=
  if decide (48 ≤ c ∧ c ≤ 57) then Some (c - 48)
  else if decide (97 ≤ c ∧ c ≤ 102) then Some (c - 87)
  else if decide (65 ≤ c ∧ c ≤ 70) then Some (c - 55)
  else None.

Definition is_ascii_space (c : N) : bool :=
  bool_decide (c = 32 ∨ (9 ≤ c ∧ c ≤ 13)).

Fixpoint fromhex (s : pystr) : option bytes :=
  match s with
  | [] => Some []
  | c :: r =>
    if is_ascii_space c then fromhex r
    else
      match hex_value c, r with
      | Some h, d :: r' =>
        match hex_value d with
        | Some l => cons (byte_of (16 * h + l)) <$> fromhex r'
        | None => None
        end
      | _, _ => None
      end
  end.

(** Where the scan of [bytes.fromhex(s)] stops: at the character that
    should have been a hex digit; that is [len(s)] when the string ends
    inside a byte. *)
Fixpoint fromhex_stop (s : pystr) (i : N) : N :=
  match s with
  | [] => i
  | c :: r =>
    if is_ascii_space c then fromhex_stop r (i + 1)
    else
      match hex_value c, r with
      | Some _, d :: r' =>
        match hex_value d with
        | Some _ => fromhex_stop r' (i + 2)
        | None => i + 1
        end
      | Some _, [] => i + 1
      | None, _ => i
      end
  end.

(** The position that the error message of [bytes.fromhex(s)] names: that
    of the first non-ASCII character when there is one (the string is
    checked for those before it is scanned), else where the scan stops. *)
Definition fromhex_position (s : pystr) : N :=
  match list_find (λ c, 128 ≤ c) s with
  | Some (i, _) => N.of_nat i
  | None => fromhex_stop s 0
  end.

(** [bytes.fromhex(s)]: ASCII whitespace between bytes is skipped, anything
    else that is not a pair of hex digits raises [ValueError]. *)
Definition bytes_fromhex (s : pystr) : result bytes :=
  match fromhex s with
  | Some b => Ok b
  | None =>
    Raise (ValueError ("non-hexadecimal number found in fromhex() arg at position "
                       +:+ pretty (fromhex_position s)))
  end.

(** [s.ljust(width, fillchar)]. *)
Definition ljust (s : pystr) (width : N) (fillchar : N) : pystr :=
  s ++ replicate (N.to_nat (width - len s)) fillchar.

Module GiftChanges.

Section Primitives.

(** [string_to_list] and [list_to_string] of the imported [gift_cofb]
    module, and the methods [encrypt] and [verify] of its class [GiftCofb];
    [verify] returns [[-1]] ([None] here) when the tag does not verify. *)
Variable string_to_list : pystr → result (list Z).
Variable list_to_string : list (list Z) → result pystr.
Variable gift_encrypt :
  list (list Z) → list Z → list (list Z) → list Z → result (list (list Z) * list Z).
Variable gift_verify :
  list (list Z) → list Z → list (list Z) → list Z → list Z
  → result (option (list (list Z))).

Definition MAGIC : bytes := bytes_of_string "GIFT_SIG".

Definition call_gift_encrypt (message : list (list Z)) (key : list Z)
    (associated_data : list (list Z)) (nonce : list Z) : M (list (list Z) * list Z) :=
  log_call (GiftEncrypt message key associated_data nonce);;
  lift (gift_encrypt message key associated_data nonce).

(** [[string_to_list(h[i:i+32]) for i in range(0, len(h), 32)]], replaced
    by [[[]]] when it is empty. *)
Definition hex_blocks (h : pystr) : result (list (list Z)) :=
  blocks ← mapM (λ i, string_to_list (slice h i (i + 32))) (range_list (len h) 32);
  mret (if decide (blocks = []) then [[]] else blocks).

(** [create_gift_document_signature(filepath, author_key_hex, author_id)];
    [now] is what [datetime.now().isoformat()] returns in this call. *)
Definition create_gift_document_signature (now : pystr)
    (filepath : string) (author_key_hex : pystr) (author_id : pystr) : M (bytes * N) :=
  file_exists ← os_path_exists filepath;
  if negb file_exists then raise FileNotFoundError
  else if decide (len author_key_hex ≠ 32) then
    raise (ValueError "Author key must be exactly 32 hex characters (16 bytes)")
  else
    try_except (
      document_content ← read_file filepath;
      timestamp ← lift (str_encode now);
      author_id_bytes ← lift (str_encode author_id);
      timestamp_len ← lift (struct_pack_H (len timestamp));
      author_id_len ← lift (struct_pack_H (len author_id_bytes));
      let metadata := timestamp_len ++ timestamp ++ author_id_len ++ author_id_bytes in
      let doc_hex := bytes_hex document_content in
      doc_blocks ← lift (hex_blocks doc_hex);
      let metadata_hex := bytes_hex metadata in
      metadata_blocks ← lift (hex_blocks metadata_hex);
      key_list ← lift (string_to_list author_key_hex);
      let nonce_hex := ljust (slice doc_hex 0 32) 32 48 in
      nonce_list ← lift (string_to_list nonce_hex);
      encrypted ← call_gift_encrypt metadata_blocks key_list doc_blocks nonce_list;
      let '(encrypted_blocks, tag) := encrypted in
      encrypted_hex ← lift (list_to_string encrypted_blocks);
      encrypted_data ← lift (bytes_fromhex encrypted_hex);
      tag_hex ← lift (list_to_string [tag]);
      tag_bytes ← lift (bytes_fromhex tag_hex);
      sig_len ← lift (struct_pack_Q (len encrypted_data));
      nonce ← lift (bytes_fromhex nonce_hex);
      let final_signature := MAGIC ++ sig_len ++ nonce ++ encrypted_data ++ tag_bytes in
      append_file filepath final_signature;;
      mret (final_signature, len final_signature))
    (λ e, GiftSignatureError (FailedToCreate e)).

Definition verify_handlers (e : exn) : exn :=
  match e with
  | GiftSignatureError m => GiftSignatureError m
  | _ => GiftSignatureError (VerificationFailed e)
  end.

Definition MIN_SIG_SIZE : N := len MAGIC + 8 + 16.

(** [verify_gift_document_signature(filepath, author_key_hex)]. *)
Definition verify_gift_document_signature (filepath : string) (author_key_hex : pystr)
    : M (bool * pystr * pystr) :=
  try_except (
    content ← read_file filepath;
    if decide (len content < MIN_SIG_SIZE) then raise (GiftSignatureError FileTooSmall)
    else
      let sig_start := rfind content MAGIC in
      if decide (sig_start = (-1)%Z) then raise (GiftSignatureError NoValidSignature)
      else
        let sig_start := Z.to_N sig_start in
        let pos := sig_start + len MAGIC in
        sig_len ← lift (struct_unpack_Q (slice content pos (pos + 8)));
        let pos := pos + 8 in
        let nonce := slice content pos (pos + 16) in
        let pos := pos + 16 in
        let encrypted_data := slice content pos (pos + sig_len) in
        let tag := slice content (pos + sig_len) (pos + sig_len + 16) in
        let document_content := slice content 0 sig_start in
        key_list ← lift (string_to_list author_key_hex);
        nonce_list ← lift (string_to_list (bytes_hex nonce));
        let doc_hex := bytes_hex document_content in
        doc_blocks ← lift (hex_blocks doc_hex);
        let encrypted_hex := bytes_hex encrypted_data in
        encrypted_blocks ← lift (hex_blocks encrypted_hex);
        tag_list ← lift (string_to_list (bytes_hex tag));
        decrypted_blocks ← lift (gift_verify encrypted_blocks key_list doc_blocks
                                   nonce_list tag_list);
        match decrypted_blocks with
        | None => raise (GiftSignatureError DecryptionFailed)
        | Some decrypted_blocks =>
          decrypted_hex ← lift (list_to_string decrypted_blocks);
          decrypted_data ← lift (bytes_fromhex decrypted_hex);
          let pos := 0 in
          timestamp_len ← lift (struct_unpack_H (slice decrypted_data pos (pos + 2)));
          let pos := pos + 2 in
          timestamp ← lift (bytes_decode (slice decrypted_data pos (pos + timestamp_len)));
          let pos := pos + timestamp_len in
          author_id_len ← lift (struct_unpack_H (slice decrypted_data pos (pos + 2)));
          let pos := pos + 2 in
          author_id ← lift (bytes_decode (slice decrypted_data pos (pos + author_id_len)));
          mret (true, author_id, timestamp)
        end)
    verify_handlers.

End Primitives.

End GiftChanges.

(** ** [gift-cofb/gift_cofb_modes.py] *)

(** The hex digits of [n], most significant first, for [n] below
    [16 ^ fuel]. *)
Fixpoint hex_of (fuel : nat) (n : N) : pystr :=
  match fuel with
  | O => []
  | S fuel' =>
    if decide (n < 16) then [hex_digit n]
    else hex_of fuel' (n / 16) ++ [hex_digit (n `mod` 16)]
  end.

(** [f"{x:x}"] for an int [x]: lower-case hex digits, with a minus sign
    for a negative number. *)
Definition format_x (x : Z) : pystr :=
  let n := Z.abs_N x in
  (if decide (x < 0)%Z then [45] else []) ++ hex_of (S (N.to_nat (N.log2 n))) n.

Module GiftCofbModes.

(** [GiftCofbModes.pad_data] and [GiftCofbModes.unpad_data]: the same code
    as in [AsconModes]. *)
Definition pad_data (data : bytes) (block_size : N) : result bytes :=
  if decide (block_size = 0) then Raise ZeroDivisionError
  else
    let padding_length := block_size - len data `mod` block_size in
    if decide (padding_length < 256) then
      let padding := replicate (N.to_nat padding_length) (byte_of padding_length) in
      Ok (data ++ padding)
    else Raise (ValueError "bytes must be in range(0, 256)").

Definition unpad_data (padded_data : bytes) : result bytes :=
  match last padded_data with
  | None => Raise IndexError
  | Some b =>
    let padding_length := byte_val b in
    if decide (padding_length = 0 ∨ 16 < padding_length) then
      Raise (ValueError "Invalid padding")
    else if decide (slice padded_data (len padded_data - padding_length) (len padded_data)
                    ≠ replicate (N.to_nat padding_length) (byte_of padding_length)) then
      Raise (ValueError "Invalid padding")
    else Ok (slice padded_data 0 (len padded_data - padding_length))
  end.

Section Modes.

(** [string_to_list] of the imported [utils] module and the method
    [encrypt] of the class [GiftCofb] ([self.cipher.encrypt]). *)
Variable string_to_list : pystr → result (list Z).
Variable gift_encrypt :
  list (list Z) → list Z → list (list Z) → list Z → result (list (list Z) * list Z).

(** [self._process_block(key, block)]: one block is encrypted under a zero
    nonce and one empty block of associated data; the tag is dropped and
    the ints of [ciphertext[0]] are written in hex and read back as bytes. *)
Definition _process_block (key block : bytes) : result bytes :=
  block_list ← string_to_list (bytes_hex block);
  key_list ← string_to_list (bytes_hex key);
  nonce ← string_to_list (replicate 32 48);
  let empty_ad : list Z := [] in
  r ← gift_encrypt [block_list] key_list [empty_ad] nonce;
  let '(ciphertext, _) := r in
  match ciphertext with
  | [] => Raise IndexError
  | first_block :: _ => bytes_fromhex (mjoin (format_x <$> first_block))
  end.

Definition block_size : N := 16.

Fixpoint cbc_encrypt_loop (key padded_plaintext : bytes) (count : nat) (i : N)
    (ciphertext previous_block : bytes) : result bytes :=
  match count with
  | O => Ok ciphertext
  | S count' =>
    let block := slice padded_plaintext i (i + block_size) in
    let xored := xor_bytes block previous_block in
    encrypted ← _process_block key xored;
    cbc_encrypt_loop key padded_plaintext count' (i + block_size)
      (ciphertext ++ encrypted) encrypted
  end.

Definition cbc_encrypt (key iv plaintext : bytes) : result bytes :=
  if decide (len key ≠ 16) then Raise (ValueError "Key must be 16 bytes")
  else if decide (len iv ≠ 16) then Raise (ValueError "IV must be 16 bytes")
  else
    padded_plaintext ← pad_data plaintext block_size;
    cbc_encrypt_loop key padded_plaintext
      (AsconModes.range_count (len padded_plaintext) block_size) 0 [] iv.

(** Decryption runs [_process_block], the encrypting direction, on each
    ciphertext block. *)
Fixpoint cbc_decrypt_loop (key ciphertext : bytes) (count : nat) (i : N)
    (plaintext previous_block : bytes) : result bytes :=
  match count with
  | O => Ok plaintext
  | S count' =>
    let current_block := slice ciphertext i (i + block_size) in
    decrypted ← _process_block key current_block;
    let plaintext_block := xor_bytes decrypted previous_block in
    cbc_decrypt_loop key ciphertext count' (i + block_size)
      (plaintext ++ plaintext_block) current_block
  end.

Definition cbc_decrypt (key iv ciphertext : bytes) : result bytes :=
  if decide (len key ≠ 16) then Raise (ValueError "Key must be 16 bytes")
  else if decide (len iv ≠ 16) then Raise (ValueError "IV must be 16 bytes")
  else if decide (len ciphertext `mod` 16 ≠ 0) then
    Raise (ValueError "Ciphertext length must be multiple of 16")
  else
    plaintext ← cbc_decrypt_loop key ciphertext
      (AsconModes.range_count (len ciphertext) block_size) 0 [] iv;
    unpad_data plaintext.

Fixpoint ofb_encrypt_loop (key padded_plaintext : bytes) (count : nat) (i : N)
    (ciphertext previous_block : bytes) : result bytes :=
  match count with
  | O => Ok ciphertext
  | S count' =>
    keystream ← _process_block key previous_block;
    let block := slice padded_plaintext i (i + block_size) in
    let encrypted_block := xor_bytes block keystream in
    ofb_encrypt_loop key padded_plaintext count' (i + block_size)
      (ciphertext ++ encrypted_block) keystream
  end.

Definition ofb_encrypt (key iv plaintext : bytes) : result bytes :=
  if decide (len key ≠ 16) then Raise (ValueError "Key must be 16 bytes")
  else if decide (len iv ≠ 16) then Raise (ValueError "IV must be 16 bytes")
  else
    padded_plaintext ← pad_data plaintext block_size;
    ofb_encrypt_loop key padded_plaintext
      (AsconModes.range_count (len padded_plaintext) block_size) 0 [] iv.

Fixpoint ofb_decrypt_loop (key ciphertext : bytes) (count : nat) (i : N)
    (plaintext previous_block : bytes) : result bytes :=
  match count with
  | O => Ok plaintext
  | S count' =>
    keystream ← _process_block key previous_block;
    let block := slice ciphertext i (i + block_size) in
    let decrypted_block := xor_bytes block keystream in
    ofb_decrypt_loop key ciphertext count' (i + block_size)
      (plaintext ++ decrypted_block) keystream
  end.

Definition ofb_decrypt (key iv ciphertext : bytes) : result bytes :=
  if decide (len key ≠ 16) then Raise (ValueError "Key must be 16 bytes")
  else if decide (len iv ≠ 16) then Raise (ValueError "IV must be 16 bytes")
  else if decide (len ciphertext `mod` 16 ≠ 0) then
    Raise (ValueError "Ciphertext length must be multiple of 16")
  else
    plaintext ← ofb_decrypt_loop key ciphertext
      (AsconModes.range_count (len ciphertext) block_size) 0 [] iv;
    unpad_data plaintext.

End Modes.

End GiftCofbModes.

(** ** [Programming project1/prime_checker.py] *)

Module PrimeChecker.

Local Open Scope Z_scope.

(** [pow(base, exp, mod)] on ints.  A zero modulus raises [ValueError]; a
    negative exponent takes the inverse of the base modulo [abs(mod)], and
    raises [ValueError] when there is none; the result has the sign of
    the modulus, as for [%]. *)
Definition pow3 (base exp modulus : Z) : result Z :=
  if decide (modulus = 0) then Raise (ValueError "pow() 3rd argument cannot be 0")
  else if decide (0 ≤ exp) then Ok (base ^ exp `mod` modulus)
  else if decide (Z.abs modulus = 1) then Ok 0
  else if decide (Z.gcd base modulus = 1) then
    Ok (Z.invmod base (Z.abs modulus) ^ (- exp) `mod` modulus)
  else Raise (ValueError "base is not invertible for the given modulus").

(** The [for _ in range(s - 1)] loop of [miller_rabin_pass], with [count]
    iterations left. *)
Fixpoint miller_rabin_loop (count : nat) (x n : Z) : result bool :=
  match count with
  | O => Ok false
  | S count' =>
    x ← pow3 x 2 n;
    if decide (x = 1) then Ok false
    else if decide (x = n - 1) then Ok true
    else miller_rabin_loop count' x n
  end.

(** [miller_rabin_pass(a, s, d, n)]. *)
Definition miller_rabin_pass (a s d n : Z) : result bool :=
  x ← pow3 a d n;
  if decide (x = 1 ∨ x = n - 1) then Ok true
  else miller_rabin_loop (Z.to_nat (s - 1)) x n.

(** [while d % 2 == 0: d //= 2; s += 1], run for at most [fuel]
    iterations; it returns the final [(s, d)]. *)
Fixpoint factor_twos (fuel : nat) (s d : Z) : Z * Z :=
  match fuel with
  | O => (s, d)
  | S fuel' =>
    if decide (d `mod` 2 = 0) then factor_twos fuel' (s + 1) (d `div` 2) else (s, d)
  end.

Section Random.

(** [random.randint(a, b)]: what the call number [i] (from 0) of this run
    returns. *)
Variable random_randint : nat → Z → Z → Z.

(** The [for _ in range(k)] loop of [is_prime_miller_rabin]; [i] calls of
    [random.randint] have been made, [count] iterations are left. *)
Fixpoint miller_rabin_rounds (count i : nat) (s d n : Z) : result bool :=
  match count with
  | O => Ok true
  | S count' =>
    let a := random_randint i 2 (n - 2) in
    pass ← miller_rabin_pass a s d n;
    if negb pass then Ok false
    else miller_rabin_rounds count' (S i) s d n
  end.

(** [is_prime_miller_rabin(n, k)].  The [while] loop starts from
    [d = n - 1 >= 4] and halves [d] each time, so [n] iterations are more
    than it can make. *)
Definition is_prime_miller_rabin (n k : Z) : result bool :=
  if decide (n = 2 ∨ n = 3) then Ok true
  else if decide (n ≤ 1 ∨ n `mod` 2 = 0) then Ok false
  else
    let '(s, d) := factor_twos (Z.to_nat n) 0 (n - 1) in
    miller_rabin_rounds (Z.to_nat k) 0 s d n.

End Random.

(** The position that the index [i] stands for in [l]: a negative index
    counts from the end. *)
Definition index_of {A} (l : list A) (i : Z) : option nat :=
  if decide (0 ≤ i < Z.of_nat (length l)) then Some (Z.to_nat i)
  else if decide (- Z.of_nat (length l) ≤ i < 0) then Some (Z.to_nat (Z.of_nat (length l) + i))
  else None.

(** [l[i]]. *)
Definition getitem {A} (l : list A) (i : Z) : result A :=
  match index_of l i ≫= λ k, l !! k with
  | Some x => Ok x
  | None => Raise IndexError
  end.

(** [l[i] = x]. *)
Definition setitem {A} (l : list A) (i : Z) (x : A) : result (list A) :=
  match index_of l i with
  | Some k => Ok (<[k := x]> l)
  | None => Raise IndexError
  end.

(** The values of [range(start, stop, step)] for [step > 0]. *)
Definition py_range (start stop step : Z) : list Z :=
  (λ k, start + Z.of_nat k * step) <$> seq 0 (Z.to_nat ((stop - start + step - 1) `div` step)).

(** [for x in l: state = body(state, x)], stopping at the first exception. *)
Fixpoint for_each {S A} (body : S → A → result S) (l : list A) (state : S) : result S :=
  match l with
  | [] => Ok state
  | x :: l' => state' ← body state x; for_each body l' state'
  end.

(** The body of [for i in range(2, int(sqrt(n)) + 1)] in
    [sieve_of_eratosthenes_single]. *)
Definition eratosthenes_body (n : Z) (sieve : list bool) (i : Z) : result (list bool) :=
  is_unmarked ← getitem sieve i;
  if is_unmarked : bool then
    for_each (λ sieve j, setitem sieve j false) (py_range (i * i) (n + 1) i) sieve
  else Ok sieve.

(** [sieve[k] = not sieve[k]]. *)
Definition toggle (sieve : list bool) (k : Z) : result (list bool) :=
  b ← getitem sieve k; setitem sieve k (negb b).

Section Sieves.

(** [int(sqrt(n))], which [math.sqrt] computes on floats. *)
Variable int_sqrt : Z → Z.

(** [sieve_of_eratosthenes_single(n)]. *)
Definition sieve_of_eratosthenes_single (n : Z) : result bool :=
  if decide (n < 2) then Ok false
  else
    let sieve := replicate (Z.to_nat (n + 1)) true in
    sieve ← setitem sieve 0 false;
    sieve ← setitem sieve 1 false;
    sieve ← for_each (eratosthenes_body n) (py_range 2 (int_sqrt n + 1) 1) sieve;
    getitem sieve n.

(** [sieve_of_atkin_single(n)]. *)
Definition sieve_of_atkin_single (n : Z) : result bool :=
  if decide (n < 2) then Ok false
  else if decide (n = 2 ∨ n = 3) then Ok true
  else
    let sieve := replicate (Z.to_nat (n + 1)) false in
    sieve ← setitem sieve 2 true;
    sieve ← setitem sieve 3 true;
    let sqrt_n := int_sqrt n in
    sieve ← for_each (λ sieve x,
               for_each (λ sieve y,
                 let n1 := 4 * x * x + y * y in
                 sieve ← (if decide (n1 ≤ n ∧ (n1 `mod` 12 = 1 ∨ n1 `mod` 12 = 5))
                          then toggle sieve n1 else Ok sieve);
                 let n2 := 3 * x * x + y * y in
                 sieve ← (if decide (n2 ≤ n ∧ n2 `mod` 12 = 7)
                          then toggle sieve n2 else Ok sieve);
                 let n3 := 3 * x * x - y * y in
                 if decide (x > y ∧ n3 ≤ n ∧ n3 `mod` 12 = 11)
                 then toggle sieve n3 else Ok sieve)
               (py_range 1 (sqrt_n + 1) 1) sieve)
             (py_range 1 (sqrt_n + 1) 1) sieve;
    sieve ← for_each (λ sieve i,
               is_set ← getitem sieve i;
               if is_set : bool then
                 for_each (λ sieve j, setitem sieve j false)
                   (py_range (i * i) (n + 1) (i * i)) sieve
               else Ok sieve)
             (py_range 5 (sqrt_n + 1) 1) sieve;
    getitem sieve n.

End Sieves.

End PrimeChecker.

(** ** A small instance of the primitives

    A keyed XOR stream with a 16-byte checksum tag and a 32-byte rolling
    checksum.  It has the interface and the functional contract of the
    Ascon primitives (not their security), and serves to run the
    definitions above on concrete inputs. *)

Module Toy.

(** Fold [data] into the accumulator, one byte at a time, rotating it. *)
Definition absorb (acc data : bytes) : bytes :=
  foldl (λ acc b,
    match acc with
    | [] => []
    | a :: acc' => acc' ++ [byte_of ((byte_val (byte_xor a b) + 1) `mod` 256)]
    end) acc data.

Definition hash (message : bytes) : bytes := absorb (zero_bytes 32) message.

(** [n] bytes of the key stream for [key] and [nonce]. *)
Definition keystream (key nonce : bytes) (n : nat) : bytes :=
  take n (mjoin (replicate n (xor_bytes key nonce))).

Definition tag (key nonce associateddata plaintext : bytes) : bytes :=
  absorb (absorb (xor_bytes key nonce) associateddata) plaintext.

Definition encrypt (key nonce associateddata plaintext : bytes) : result bytes :=
  if decide (len key = 16 ∧ len nonce = 16) then
    Ok (xor_bytes plaintext (keystream key nonce (length plaintext))
        ++ tag key nonce associateddata plaintext)
  else Raise AssertionError.

Definition decrypt (key nonce associateddata ciphertext : bytes)
    : result (option bytes) :=
  if decide (len key = 16 ∧ len nonce = 16 ∧ 16 ≤ len ciphertext) then
    let body := slice ciphertext 0 (len ciphertext - 16) in
    let plaintext := xor_bytes body (keystream key nonce (length body)) in
    if decide (slice ciphertext (len ciphertext - 16) (len ciphertext)
               = tag key nonce associateddata plaintext)
    then Ok (Some plaintext) else Ok None
  else Raise AssertionError.

(** A [str] literal with ASCII characters only. *)
Definition str (s : string) : pystr := byte_val <$> bytes_of_string s.

(** The GIFT side: hex strings are lists of nibbles, a block is XORed with
    the key nibble by nibble, and the tag is key XOR nonce. *)
Definition string_to_list (s : pystr) : result (list Z) :=
  match mapM hex_value s with
  | Some l => Ok (Z.of_N <$> l)
  | None => Raise (ValueError "invalid literal for int() with base 16")
  end.

Definition list_to_string (blocks : list (list Z)) : result pystr :=
  if decide (Forall (λ x, 0 ≤ x < 16)%Z (mjoin blocks)) then
    Ok ((λ x, hex_digit (Z.to_N x)) <$> mjoin blocks)
  else Raise (ValueError "Unknown format code 'x'").

Definition gift_encrypt (message : list (list Z)) (key : list Z)
    (associated_data : list (list Z)) (nonce : list Z)
    : result (list (list Z) * list Z) :=
  Ok ((λ block, zip_with Z.lxor block key) <$> message, zip_with Z.lxor key nonce).

Definition gift_verify (ciphertext : list (list Z)) (key : list Z)
    (associated_data : list (list Z)) (nonce tag : list Z)
    : result (option (list (list Z))) :=
  if decide (tag = zip_with Z.lxor key nonce) then
    Ok (Some ((λ block, zip_with Z.lxor block key) <$> ciphertext))
  else Ok None.

End Toy.

(** A second GIFT instance, whose block function is not its own inverse:
    each nibble of a block is increased by the key nibble, modulo 16. *)
Definition toy_gift_add (message : list (list Z)) (key : list Z)
    (associated_data : list (list Z)) (nonce : list Z)
    : result (list (list Z) * list Z) :=
  Ok ((λ block, zip_with (λ x k, (x + k) `mod` 16)%Z block key) <$> message,
      zip_with Z.lxor key nonce).



(** ** What the code relies on from the primitives *)

(** The part of the contract of [ascon_encrypt] that the modes rely on:
    with a 16-byte key and nonce it returns the ciphertext followed by a
    16-byte tag. *)
Definition encrypt_appends_tag
    (enc : bytes → bytes → bytes → bytes → result bytes) : Prop :=
  ∀ key nonce ad plaintext, len key = 16 → len nonce = 16 →
    ∃ c, enc key nonce ad plaintext = Ok c ∧ len c = len plaintext + 16.

(** The first 16-byte block of the ciphertext is the plaintext block XORed
    with a key stream block that depends on key and nonce only. *)
Definition first_block_is_stream
    (enc : bytes → bytes → bytes → bytes → result bytes) : Prop :=
  ∀ key nonce x c z, len key = 16 → len nonce = 16 → len x = 16 →
    enc key nonce [] x = Ok c → enc key nonce [] (zero_bytes 16) = Ok z →
    slice c 0 16 = xor_bytes x (slice z 0 16).

(** [ascon_decrypt] inverts [ascon_encrypt] under the same key, nonce and
    associated data. *)
Definition decrypt_inverts (enc : bytes → bytes → bytes → bytes → result bytes)
    (dec : bytes → bytes → bytes → bytes → result (option bytes)) : Prop :=
  ∀ key nonce ad plaintext c, len key = 16 → len nonce = 16 →
    enc key nonce ad plaintext = Ok c → dec key nonce ad c = Ok (Some plaintext).

(** [ascon_hash] returns 32 bytes. *)
Definition digest_size (hash : bytes → bytes) : Prop := ∀ m, len (hash m) = 32.

(** What the GIFT modes rely on: [_process_block] under [key] returns a
    16-byte block for every 16-byte block. *)
Definition block_function_total (string_to_list : pystr → result (list Z))
    (gift_encrypt : list (list Z) → list Z → list (list Z) → list Z
                    → result (list (list Z) * list Z))
    (key : bytes) : Prop :=
  ∀ b, len b = 16 →
    ∃ c, GiftCofbModes._process_block string_to_list gift_encrypt key b = Ok c ∧ len c = 16.

(** [_process_block] under [key] undoes itself. *)
Definition block_function_involutive (string_to_list : pystr → result (list Z))
    (gift_encrypt : list (list Z) → list Z → list (list Z) → list Z
                    → result (list (list Z) * list Z))
    (key : bytes) : Prop :=
  ∀ b c, len b = 16 →
    GiftCofbModes._process_block string_to_list gift_encrypt key b = Ok c →
    GiftCofbModes._process_block string_to_list gift_encrypt key c = Ok b.

(** The hex nibbles of a byte string, as ints. *)
Definition nibbles_of (b : bytes) : list Z :=
  b ≫= λ x, [Z.of_N (byte_val x / 16); Z.of_N (byte_val x `mod` 16)].

(** The state of the sieve of Eratosthenes for [n] once the outer loop has
    handled every [i <= m]: [sieve[j]] is still [True] exactly when
    [j >= 2] has no divisor [d] with [2 <= d <= m] and [d * d <= j]. *)
Definition sieved (n m : Z) (sieve : list bool) : Prop :=
  length sieve = Z.to_nat (n + 1)
  ∧ ∀ j, (0 ≤ j ≤ n)%Z →
      (sieve !! Z.to_nat j = Some true
       ↔ (2 ≤ j)%Z ∧ ∀ d, (2 ≤ d ≤ m)%Z → (d * d ≤ j)%Z → ¬ (d | j)%Z).

(** Primality by trial division, to compare the sieves with. *)
Definition trial_division (n : Z) : bool :=
  bool_decide (2 ≤ n)%Z
  && forallb (λ d, negb (bool_decide (n `mod` d = 0)%Z)) (PrimeChecker.py_range 2 n 1).

(** The run returned [b]. *)
Definition returns (r : result bool) (b : bool) : bool :=
  match r with
  | Ok a => bool_decide (a = b)
  | Raise _ => false
  end.

(** Lists of hex nibbles. *)
Definition nibble_list (l : list Z) : Prop := Forall (λ x, 0 ≤ x < 16)%Z l.

(** The blocks of at most 32 nibbles that [changes.py] cuts a hex string
    into: [[h[i:i+32] for i in range(0, len(h), 32)]], or one empty block. *)
Definition blocks_of (ns : list Z) : list (list Z) :=
  let blocks := (λ i, slice ns i (i + 32)) <$> range_list (len ns) 32 in
  if decide (blocks = []) then [[]] else blocks.

(** [string_to_list] reads a string of lower-case hex digits as the list of
    their values. *)
Definition reads_hex (string_to_list : pystr → result (list Z)) : Prop :=
  ∀ ns, Forall (λ n, n < 16) ns → string_to_list (hex_digit <$> ns) = Ok (Z.of_N <$> ns).

(** [list_to_string] writes the nibbles of all blocks as lower-case hex
    digits. *)
Definition writes_hex (list_to_string : list (list Z) → result pystr) : Prop :=
  ∀ blocks, Forall nibble_list blocks →
    list_to_string blocks = Ok ((λ x, hex_digit (Z.to_N x)) <$> mjoin blocks).

(** [GiftCofb.encrypt], on a message of nibble blocks of at most 32 nibbles
    with a 32-nibble key and nonce, returns ciphertext blocks of the same
    lengths and a 32-nibble tag, from which [GiftCofb.verify] gives the
    message back. *)
Definition gift_aead
    (gift_encrypt : list (list Z) → list Z → list (list Z) → list Z
                    → result (list (list Z) * list Z))
    (gift_verify : list (list Z) → list Z → list (list Z) → list Z → list Z
                   → result (option (list (list Z)))) : Prop :=
  ∀ message key associated_data nonce,
    nibble_list key → length key = 32%nat → nibble_list nonce → length nonce = 32%nat →
    Forall (λ b, nibble_list b ∧ (length b ≤ 32)%nat) message →
    ∃ c tag, gift_encrypt message key associated_data nonce = Ok (c, tag)
      ∧ length <$> c = length <$> message
      ∧ Forall nibble_list c ∧ nibble_list tag ∧ length tag = 32%nat
      ∧ gift_verify c key associated_data nonce tag = Ok (Some message).

(** [metadata] as both [create_document_signature] and
    [create_gift_document_signature] build it. *)
Definition metadata_of (timestamp author_id_bytes : bytes) : bytes :=
  le_bytes 2 (len timestamp) ++ timestamp ++ le_bytes 2 (len author_id_bytes)
  ++ author_id_bytes.

(** [metadata + doc_hash] as [create_document_signature] builds it. *)
Definition signature_data_of (hash : bytes → bytes)
    (timestamp author_id_bytes document_content : bytes) : bytes :=
  le_bytes 2 (len timestamp) ++ timestamp ++ le_bytes 2 (len author_id_bytes)
  ++ author_id_bytes ++ hash document_content.

(** [final_signature] as [create_document_signature] builds it. *)
Definition frame (nonce encrypted_signature : bytes) : bytes :=
  AsconChanges.MAGIC ++ le_bytes 8 (len encrypted_signature) ++ nonce ++ encrypted_signature.

(** ** Concrete inputs *)

Module Example.

Definition path : string := "doc.txt".
Definition document : bytes := bytes_of_string "hello".

(** A disk holding one unsigned document. *)
Definition disk : world := World {[ path := document ]} [].

Definition key : bytes := bytes_of_string "0123456789abcdef".
Definition key_hex : pystr := Toy.str "0123456789ABCDEF0123456789ABCDEF".
Definition nonce : bytes := byte_of <$> [1; 2; 3; 4; 5; 6; 7; 8; 9; 10; 11; 12; 13; 14; 15; 16].
Definition now : pystr := Toy.str "2024-11-03T17:14:00".
Definition later : pystr := Toy.str "2024-11-03T17:15:00".
Definition alice : pystr := Toy.str "alice".
Definition bob : pystr := Toy.str "bob".

(** A nonce that [get_random_bytes(16)] can return: it starts with the
    bytes of the magic tag. *)
Definition magic_nonce : bytes := AsconChanges.MAGIC ++ zero_bytes 7.

(** A key for which the tag of the signature of [document] by [alice], and
    so the signed file, ends with the byte "A". *)
Definition straddle_key : bytes := bytes_of_string "0123456789aucdef".

(** [world] with the file at [path] replaced by [content]. *)
Definition with_file (w : world) (content : bytes) : world :=
  World (<[path := content]> (files w)) (aead_calls w).

(** Decrypted signature data with a timestamp length of 9 and only three
    bytes after it. *)
Definition short_timestamp : bytes := le_bytes 2 9 ++ bytes_of_string "abc".

(** Decrypted signature data with timestamp "t", an author-id length of 5,
    and only the byte "a" after it. *)
Definition short_author : bytes :=
  le_bytes 2 1 ++ bytes_of_string "t" ++ le_bytes 2 5 ++ bytes_of_string "a".

(** A file that is one Ascon signature block, made with [key] and [nonce],
    whose ciphertext decrypts to [signature_data]. *)
Definition ascon_file (signature_data : bytes) : world :=
  match Toy.encrypt key nonce [] signature_data with
  | Ok c => World {[ path := frame nonce c ]} []
  | Raise _ => World ∅ []
  end.

(** The hex nibbles of [data] in blocks of 32. *)
Definition nibble_blocks (data : bytes) : list (list Z) :=
  match GiftChanges.hex_blocks Toy.string_to_list (bytes_hex data) with
  | Ok blocks => blocks
  | Raise _ => []
  end.

(** The bytes that a list of nibble blocks stands for. *)
Definition block_bytes (blocks : list (list Z)) : bytes :=
  match Toy.list_to_string blocks ≫= bytes_fromhex with
  | Ok b => b
  | Raise _ => []
  end.

(** A file that is one GIFT signature block, made with [key_hex] and
    [nonce], whose ciphertext decrypts to [signature_data]. *)
Definition gift_file (signature_data : bytes) : world :=
  match Toy.string_to_list key_hex, Toy.string_to_list (bytes_hex nonce) with
  | Ok key_list, Ok nonce_list =>
    match Toy.gift_encrypt (nibble_blocks signature_data) key_list [[]] nonce_list with
    | Ok (encrypted_blocks, tag) =>
      let encrypted_data := block_bytes encrypted_blocks in
      World {[ path := GiftChanges.MAGIC ++ le_bytes 8 (len encrypted_data) ++ nonce
                       ++ encrypted_data ++ block_bytes [tag] ]} []
    | Raise _ => World ∅ []
    end
  | _, _ => World ∅ []
  end.

End Example.

(** ** More concrete inputs *)

(** The value a run returned, or [d] when it raised. *)
Definition ok_or {A} (d : A) (r : result A) : A :=
  match r with Ok a => a | Raise _ => d end.

(** The OFB ciphertext of [p] under the example key and IV. *)
Definition ofb_of (p : bytes) : bytes :=
  ok_or [] (AsconModes.ofb_encrypt Toy.encrypt Example.key Example.nonce p).

(** A disk whose document has 40 zero bytes and no signature. *)
Definition unsigned_disk : world :=
  World {[ Example.path := replicate 40 Byte.x00 ]} [].

(** What a signing run returned: the signature block and its length. *)
Definition returned_signature (run : result (bytes * N) * world) : bytes :=
  match fst run with Ok (sig, _) => sig | Raise _ => [] end.

Definition returned_length (run : result (bytes * N) * world) : N :=
  match fst run with Ok (_, n) => n | Raise _ => 0 end.

(** The example document signed once, by each variant. *)
Definition signed_once : result (bytes * N) * world :=
  AsconChanges.create_document_signature Toy.hash Toy.encrypt Example.now Example.nonce
    Example.path Example.key Example.alice Example.disk.

Definition gift_signed_once : result (bytes * N) * world :=
  GiftChanges.create_gift_document_signature Toy.string_to_list Toy.list_to_string
    Toy.gift_encrypt Example.now Example.path Example.key_hex Example.alice Example.disk.

Definition gift_signed_file : bytes :=
  default [] (files (snd gift_signed_once) !! Example.path).

(** The ciphertext of the Ascon signature block, and a disk on which the
    length field of that block says 1000. *)
Definition signed_ciphertext : bytes := drop 33 (returned_signature signed_once).

Definition stretched_disk : world :=
  World {[ Example.path := Example.document ++ AsconChanges.MAGIC ++ le_bytes 8 1000
                           ++ Example.nonce ++ signed_ciphertext ]} [].

(** The plaintext of the CBC test scenario. *)
Definition test_plaintext : bytes :=
  bytes_of_string "This is a test message for encryption modes!".

(** * Properties *)

Ltac Zify.zify_post_hook ::= Z.to_euclidean_division_equations.

(** ** The built-ins on small inputs *)

Example slice_clamps :
  slice (bytes_of_string "abcdef") 2 4 = bytes_of_string "cd"
  ∧ slice (bytes_of_string "abcdef") 4 100 = bytes_of_string "ef"
  ∧ slice (bytes_of_string "abcdef") 7 9 = []
  ∧ slice (bytes_of_string "abcdef") 4 2 = [].
Proof. repeat split. Qed.

Example rfind_rightmost :
  rfind (bytes_of_string "abcabc") (bytes_of_string "bc") = 4%Z
  ∧ rfind (bytes_of_string "abcabc") (bytes_of_string "x") = (-1)%Z
  ∧ rfind (bytes_of_string "aaa") (bytes_of_string "aa") = 1%Z.
Proof. repeat split. Qed.

Example struct_pack_little_endian :
  struct_pack_H 258 = Ok [byte_of 2; byte_of 1]
  ∧ struct_pack_H 65536 = Raise StructError
  ∧ struct_unpack_H [byte_of 2; byte_of 1] = Ok 258
  ∧ struct_unpack_H [byte_of 2] = Raise StructError
  ∧ struct_pack_Q 76 = Ok (byte_of <$> [76; 0; 0; 0; 0; 0; 0; 0]).
Proof. repeat split. Qed.

Example utf8_samples :
  str_encode [0xE9] = Ok (byte_of <$> [0xC3; 0xA9])
  ∧ str_encode [0x20AC] = Ok (byte_of <$> [0xE2; 0x82; 0xAC])
  ∧ str_encode [0x1F600] = Ok (byte_of <$> [0xF0; 0x9F; 0x98; 0x80])
  ∧ str_encode [0xD800] = Raise UnicodeEncodeError
  ∧ bytes_decode (byte_of <$> [0xF0; 0x9F; 0x98; 0x80]) = Ok [0x1F600]
  ∧ bytes_decode (byte_of <$> [0xC0; 0x80]) = Raise UnicodeDecodeError
  ∧ bytes_decode (byte_of <$> [0xED; 0xA0; 0x80]) = Raise UnicodeDecodeError
  ∧ bytes_decode (byte_of <$> [0xE2; 0x82]) = Raise UnicodeDecodeError.
Proof. repeat split. Qed.

Example hex_samples :
  bytes_hex (bytes_of_string "hi") = Toy.str "6869"
  ∧ bytes_fromhex (Toy.str "68 69") = Ok (bytes_of_string "hi")
  ∧ bytes_fromhex (Toy.str "686")
    = Raise (ValueError "non-hexadecimal number found in fromhex() arg at position 3")
  ∧ bytes_fromhex (Toy.str "68 6g 69")
    = Raise (ValueError "non-hexadecimal number found in fromhex() arg at position 4")
  ∧ bytes_fromhex (Toy.str "6 8")
    = Raise (ValueError "non-hexadecimal number found in fromhex() arg at position 1")
  ∧ bytes_fromhex (Toy.str "zz" ++ [233])
    = Raise (ValueError "non-hexadecimal number found in fromhex() arg at position 2")
  ∧ ljust (Toy.str "6869") 8 48 = Toy.str "68690000".
Proof. repeat split. Qed.

Example pad_samples :
  AsconModes.pad_data [] 16 = Ok (replicate 16 (byte_of 16))
  ∧ AsconModes.pad_data (bytes_of_string "abc") 4 = Ok (bytes_of_string "abc" ++ [byte_of 1])
  ∧ AsconModes.unpad_data (bytes_of_string "abc" ++ [byte_of 1]) = Ok (bytes_of_string "abc")
  ∧ AsconModes.unpad_data (bytes_of_string "abc" ++ [byte_of 0])
    = Raise (ValueError "Invalid padding")
  ∧ AsconModes.unpad_data (bytes_of_string "abc" ++ [byte_of 17])
    = Raise (ValueError "Invalid padding")
  ∧ AsconModes.unpad_data (bytes_of_string "ab" ++ [byte_of 1; byte_of 2])
    = Raise (ValueError "Invalid padding")
  ∧ AsconModes.unpad_data [] = Raise IndexError.
Proof. repeat split. Qed.

(** ** Bytes and slices *)

Lemma byte_val_bound b : byte_val b < 256.
Proof. unfold byte_val. pose proof (Byte.to_N_bounded b). lia. Qed.

Lemma byte_val_of n : n < 256 → byte_val (byte_of n) = n.
Proof.
  intros Hn. unfold byte_val, byte_of.
  destruct (Byte.of_N n) as [b|] eqn:E; simpl.
  - by apply Byte.to_of_N.
  - apply Byte.of_N_None_iff in E. lia.
Qed.

Lemma byte_of_val b : byte_of (byte_val b) = b.
Proof. unfold byte_of, byte_val. by rewrite Byte.of_to_N. Qed.

Lemma byte_val_inj a b : byte_val a = byte_val b → a = b.
Proof. intros H. rewrite <-(byte_of_val a), <-(byte_of_val b). by rewrite H. Qed.

Lemma lxor_bound a b : a < 256 → b < 256 → N.lxor a b < 256.
Proof.
  intros Ha Hb.
  destruct (decide (N.lxor a b = 0)) as [->|Hne]; [lia|].
  apply N.log2_lt_pow2 with (b:=8); [lia|].
  eapply N.le_lt_trans; [apply N.log2_lxor|].
  apply N.max_lub_lt.
  - destruct (decide (a = 0)) as [->|?]; [done|]. apply N.log2_lt_pow2; lia.
  - destruct (decide (b = 0)) as [->|?]; [done|]. apply N.log2_lt_pow2; lia.
Qed.

Lemma byte_xor_val a b : byte_val (byte_xor a b) = N.lxor (byte_val a) (byte_val b).
Proof. apply byte_val_of, lxor_bound; apply byte_val_bound. Qed.

Lemma byte_xor_cancel a b : byte_xor (byte_xor a b) b = a.
Proof.
  apply byte_val_inj. rewrite !byte_xor_val.
  by rewrite N.lxor_assoc, N.lxor_nilpotent, N.lxor_0_r.
Qed.

Lemma xor_bytes_length x y : length (xor_bytes x y) = (length x `min` length y)%nat.
Proof. apply length_zip_with. Qed.

Lemma xor_bytes_cancel x y :
  (length x ≤ length y)%nat → xor_bytes (xor_bytes x y) y = x.
Proof.
  unfold xor_bytes. revert y.
  induction x as [|a x IH]; intros [|b y] Hl; simpl in *; try done; try lia.
  rewrite byte_xor_cancel, IH; [done|lia].
Qed.

Lemma slice_take_drop {A} (b : list A) i j :
  slice b i j = take (N.to_nat j - N.to_nat i) (drop (N.to_nat i) b).
Proof.
  unfold slice, len. cbv zeta.
  destruct (decide (N.of_nat (length b) ≤ i)) as [Hi|Hi].
  - rewrite (N.min_r i) by done. rewrite Nat2N.id.
    rewrite !drop_ge by lia. by rewrite !take_nil.
  - rewrite (N.min_l i) by lia.
    destruct (decide (N.of_nat (length b) ≤ j)) as [Hj|Hj].
    + rewrite (N.min_r j) by done. rewrite !take_ge; [done| |]; rewrite length_drop; lia.
    + rewrite (N.min_l j) by lia. f_equal. lia.
Qed.

Lemma slice_0 {A} (b : list A) j : slice b 0 j = take (N.to_nat j) b.
Proof. rewrite slice_take_drop. simpl. f_equal. lia. Qed.

Lemma slice_length_le {A} (b : list A) i j : (length (slice b i j) ≤ N.to_nat j - N.to_nat i)%nat.
Proof. rewrite slice_take_drop, length_take. lia. Qed.

Lemma len_app {A} (x y : list A) : len (x ++ y) = len x + len y.
Proof. unfold len. rewrite length_app. lia. Qed.

Lemma len_replicate {A} n (x : A) : len (replicate n x) = N.of_nat n.
Proof. unfold len. by rewrite length_replicate. Qed.

(** ** Padding *)

Import AsconModes.

Lemma pad_data_16 data :
  let n := 16 - len data `mod` 16 in
  1 ≤ n ≤ 16 ∧ pad_data data 16 = Ok (data ++ replicate (N.to_nat n) (byte_of n)).
Proof.
  intros n. assert (len data `mod` 16 < 16) by (by apply N.mod_lt).
  assert (1 ≤ n ≤ 16) by (unfold n; lia). split; [done|].
  unfold pad_data. rewrite decide_False by lia. fold n.
  by rewrite decide_True by lia.
Qed.

Lemma unpad_data_padding data n :
  1 ≤ n ≤ 16 →
  unpad_data (data ++ replicate (N.to_nat n) (byte_of n)) = Ok data.
Proof.
  intros Hn. unfold unpad_data.
  destruct (N.to_nat n) as [|k] eqn:Hk; [lia|].
  assert (replicate (S k) (byte_of n) = replicate k (byte_of n) ++ [byte_of n]) as Hsnoc.
  { change (S k) with (1 + k)%nat. rewrite (Nat.add_comm 1 k), replicate_add. done. }
  rewrite Hsnoc at 1. rewrite app_assoc, last_snoc.
  rewrite byte_val_of by lia.
  rewrite decide_False by lia.
  rewrite slice_0, slice_take_drop, len_app, len_replicate, Hk.
  replace (N.to_nat (len data + N.of_nat (S k) - n)) with (length data) by (unfold len; lia).
  rewrite drop_app_length.
  rewrite take_ge by (rewrite length_replicate; unfold len; lia).
  rewrite decide_False by (intros H; by apply H).
  by rewrite take_app_length.
Qed.

(** C6.  For every byte string [data], [pad_data(data, 16)] appends [n]
    bytes of value [n], where [n = 16 - len(data) % 16] lies between 1 and
    16 (a full block of 16 when the length is already a multiple of 16,
    never no byte at all), and [unpad_data] of the result is [data]. *)
Theorem pad_unpad_roundtrip (data : bytes) :
  let n := 16 - len data `mod` 16 in
  1 ≤ n ≤ 16
  ∧ (len data `mod` 16 = 0 → n = 16)
  ∧ pad_data data 16 = Ok (data ++ replicate (N.to_nat n) (byte_of n))
  ∧ byte_val (byte_of n) = n
  ∧ (padded ← pad_data data 16; unpad_data padded) = Ok data.
Proof.
  intros n. destruct (pad_data_16 data) as [Hn Hpad]. fold n in Hn, Hpad.
  split; [done|]. split; [unfold n; lia|]. split; [done|].
  split; [apply byte_val_of; lia|].
  rewrite Hpad. simpl. by apply unpad_data_padding.
Qed.


(** ** The loops of the chained modes *)

Lemma range_count_blocks m : range_count (16 * N.of_nat m) 16 = m.
Proof. unfold range_count. lia. Qed.

Lemma slice_block {A} (b : list A) i :
  slice b i (i + 16) = take 16 (drop (N.to_nat i) b).
Proof. rewrite slice_take_drop. f_equal. lia. Qed.

Section ModeProofs.
Variable enc : bytes → bytes → bytes → bytes → result bytes.
Hypothesis Htag : encrypt_appends_tag enc.
Variable key : bytes.
Hypothesis Hkey : len key = 16.

Lemma keystream_block prev :
  len prev = 16 →
  ∃ z, enc key prev [] (zero_bytes 16) = Ok z ∧ length (slice z 0 16) = 16%nat.
Proof.
  intros Hp. destruct (Htag key prev [] (zero_bytes 16) Hkey Hp) as (z & Hz & Hl).
  exists z. split; [done|]. rewrite slice_0, length_take.
  unfold len, zero_bytes in Hl. rewrite length_replicate in Hl. lia.
Qed.


Hypothesis Hstream : first_block_is_stream enc.

Lemma cbc_loops count : ∀ rest prev,
  length rest = (16 * count)%nat → len prev = 16 →
  ∃ tail_c, length tail_c = (16 * count)%nat ∧
    (∀ padded i acc, drop (N.to_nat i) padded = rest →
       cbc_encrypt_loop enc key padded count i acc prev = Ok (acc ++ tail_c)) ∧
    (∀ ciphertext j acc, drop (N.to_nat j) ciphertext = tail_c →
       cbc_decrypt_loop enc key ciphertext count j acc prev = Ok (acc ++ rest)).
Proof.
  induction count as [|count IH]; intros rest prev Hrest Hprev.
  - destruct rest; [|simpl in Hrest; lia]. exists []. split; [done|].
    split; intros; simpl; by rewrite app_nil_r.
  - assert (length (take 16 rest) = 16%nat) as Hb by (rewrite length_take; lia).
    assert (length prev = 16%nat) as Hprev' by (unfold len in Hprev; lia).
    set (xored := xor_bytes (take 16 rest) prev).
    assert (length xored = 16%nat) as Hx by (unfold xored; rewrite xor_bytes_length; lia).
    destruct (Htag key prev [] xored Hkey Hprev) as (c & Hc & Hclen).
    destruct (keystream_block prev Hprev) as (z & Hz & Hks).
    assert (slice c 0 16 = xor_bytes xored (slice z 0 16)) as Hc1.
    { apply (Hstream key prev xored c z); [done|done|unfold len; lia|done|done]. }
    set (ks := slice z 0 16) in *. set (c1 := slice c 0 16) in *.
    assert (length c1 = 16%nat) as Hc1len by (rewrite Hc1, xor_bytes_length; lia).
    destruct (IH (drop 16 rest) c1) as (tail' & Hlen' & Henc & Hdec).
    { rewrite length_drop. lia. } { unfold len. lia. }
    exists (c1 ++ tail'). split; [|split].
    + rewrite length_app. lia.
    + intros padded i acc Hdrop. simpl. unfold block_size.
      rewrite slice_block, Hdrop. fold xored. rewrite Hc. simpl. fold c1.
      rewrite Henc; [by rewrite <-app_assoc|].
      replace (N.to_nat (i + 16)) with (N.to_nat i + 16)%nat by lia.
      by rewrite <-drop_drop, Hdrop.
    + intros ciphertext j acc Hdrop. simpl. unfold block_size.
      change (zero_bytes (N.to_nat 16)) with (zero_bytes 16).
      rewrite Hz. simpl. fold ks. rewrite slice_block, Hdrop.
      rewrite take_app_length' by done.
      rewrite Hc1 at 1. rewrite xor_bytes_cancel by lia.
      unfold xored. rewrite xor_bytes_cancel by lia.
      rewrite Hdec.
      * by rewrite <-app_assoc, take_drop.
      * replace (N.to_nat (j + 16)) with (N.to_nat j + 16)%nat by lia.
        rewrite <-drop_drop, Hdrop. by rewrite drop_app_length'.
Qed.
End ModeProofs.

Section ModeRoundTrip.
Variable enc : bytes → bytes → bytes → bytes → result bytes.
Hypothesis Htag : encrypt_appends_tag enc.

Lemma padded_blocks plaintext :
  ∃ padded m, pad_data plaintext 16 = Ok padded ∧ length padded = (16 * m)%nat
    ∧ unpad_data padded = Ok plaintext.
Proof.
  destruct (pad_data_16 plaintext) as [Hn Hpad].
  set (n := 16 - len plaintext `mod` 16) in *.
  eexists _, (N.to_nat ((len plaintext + n) / 16)). split; [exact Hpad|]. split.
  - rewrite length_app, length_replicate. unfold n, len. lia.
  - by apply unpad_data_padding.
Qed.


Hypothesis Hstream : first_block_is_stream enc.

Lemma cbc_roundtrip key iv plaintext :
  len key = 16 → len iv = 16 →
  (c ← cbc_encrypt enc key iv plaintext; cbc_decrypt enc key iv c) = Ok plaintext.
Proof.
  intros Hkey Hiv.
  destruct (padded_blocks plaintext) as (padded & m & Hpad & Hlen & Hunpad).
  destruct (cbc_loops enc Htag key Hkey Hstream m padded iv Hlen Hiv) as (c & Hc & Henc & Hdec).
  unfold cbc_encrypt, cbc_decrypt, block_size.
  rewrite !decide_False by (intros H; by apply H).
  rewrite Hpad. simpl.
  replace (len padded) with (16 * N.of_nat m) by (unfold len; lia).
  rewrite range_count_blocks, (Henc padded 0 []) by done. simpl.
  rewrite !decide_False by (intros H; by apply H).
  replace (len c) with (16 * N.of_nat m) by (unfold len; lia).
  rewrite decide_False by (intros H; apply H; lia).
  rewrite range_count_blocks, (Hdec c 0 []) by done. simpl. done.
Qed.
End ModeRoundTrip.


(** ** [struct] and UTF-8 round trips *)
Lemma le_value_bytes w : ∀ n, n < 256 ^ N.of_nat w → le_value (le_bytes w n) = n.
Proof.
  induction w as [|w IH]; intros n Hn.
  - simpl in *. lia.
  - cbn [le_bytes le_value].
    rewrite byte_val_of by (apply N.mod_lt; lia).
    rewrite IH.
    + lia.
    + rewrite Nat2N.inj_succ, N.pow_succ_r' in Hn. 
      apply N.Div0.div_lt_upper_bound. lia.
Qed.

Lemma le_bytes_length w n : length (le_bytes w n) = w.
Proof. revert n. induction w; intros; simpl; auto. Qed.

Lemma struct_unpack_pack_H n b : struct_pack_H n = Ok b → struct_unpack_H b = Ok n ∧ len b = 2.
Proof.
  unfold struct_pack_H, struct_unpack_H. case_decide; [|done]. intros [= <-].
  split; [|done]. rewrite decide_True by done.
  f_equal. apply (le_value_bytes 2). simpl. lia.
Qed.

Lemma struct_unpack_pack_Q n b : struct_pack_Q n = Ok b → struct_unpack_Q b = Ok n ∧ len b = 8.
Proof.
  unfold struct_pack_Q, struct_unpack_Q. case_decide; [|done]. intros [= <-].
  split; [|done]. rewrite decide_True by done.
  f_equal. apply (le_value_bytes 8). simpl. lia.
Qed.

Lemma utf8_cont_of n : n < 64 → utf8_cont (byte_of (0x80 + n)) = true.
Proof.
  intros Hn. unfold utf8_cont. rewrite byte_val_of by lia.
  apply bool_decide_eq_true. lia.
Qed.

Lemma utf8_decode_encode_char c b rest :
  utf8_encode_char c = Some b →
  utf8_decode (b ++ rest) = cons c <$> utf8_decode rest.
Proof.
  unfold utf8_encode_char.
  repeat case_decide; intros [= <-]; cbn [app utf8_decode].
  - rewrite byte_val_of by lia. by rewrite decide_True by lia.
  - rewrite !byte_val_of by lia.
    rewrite decide_False by lia. rewrite decide_False by lia. rewrite decide_True by lia.
    rewrite utf8_cont_of by lia.
    do 2 f_equal. lia.
  - rewrite !byte_val_of by lia.
    do 3 (rewrite decide_False by lia). rewrite decide_True by lia.
    rewrite !utf8_cont_of by lia. cbn [andb].
    rewrite bool_decide_eq_true_2 by lia.
    do 2 f_equal. lia.
  - rewrite !byte_val_of by lia.
    do 4 (rewrite decide_False by lia). rewrite decide_True by lia.
    rewrite !utf8_cont_of by lia. cbn [andb].
    rewrite bool_decide_eq_true_2 by lia.
    do 2 f_equal. lia.
Qed.

Lemma utf8_decode_encode s : ∀ b, utf8_encode s = Some b → utf8_decode b = Some s.
Proof.
  induction s as [|c s IH]; intros b; simpl.
  - by intros [= <-].
  - destruct (utf8_encode_char c) as [bc|] eqn:Hc; [|done].
    destruct (utf8_encode s) as [bs|] eqn:Hs; [|done]. intros [= <-].
    rewrite (utf8_decode_encode_char c bc bs Hc). by rewrite (IH bs eq_refl).
Qed.

Lemma bytes_decode_encode s b : str_encode s = Ok b → bytes_decode b = Ok s.
Proof.
  unfold str_encode, bytes_decode. destruct (utf8_encode s) as [b'|] eqn:E; [|done].
  intros [= <-]. by rewrite (utf8_decode_encode s b' E).
Qed.


(** ** Slices of a concatenation, and [rfind] *)

Lemma slice_split {A} (content pre mid post : list A) i j :
  content = pre ++ mid ++ post → i = len pre → j = i + len mid →
  slice content i j = mid.
Proof.
  intros -> -> ->. rewrite slice_take_drop.
  replace (N.to_nat (len pre)) with (length pre) by (unfold len; lia).
  rewrite drop_app_length.
  replace (N.to_nat (len pre + len mid) - length pre)%nat with (length mid) by (unfold len; lia).
  by rewrite take_app_length.
Qed.

Lemma slice_app_l {A} (b s : list A) i j :
  j ≤ len b → slice (b ++ s) i j = slice b i j.
Proof.
  intros Hj. rewrite !slice_take_drop.
  destruct (decide (i ≤ j)) as [Hij|Hij].
  - rewrite drop_app_le by (unfold len in *; lia).
    rewrite take_app_le; [done|]. rewrite length_drop. unfold len in *. lia.
  - replace (N.to_nat j - N.to_nat i)%nat with 0%nat by lia. done.
Qed.

Lemma rfind_from_shift sub l : ∀ i, rfind_from sub l i = N.add i <$> rfind_from sub l 0.
Proof.
  induction l as [|x l IH]; intros i; simpl.
  - destruct (starts_with sub []); simpl; [f_equal; lia|done].
  - rewrite (IH (i + 1)), (IH (0 + 1)).
    destruct (rfind_from sub l 0) as [j|]; simpl.
    + f_equal. lia.
    + destruct (starts_with sub (x :: l)); simpl; [f_equal; lia|done].
Qed.

Lemma rfind_from_app sub D block j :
  rfind_from sub block 0 = Some j →
  rfind_from sub (D ++ block) 0 = Some (len D + j).
Proof.
  intros Hj. induction D as [|d D IH]; simpl.
  - rewrite Hj. f_equal.
  - rewrite rfind_from_shift, IH. simpl. f_equal. unfold len. simpl. lia.
Qed.

Lemma rfind_app content block sub j :
  rfind block sub = Z.of_N j → rfind (content ++ block) sub = Z.of_N (len content + j).
Proof.
  unfold rfind. destruct (rfind_from sub block 0) as [j'|] eqn:E; [|lia].
  intros Hj. assert (j' = j) as -> by lia.
  by rewrite (rfind_from_app _ _ _ _ E).
Qed.


(** ** Running [create_document_signature] and [verify_document_signature] *)

Import AsconChanges.

Lemma len_MAGIC : len MAGIC = 9.
Proof. reflexivity. Qed.

Lemma len_le_bytes w n : len (le_bytes w n) = N.of_nat w.
Proof. unfold len. by rewrite le_bytes_length. Qed.

Lemma len_frame nonce ct : len (frame nonce ct) = 9 + 8 + len nonce + len ct.
Proof. unfold frame. rewrite !len_app, len_MAGIC, len_le_bytes. lia. Qed.

#[local] Opaque le_bytes MAGIC slice rfind N.pow len.

Ltac unfold_M :=
  unfold try_except, os_path_exists, read_file, append_file, call_ascon_encrypt,
    log_call, lift, raise, mbind, M_bind, mret, M_ret, result_bind, result_ret in *.

Section Sign.
Variable hash : bytes → bytes.
Variable enc : bytes → bytes → bytes → bytes → result bytes.
Variable dec : bytes → bytes → bytes → bytes → result (option bytes).

Lemma create_runs w path D key now nonce author ts a ct :
  files w !! path = Some D → len key = 16 →
  str_encode now = Ok ts → str_encode author = Ok a →
  len ts < 2 ^ 16 → len a < 2 ^ 16 →
  enc key nonce [] (signature_data_of hash ts a D) = Ok ct → len ct < 2 ^ 64 →
  create_document_signature hash enc now nonce path key author w
  = (Ok (frame nonce ct, len (frame nonce ct)),
     World (<[path := D ++ frame nonce ct]> (files w))
           (aead_calls w ++ [AsconEncrypt key nonce [] (signature_data_of hash ts a D)])).
Proof.
  intros Hfile Hkey Hts Ha Htslen Halen Hct Hctlen.
  unfold create_document_signature. unfold_M.
  rewrite Hfile. simpl.
  rewrite decide_False by (intros H; by apply H).
  rewrite Hfile, Hts, Ha. unfold struct_pack_H, struct_pack_Q.
  rewrite !decide_True by done. simpl.
  unfold signature_data_of in Hct. rewrite <-!app_assoc. rewrite Hct.
  rewrite decide_True by done. simpl. rewrite Hfile. done.
Qed.

Lemma verify_framed w path key D nonce ct ts a stored author now :
  files w !! path = Some (D ++ frame nonce ct) →
  rfind (frame nonce ct) MAGIC = 0%Z →
  len nonce = 16 → len ct < 2 ^ 64 →
  dec key nonce [] ct
    = Ok (Some (le_bytes 2 (len ts) ++ ts ++ le_bytes 2 (len a) ++ a ++ stored)) →
  len ts < 2 ^ 16 → len a < 2 ^ 16 →
  bytes_decode ts = Ok now → bytes_decode a = Ok author → len stored = 32 →
  verify_document_signature hash dec path key w
  = (if decide (hash D ≠ stored) then Raise (SignatureError ContentModified)
     else Ok (true, author, now), w).
Proof.
  intros Hfile Hrfind Hnonce Hctlen Hdec Htslen Halen Hts Ha Hstored.
  unfold verify_document_signature. unfold_M.
  rewrite Hfile. simpl.
  assert (rfind (D ++ frame nonce ct) MAGIC = Z.of_N (len D)) as ->.
  { rewrite (rfind_app _ _ _ 0) by done. f_equal. lia. }
  rewrite decide_False by (unfold MIN_SIG_SIZE; rewrite len_app, len_frame, len_MAGIC; lia).
  rewrite decide_False by lia. rewrite N2Z.id.
  rewrite (slice_split _ (D ++ MAGIC) (le_bytes 8 (len ct)) (nonce ++ ct))
    by (unfold frame; rewrite ?len_app, ?len_le_bytes, <-?app_assoc; first [done|lia]).
  destruct (struct_unpack_pack_Q (len ct) (le_bytes 8 (len ct))) as [-> _].
  { unfold struct_pack_Q. by rewrite decide_True. }
  rewrite (slice_split _ (D ++ MAGIC ++ le_bytes 8 (len ct)) nonce ct)
    by (unfold frame; rewrite ?len_app, ?len_le_bytes, <-?app_assoc, ?app_nil_r; first [done|lia]).
  rewrite (slice_split _ (D ++ MAGIC ++ le_bytes 8 (len ct) ++ nonce) ct [])
    by (unfold frame; rewrite ?len_app, ?len_le_bytes, <-?app_assoc, ?app_nil_r; first [done|lia]).
  rewrite Hdec.
  set (sb := le_bytes 2 (len ts) ++ ts ++ le_bytes 2 (len a) ++ a ++ stored).
  rewrite (slice_split sb [] (le_bytes 2 (len ts)) (ts ++ le_bytes 2 (len a) ++ a ++ stored))
    by (rewrite ?len_le_bytes; first [done|lia]).
  destruct (struct_unpack_pack_H (len ts) (le_bytes 2 (len ts))) as [-> _].
  { unfold struct_pack_H. by rewrite decide_True. }
  rewrite (slice_split sb (le_bytes 2 (len ts)) ts (le_bytes 2 (len a) ++ a ++ stored))
    by (rewrite ?len_le_bytes; first [done|lia]).
  rewrite Hts.
  rewrite (slice_split sb (le_bytes 2 (len ts) ++ ts) (le_bytes 2 (len a)) (a ++ stored))
    by (unfold sb; rewrite ?len_app, ?len_le_bytes, <-?app_assoc; first [done|lia]).
  destruct (struct_unpack_pack_H (len a) (le_bytes 2 (len a))) as [-> _].
  { unfold struct_pack_H. by rewrite decide_True. }
  rewrite (slice_split sb (le_bytes 2 (len ts) ++ ts ++ le_bytes 2 (len a)) a stored)
    by (unfold sb; rewrite ?len_app, ?len_le_bytes, <-?app_assoc; first [done|lia]).
  rewrite Ha.
  rewrite (slice_split sb (le_bytes 2 (len ts) ++ ts ++ le_bytes 2 (len a) ++ a) stored [])
    by (unfold sb; rewrite ?len_app, ?len_le_bytes, <-?app_assoc, ?app_nil_r; first [done|lia]).
  rewrite (slice_split (D ++ frame nonce ct) [] D (frame nonce ct)) by done.
  by destruct (decide (hash D ≠ stored)).
Qed.

Lemma create_inv w path key now nonce author sig n w1 :
  create_document_signature hash enc now nonce path key author w = (Ok (sig, n), w1) →
  ∃ D ts a ct,
    files w !! path = Some D ∧ len key = 16 ∧
    str_encode now = Ok ts ∧ str_encode author = Ok a ∧
    len ts < 2 ^ 16 ∧ len a < 2 ^ 16 ∧
    enc key nonce [] (signature_data_of hash ts a D) = Ok ct ∧ len ct < 2 ^ 64 ∧
    sig = frame nonce ct ∧ n = len sig ∧
    w1 = World (<[path := D ++ sig]> (files w))
           (aead_calls w ++ [AsconEncrypt key nonce [] (signature_data_of hash ts a D)]).
Proof.
  unfold create_document_signature. unfold_M.
  destruct (files w !! path) as [D|] eqn:Hfile; simpl; [|by intros [=]].
  case_decide as Hkey; [by intros [=]|].
  rewrite Hfile.
  destruct (str_encode now) as [ts|] eqn:Hts; [|by intros [=]].
  destruct (str_encode author) as [a|] eqn:Ha; [|by intros [=]].
  unfold struct_pack_H, struct_pack_Q.
  case_decide as Htslen; [|by intros [=]].
  case_decide as Halen; [|by intros [=]]. simpl.
  rewrite <-!app_assoc. fold (signature_data_of hash ts a D).
  destruct (enc key nonce [] (signature_data_of hash ts a D)) as [ct|] eqn:Hct; [|by intros [=]].
  case_decide as Hctlen; [|by intros [=]]. simpl. rewrite Hfile.
  intros [= <- <- <-]. exists D, ts, a, ct.
  repeat split; try done.
Qed.
End Sign.

#[local] Transparent le_bytes MAGIC slice rfind N.pow len.


(** ** The small instance meets the contracts *)

Lemma toy_absorb_length data : ∀ acc, length (Toy.absorb acc data) = length acc.
Proof.
  unfold Toy.absorb. induction data as [|b data IH]; intros acc; simpl; [done|].
  rewrite IH. destruct acc; simpl; [done|]. rewrite length_app. simpl. lia.
Qed.

Lemma toy_pad_length key nonce :
  len key = 16 → len nonce = 16 → length (xor_bytes key nonce) = 16%nat.
Proof. unfold len. intros. rewrite xor_bytes_length. lia. Qed.

Lemma toy_keystream_length key nonce n :
  len key = 16 → len nonce = 16 → length (Toy.keystream key nonce n) = n.
Proof.
  intros Hk Hn. unfold Toy.keystream.
  rewrite length_take, length_join, fmap_replicate, sum_list_replicate.
  rewrite toy_pad_length by done. lia.
Qed.

Lemma toy_tag_length key nonce ad p :
  len key = 16 → len nonce = 16 → length (Toy.tag key nonce ad p) = 16%nat.
Proof. intros. unfold Toy.tag. rewrite !toy_absorb_length. by apply toy_pad_length. Qed.

Lemma toy_appends_tag : encrypt_appends_tag Toy.encrypt.
Proof.
  intros key nonce ad p Hk Hn. unfold Toy.encrypt. rewrite decide_True by done.
  eexists. split; [done|]. rewrite len_app. unfold len.
  rewrite xor_bytes_length, toy_keystream_length, toy_tag_length by done. lia.
Qed.

Lemma toy_decrypt_inverts : decrypt_inverts Toy.encrypt Toy.decrypt.
Proof.
  intros key nonce ad p c Hk Hn. unfold Toy.encrypt. rewrite decide_True by done.
  intros [= <-]. unfold Toy.decrypt.
  set (body := xor_bytes p (Toy.keystream key nonce (length p))).
  set (t := Toy.tag key nonce ad p).
  assert (length body = length p) as Hbody.
  { unfold body. rewrite xor_bytes_length, toy_keystream_length by done. lia. }
  assert (length t = 16%nat) as Ht by (by apply toy_tag_length).
  assert (len (body ++ t) - 16 = len body) as Hlen. { rewrite len_app; unfold len; lia. }
  rewrite decide_True by (rewrite len_app; unfold len in *; lia).
  rewrite Hlen.
  rewrite (slice_split (body ++ t) [] body t 0 (len body)) by done.
  rewrite (slice_split (body ++ t) body t [] (len body) (len (body ++ t)))
    by (rewrite ?app_nil_r, ?len_app; unfold len; first [done|lia]).
  rewrite Hbody. clear Hbody Hlen. subst body.
  rewrite (xor_bytes_cancel p) by (rewrite toy_keystream_length by done; lia).
  by rewrite decide_True.
Qed.

Lemma byte_xor_zero b : byte_xor Byte.x00 b = b.
Proof. apply byte_val_inj. rewrite byte_xor_val. done. Qed.

Lemma xor_zero_bytes x : xor_bytes (zero_bytes (length x)) x = x.
Proof.
  unfold xor_bytes, zero_bytes. induction x as [|b x IH]; simpl; [done|].
  by rewrite byte_xor_zero, IH.
Qed.

Lemma toy_first_block : first_block_is_stream Toy.encrypt.
Proof.
  intros key nonce x c z Hk Hn Hx. unfold Toy.encrypt. rewrite !decide_True by done.
  intros [= <-] [= <-].
  assert (length x = 16%nat) as Hx' by (unfold len in Hx; lia).
  rewrite Hx'. change (length (zero_bytes 16)) with 16%nat.
  set (ks := Toy.keystream key nonce 16).
  assert (length ks = 16%nat) as Hks by (by apply toy_keystream_length).
  rewrite (slice_split _ [] (xor_bytes x ks) (Toy.tag key nonce [] x))
    by (rewrite ?xor_bytes_length; unfold len; rewrite ?xor_bytes_length; first [done|lia]).
  rewrite (slice_split _ [] (xor_bytes (zero_bytes 16) ks) (Toy.tag key nonce [] (zero_bytes 16))).
  - rewrite <-Hks at 1. by rewrite xor_zero_bytes.
  - done.
  - done.
  - unfold len. rewrite xor_bytes_length. unfold zero_bytes. rewrite length_replicate. lia.
Qed.

Lemma toy_digest_size : digest_size Toy.hash.
Proof. intros m. unfold Toy.hash, len. by rewrite toy_absorb_length. Qed.

(** ** The chained modes *)

(** C9.  For the empty ciphertext and any 16-byte key and IV, [cbc_decrypt]
    and [ofb_decrypt] pass the length checks, run no loop iteration and
    raise [IndexError] (from [padded_data[-1]] in [unpad_data]), which is
    not the [ValueError] "Invalid padding". *)
Theorem decrypt_empty_ciphertext
    (enc : bytes → bytes → bytes → bytes → result bytes) (key iv : bytes) :
  len key = 16 → len iv = 16 →
  len (@nil byte) `mod` 16 = 0
  ∧ range_count (len (@nil byte)) block_size = 0%nat
  ∧ cbc_decrypt enc key iv [] = Raise IndexError
  ∧ ofb_decrypt enc key iv [] = Raise IndexError
  ∧ Raise IndexError ≠ @Raise bytes (ValueError "Invalid padding").
Proof.
  intros Hkey Hiv. unfold cbc_decrypt, ofb_decrypt.
  rewrite !decide_False by (intros H; by apply H).
  repeat split; try done.
Qed.

Lemma decrypt_empty_ciphertext_witness :
  len (@nil byte) `mod` 16 = 0
  ∧ range_count (len (@nil byte)) block_size = 0%nat
  ∧ cbc_decrypt Toy.encrypt (zero_bytes 16) (zero_bytes 16) [] = Raise IndexError
  ∧ ofb_decrypt Toy.encrypt (zero_bytes 16) (zero_bytes 16) [] = Raise IndexError
  ∧ Raise IndexError ≠ @Raise bytes (ValueError "Invalid padding").
Proof.
  apply (decrypt_empty_ciphertext Toy.encrypt (zero_bytes 16) (zero_bytes 16));
    reflexivity.
Defined.

(** ** Signing and verifying *)

Section SignClaims.

Variable hash : bytes → bytes.
Variable enc : bytes → bytes → bytes → bytes → result bytes.
Variable dec : bytes → bytes → bytes → bytes → result (option bytes).
Hypothesis Hdec : decrypt_inverts enc dec.
Hypothesis Hhash : digest_size hash.

(** What [verify_document_signature] returns on [D' ++ sig] when [sig] was
    appended by signing a file that held [D]. *)
Lemma verify_after_create w w' path key now nonce author sig n w1 D D' :
  len nonce = 16 →
  files w !! path = Some D →
  create_document_signature hash enc now nonce path key author w = (Ok (sig, n), w1) →
  rfind sig MAGIC = 0%Z →
  files w' !! path = Some (D' ++ sig) →
  verify_document_signature hash dec path key w'
  = (if decide (hash D' ≠ hash D) then Raise (SignatureError ContentModified)
     else Ok (true, author, now), w').
Proof.
  intros Hnonce Hfile Hcreate Hrfind Hfile'.
  apply create_inv in Hcreate
    as (D0 & ts & a & ct & HD0 & Hkey & Hts & Ha & Htslen & Halen & Hct & Hctlen & -> & _ & _).
  assert (D0 = D) as -> by congruence.
  eapply verify_framed; eauto using bytes_decode_encode.
Qed.

End SignClaims.

(** C1 (amended).  For every document [D], 16-byte key and author string
    whose UTF-8 encoding exists and is shorter than 65536 bytes, signing
    succeeds and appends one block to the file; and when the magic tag
    occurs in that block only at its start, [verify_document_signature]
    with the same key returns [(True, author, now)], [now] being the
    timestamp recorded at signing. *)
Theorem sign_then_verify
    (hash : bytes → bytes) (enc : bytes → bytes → bytes → bytes → result bytes)
    (dec : bytes → bytes → bytes → bytes → result (option bytes))
    (w : world) (path : string) (D key nonce : bytes) (now author : pystr)
    (timestamp author_id_bytes : bytes) :
  encrypt_appends_tag enc → decrypt_inverts enc dec → digest_size hash →
  files w !! path = Some D → len key = 16 → len nonce = 16 →
  str_encode now = Ok timestamp → len timestamp < 2 ^ 16 →
  str_encode author = Ok author_id_bytes → len author_id_bytes < 2 ^ 16 →
  ∃ sig w1,
    create_document_signature hash enc now nonce path key author w = (Ok (sig, len sig), w1)
    ∧ files w1 !! path = Some (D ++ sig)
    ∧ (rfind sig MAGIC = 0%Z →
       verify_document_signature hash dec path key w1 = (Ok (true, author, now), w1)).
Proof.
  intros Htag Hdec Hhash Hfile Hkey Hnonce Hts Htslen Ha Halen.
  destruct (Htag key nonce [] (signature_data_of hash timestamp author_id_bytes D) Hkey Hnonce)
    as (ct & Hct & Hctlen).
  assert (len ct < 2 ^ 64) as Hct64.
  { rewrite Hctlen. unfold signature_data_of.
    rewrite !len_app, !len_le_bytes, (Hhash D).
    change (2 ^ 16) with 65536 in *. change (2 ^ 64) with 18446744073709551616. lia. }
  pose proof (create_runs hash enc w path D key now nonce author timestamp author_id_bytes ct
                Hfile Hkey Hts Ha Htslen Halen Hct Hct64) as Hcreate.
  eexists _, _. split; [exact Hcreate|]. split.
  { simpl. by rewrite lookup_insert_eq. }
  intros Hrfind.
  rewrite (verify_after_create hash enc dec Hdec Hhash w _ path key now nonce author _ _ _ D D
             Hnonce Hfile Hcreate Hrfind).
  - by rewrite decide_False by (intros H; by apply H).
  - simpl. by rewrite lookup_insert_eq.
Qed.

Lemma sign_then_verify_witness :
  ∃ sig w1,
    create_document_signature Toy.hash Toy.encrypt Example.now Example.nonce
      Example.path Example.key Example.alice Example.disk = (Ok (sig, len sig), w1)
    ∧ rfind sig MAGIC = 0%Z
    ∧ verify_document_signature Toy.hash Toy.decrypt Example.path Example.key w1
      = (Ok (true, Example.alice, Example.now), w1).
Proof.
  destruct (sign_then_verify Toy.hash Toy.encrypt Toy.decrypt Example.disk Example.path
              Example.document Example.key Example.nonce Example.now Example.alice
              (bytes_of_string "2024-11-03T17:14:00") (bytes_of_string "alice")
              toy_appends_tag toy_decrypt_inverts toy_digest_size
              eq_refl eq_refl eq_refl eq_refl eq_refl eq_refl eq_refl)
    as (sig & w1 & Hcreate & _ & Hverify).
  exists sig, w1.
  assert (rfind sig MAGIC = 0%Z) as Hrfind.
  { vm_compute in Hcreate. injection Hcreate as <- _. vm_compute. reflexivity. }
  split; [exact Hcreate|]. split; [exact Hrfind|]. exact (Hverify Hrfind).
Defined.

(** C1 fails as stated: with a nonce that starts with the bytes of the magic
    tag, signing succeeds and verification with the same key raises
    "Signature decryption failed"; an author id whose encoding has 65536
    bytes, or one that is a lone surrogate, makes signing itself fail. *)
Lemma sign_then_verify_counterexample :
  (∃ r, fst (create_document_signature Toy.hash Toy.encrypt Example.now Example.magic_nonce
               Example.path Example.key Example.alice Example.disk) = Ok r)
  ∧ rfind (default [] (files (snd (create_document_signature Toy.hash Toy.encrypt
                                     Example.now Example.magic_nonce Example.path
                                     Example.key Example.alice Example.disk))
                       !! Example.path)) MAGIC
    = Z.of_N (len Example.document + len MAGIC + 8)
  ∧ fst (verify_document_signature Toy.hash Toy.decrypt Example.path Example.key
           (snd (create_document_signature Toy.hash Toy.encrypt Example.now
                   Example.magic_nonce Example.path Example.key Example.alice Example.disk)))
    = Raise (SignatureError DecryptionFailed)
  ∧ fst (create_document_signature Toy.hash Toy.encrypt Example.now Example.nonce
           Example.path Example.key (replicate (N.to_nat 65536) 97) Example.disk)
    = Raise (SignatureError (FailedToCreate StructError))
  ∧ fst (create_document_signature Toy.hash Toy.encrypt Example.now Example.nonce
           Example.path Example.key [0xD800] Example.disk)
    = Raise (SignatureError (FailedToCreate UnicodeEncodeError)).
Proof.
  split; [eexists; vm_compute; reflexivity|].
  repeat split; vm_compute; reflexivity.
Qed.

(** C2 (amended).  Let a file holding [D] be signed, and let the magic tag
    occur in the appended block only at its start.  If one byte of the
    document region is then changed and the digest of the changed document
    differs from the digest of [D], [verify_document_signature] with the
    signing key raises "Document content has been modified". *)
Theorem tampering_detected
    (hash : bytes → bytes) (enc : bytes → bytes → bytes → bytes → result bytes)
    (dec : bytes → bytes → bytes → bytes → result (option bytes))
    (w w1 : world) (path : string) (D key nonce sig : bytes) (n : N)
    (now author : pystr) (i : nat) (b : byte) :
  decrypt_inverts enc dec → digest_size hash → len nonce = 16 →
  files w !! path = Some D →
  create_document_signature hash enc now nonce path key author w = (Ok (sig, n), w1) →
  rfind sig MAGIC = 0%Z →
  (i < length D)%nat → D !! i ≠ Some b →
  hash (<[i := b]> D) ≠ hash D →
  let tampered := World (<[path := <[i := b]> (D ++ sig)]> (files w1)) (aead_calls w1) in
  files w1 !! path = Some (D ++ sig)
  ∧ verify_document_signature hash dec path key tampered
    = (Raise (SignatureError ContentModified), tampered).
Proof.
  intros Hdec Hhash Hnonce Hfile Hcreate Hrfind Hi Hb Hneq tampered.
  split.
  { apply create_inv in Hcreate as (D0 & ? & ? & ? & HD0 & _ & _ & _ & _ & _ & _ & _ & _ & _ & ->).
    assert (D0 = D) as -> by congruence. simpl. by rewrite lookup_insert_eq. }
  rewrite (verify_after_create hash enc dec Hdec Hhash w tampered path key now nonce author
             sig n w1 D (<[i := b]> D) Hnonce Hfile Hcreate Hrfind).
  - by rewrite decide_True.
  - unfold tampered. simpl. rewrite lookup_insert_eq. by rewrite insert_app_l.
Qed.

Lemma tampering_detected_witness :
  let signed := create_document_signature Toy.hash Toy.encrypt Example.now Example.nonce
                  Example.path Example.key Example.alice Example.disk in
  let content := default [] (files (snd signed) !! Example.path) in
  let tampered := Example.with_file (snd signed) (<[0%nat := "j"%byte]> content) in
  verify_document_signature Toy.hash Toy.decrypt Example.path Example.key tampered
  = (Raise (SignatureError ContentModified), tampered).
Proof.
  refine (proj2 (tampering_detected Toy.hash Toy.encrypt Toy.decrypt Example.disk _
            Example.path Example.document Example.key Example.nonce _ _
            Example.now Example.alice 0 "j"%byte
            toy_decrypt_inverts toy_digest_size eq_refl eq_refl eq_refl _ _ _ _)).
  - vm_compute. reflexivity.
  - vm_compute. lia.
  - vm_compute. discriminate.
  - vm_compute. discriminate.
Defined.

(** C2 fails as stated: after signing with a nonce that starts with the
    bytes of the magic tag, changing the first byte of the document makes
    verification raise "Signature decryption failed", not "Document content
    has been modified", although the digests differ. *)
Lemma tampering_detected_counterexample :
  let signed := create_document_signature Toy.hash Toy.encrypt Example.now Example.magic_nonce
                  Example.path Example.key Example.alice Example.disk in
  let content := default [] (files (snd signed) !! Example.path) in
  (∃ sig, fst signed = Ok sig ∧ content = Example.document ++ sig.1)
  ∧ Toy.hash (<[0%nat := "j"%byte]> Example.document) ≠ Toy.hash Example.document
  ∧ fst (verify_document_signature Toy.hash Toy.decrypt Example.path Example.key
           (Example.with_file (snd signed) (<[0%nat := "j"%byte]> content)))
    = Raise (SignatureError DecryptionFailed).
Proof.
  split; [eexists; split; vm_compute; reflexivity|].
  split; [vm_compute; discriminate|].
  vm_compute. reflexivity.
Qed.

(** C3 (amended).  Let a file be signed twice with the same key, by two
    different author ids, and let the magic tag occur in the second
    appended block only at its start.  Then the rightmost occurrence of the
    magic tag in the file is the start of the second block, and
    [verify_document_signature] returns the second author id, not the
    first. *)
Theorem second_signature_wins
    (hash : bytes → bytes) (enc : bytes → bytes → bytes → bytes → result bytes)
    (dec : bytes → bytes → bytes → bytes → result (option bytes))
    (w w1 w2 : world) (path : string) (key nonce1 nonce2 sig1 sig2 : bytes) (n1 n2 : N)
    (now1 now2 author1 author2 : pystr) :
  decrypt_inverts enc dec → digest_size hash → len nonce2 = 16 →
  create_document_signature hash enc now1 nonce1 path key author1 w = (Ok (sig1, n1), w1) →
  create_document_signature hash enc now2 nonce2 path key author2 w1 = (Ok (sig2, n2), w2) →
  author1 ≠ author2 →
  rfind sig2 MAGIC = 0%Z →
  ∃ D, files w !! path = Some D
    ∧ files w2 !! path = Some ((D ++ sig1) ++ sig2)
    ∧ rfind ((D ++ sig1) ++ sig2) MAGIC = Z.of_N (len (D ++ sig1))
    ∧ verify_document_signature hash dec path key w2 = (Ok (true, author2, now2), w2)
    ∧ ∀ t, verify_document_signature hash dec path key w2 ≠ (Ok (true, author1, t), w2).
Proof.
  intros Hdec Hhash Hnonce Hcreate1 Hcreate2 Hauthors Hrfind.
  pose proof Hcreate1 as Hinv1. pose proof Hcreate2 as Hinv2.
  apply create_inv in Hinv1
    as (D & ? & ? & ? & HD & _ & _ & _ & _ & _ & _ & _ & _ & _ & Hw1).
  apply create_inv in Hinv2
    as (D1 & ? & ? & ? & HD1 & _ & _ & _ & _ & _ & _ & _ & _ & _ & Hw2).
  assert (D1 = D ++ sig1) as ->.
  { rewrite Hw1 in HD1. simpl in HD1. rewrite lookup_insert_eq in HD1. congruence. }
  assert (files w2 !! path = Some ((D ++ sig1) ++ sig2)) as Hfile2.
  { rewrite Hw2. simpl. by rewrite lookup_insert_eq. }
  assert (verify_document_signature hash dec path key w2 = (Ok (true, author2, now2), w2))
    as Hverify.
  { rewrite (verify_after_create hash enc dec Hdec Hhash w1 w2 path key now2 nonce2 author2
               sig2 n2 w2 (D ++ sig1) (D ++ sig1) Hnonce HD1 Hcreate2 Hrfind Hfile2).
    by rewrite decide_False by (intros H; by apply H). }
  exists D. split; [done|]. split; [done|]. split.
  { rewrite (rfind_app _ _ _ 0) by done. f_equal. lia. }
  split; [done|]. intros t. rewrite Hverify. intros [= E]. by apply Hauthors.
Qed.

Lemma second_signature_wins_witness :
  let first := create_document_signature Toy.hash Toy.encrypt Example.now Example.nonce
                 Example.path Example.key Example.alice Example.disk in
  let second := create_document_signature Toy.hash Toy.encrypt Example.later Example.nonce
                  Example.path Example.key Example.bob (snd first) in
  ∃ sig1 sig2 D,
    files Example.disk !! Example.path = Some D
    ∧ files (snd second) !! Example.path = Some ((D ++ sig1) ++ sig2)
    ∧ rfind ((D ++ sig1) ++ sig2) MAGIC = Z.of_N (len (D ++ sig1))
    ∧ verify_document_signature Toy.hash Toy.decrypt Example.path Example.key (snd second)
      = (Ok (true, Example.bob, Example.later), snd second)
    ∧ ∀ t, verify_document_signature Toy.hash Toy.decrypt Example.path Example.key
             (snd second) ≠ (Ok (true, Example.alice, t), snd second).
Proof.
  intros first second. eexists _, _.
  eapply (second_signature_wins Toy.hash Toy.encrypt Toy.decrypt
            Example.disk (snd first) (snd second) Example.path Example.key
            Example.nonce Example.nonce _ _ _ _
            Example.now Example.later Example.alice Example.bob
            toy_decrypt_inverts toy_digest_size eq_refl);
    vm_compute; first [reflexivity | discriminate].
Defined.

(** C3 fails as stated: when the nonce of the second signature starts with
    the bytes of the magic tag, both signings succeed and verification
    raises "Signature decryption failed" instead of returning the second
    author id. *)
Lemma second_signature_wins_counterexample :
  let first := create_document_signature Toy.hash Toy.encrypt Example.now Example.nonce
                 Example.path Example.key Example.alice Example.disk in
  let second := create_document_signature Toy.hash Toy.encrypt Example.later
                  Example.magic_nonce Example.path Example.key Example.bob (snd first) in
  (∃ r1 r2, fst first = Ok r1 ∧ fst second = Ok r2)
  ∧ fst (verify_document_signature Toy.hash Toy.decrypt Example.path Example.key (snd second))
    = Raise (SignatureError DecryptionFailed).
Proof.
  split; [eexists _, _; split; vm_compute; reflexivity|].
  vm_compute. reflexivity.
Qed.

#[local] Opaque le_bytes MAGIC GiftChanges.MAGIC slice rfind N.pow len.

Lemma struct_unpack_Q_value b n : struct_unpack_Q b = Ok n → n = le_value b.
Proof. unfold struct_unpack_Q. case_decide; by intros [= <-]. Qed.

(** C10 (amended).  Let the rightmost occurrence of the magic tag in a file
    start a block (magic, length, nonce, ciphertext) that lies within the
    file.  Appending a suffix after which the rightmost occurrence of the
    magic tag is still the same one (the tag neither occurs in the suffix
    nor straddles the old end of the file) does not change what
    [verify_document_signature] returns or raises. *)
Theorem appended_suffix_ignored
    (hash : bytes → bytes) (dec : bytes → bytes → bytes → bytes → result (option bytes))
    (w : world) (path : string) (key content suffix : bytes) (sig_start : N) :
  files w !! path = Some content →
  rfind content MAGIC = Z.of_N sig_start →
  sig_start + len MAGIC + 8 + 16
    + le_value (slice content (sig_start + len MAGIC) (sig_start + len MAGIC + 8))
    ≤ len content →
  rfind (content ++ suffix) MAGIC = Z.of_N sig_start →
  fst (verify_document_signature hash dec path key
         (World (<[path := content ++ suffix]> (files w)) (aead_calls w)))
  = fst (verify_document_signature hash dec path key w).
Proof.
  intros Hfile Hrfind Hcomplete Hrfind'.
  unfold verify_document_signature. unfold_M. simpl.
  rewrite lookup_insert_eq, Hfile. simpl.
  rewrite Hrfind, Hrfind'.
  pose proof len_MAGIC as HM.
  rewrite !decide_False by (unfold MIN_SIG_SIZE; rewrite ?len_app; lia).
  rewrite N2Z.id.
  rewrite (slice_app_l content suffix (sig_start + len MAGIC)) by lia.
  destruct (struct_unpack_Q _) as [sig_len|e] eqn:Hlen; [|done].
  apply struct_unpack_Q_value in Hlen. rewrite <-Hlen in Hcomplete.
  rewrite !(slice_app_l content suffix) by lia.
  destruct (dec _ _ _ _) as [[signature_block|]|e]; [|done|done].
  repeat (first [done | destruct (struct_unpack_H _) | destruct (bytes_decode _)
                 | destruct (decide _)]).
Qed.

(** The same holds for [verify_gift_document_signature], whose block also
    holds the 16-byte tag after the ciphertext. *)
Lemma gift_appended_suffix_ignored
    (string_to_list : pystr → result (list Z))
    (list_to_string : list (list Z) → result pystr)
    (gift_verify : list (list Z) → list Z → list (list Z) → list Z → list Z
                   → result (option (list (list Z))))
    (w : world) (path : string) (author_key_hex : pystr) (content suffix : bytes)
    (sig_start : N) :
  files w !! path = Some content →
  rfind content GiftChanges.MAGIC = Z.of_N sig_start →
  sig_start + len GiftChanges.MAGIC + 8 + 16
    + le_value (slice content (sig_start + len GiftChanges.MAGIC)
                  (sig_start + len GiftChanges.MAGIC + 8)) + 16
    ≤ len content →
  rfind (content ++ suffix) GiftChanges.MAGIC = Z.of_N sig_start →
  fst (GiftChanges.verify_gift_document_signature string_to_list list_to_string gift_verify
         path author_key_hex
         (World (<[path := content ++ suffix]> (files w)) (aead_calls w)))
  = fst (GiftChanges.verify_gift_document_signature string_to_list list_to_string
           gift_verify path author_key_hex w).
Proof.
  intros Hfile Hrfind Hcomplete Hrfind'.
  unfold GiftChanges.verify_gift_document_signature. unfold_M. simpl.
  rewrite lookup_insert_eq, Hfile. simpl.
  rewrite Hrfind, Hrfind'.
  assert (len GiftChanges.MAGIC = 8) as HM by (by vm_compute).
  rewrite !decide_False by (unfold GiftChanges.MIN_SIG_SIZE; rewrite ?len_app; lia).
  rewrite N2Z.id.
  rewrite (slice_app_l content suffix (sig_start + len GiftChanges.MAGIC)) by lia.
  destruct (struct_unpack_Q _) as [sig_len|e] eqn:Hlen; [|done].
  apply struct_unpack_Q_value in Hlen. rewrite <-Hlen in Hcomplete.
  rewrite !(slice_app_l content suffix) by lia.
  repeat (first [done | destruct (string_to_list _) | destruct (GiftChanges.hex_blocks _ _)
                 | destruct (gift_verify _ _ _ _ _) as [[?|]|]
                 | destruct (list_to_string _) | destruct (bytes_fromhex _)
                 | destruct (struct_unpack_H _) | destruct (bytes_decode _)]; simpl).
Qed.

#[local] Transparent le_bytes MAGIC GiftChanges.MAGIC slice rfind N.pow len.

Lemma appended_suffix_ignored_witness :
  let signed := create_document_signature Toy.hash Toy.encrypt Example.now Example.nonce
                  Example.path Example.key Example.alice Example.disk in
  let content := default [] (files (snd signed) !! Example.path) in
  fst (verify_document_signature Toy.hash Toy.decrypt Example.path Example.key
         (World (<[Example.path := content ++ bytes_of_string "_SIG trailing bytes"]>
                   (files (snd signed))) (aead_calls (snd signed))))
  = fst (verify_document_signature Toy.hash Toy.decrypt Example.path Example.key (snd signed)).
Proof.
  intros signed content.
  apply (appended_suffix_ignored Toy.hash Toy.decrypt (snd signed) Example.path Example.key
           content (bytes_of_string "_SIG trailing bytes") 5).
  - vm_compute. reflexivity.
  - vm_compute. reflexivity.
  - vm_compute. discriminate.
  - vm_compute. reflexivity.
Defined.

(** C10 fails as stated: a suffix that contains no occurrence of the magic
    tag can complete one that starts in the last bytes of the file.  The
    signed file below verifies and ends with the byte "A"; with the suffix
    "SCON_SIG" appended, the rightmost occurrence of the magic tag starts at
    that last byte and verification raises "Verification failed" (from
    [struct.unpack] on the empty slice after it). *)
Lemma appended_suffix_ignored_counterexample :
  let signed := create_document_signature Toy.hash Toy.encrypt Example.now Example.nonce
                  Example.path Example.straddle_key Example.alice Example.disk in
  let content := default [] (files (snd signed) !! Example.path) in
  let suffix := bytes_of_string "SCON_SIG" in
  rfind content MAGIC = 5%Z
  ∧ 5 + len MAGIC + 8 + 16 + le_value (slice content (5 + len MAGIC) (5 + len MAGIC + 8))
    ≤ len content
  ∧ slice content (len content - 1) (len content) = bytes_of_string "A"
  ∧ rfind suffix MAGIC = (-1)%Z
  ∧ rfind (content ++ suffix) MAGIC = Z.of_N (len content - 1)
  ∧ fst (verify_document_signature Toy.hash Toy.decrypt Example.path Example.straddle_key
           (snd signed))
    = Ok (true, Example.alice, Example.now)
  ∧ fst (verify_document_signature Toy.hash Toy.decrypt Example.path Example.straddle_key
           (Example.with_file (snd signed) (content ++ suffix)))
    = Raise (SignatureError (VerificationFailed StructError)).
Proof.
  repeat split; vm_compute; first [reflexivity | discriminate].
Qed.

(** ** What the AEAD primitive is handed *)



Section GiftCalls.

Variable string_to_list : pystr → result (list Z).
Variable list_to_string : list (list Z) → result pystr.
Variable gift_encrypt :
  list (list Z) → list Z → list (list Z) → list Z → result (list (list Z) * list Z).


End GiftCalls.

(** ** Length prefixes that run past the decrypted buffer *)

#[local] Opaque le_bytes MAGIC GiftChanges.MAGIC slice rfind N.pow len.

Lemma slice_empty {A} (b : list A) i j : len b ≤ i → slice b i j = [].
Proof.
  intros Hi. rewrite slice_take_drop, drop_ge; [by rewrite take_nil|].
  Transparent len. unfold len in Hi. Opaque len. lia.
Qed.

Lemma struct_unpack_H_empty : struct_unpack_H [] = Raise StructError.
Proof. reflexivity. Qed.

Section MalformedAscon.

Variable hash : bytes → bytes.
Variable dec : bytes → bytes → bytes → bytes → result (option bytes).
Variables (w : world) (path : string) (key content : bytes) (sig_start sig_len : N).
Variables (signature_block : bytes) (timestamp_len : N).

Hypothesis Hfile : files w !! path = Some content.
Hypothesis Hsize : MIN_SIG_SIZE ≤ len content.
Hypothesis Hrfind : rfind content MAGIC = Z.of_N sig_start.
Hypothesis Hlen :
  struct_unpack_Q (slice content (sig_start + len MAGIC) (sig_start + len MAGIC + 8))
  = Ok sig_len.
Hypothesis Hdec :
  dec key (slice content (sig_start + len MAGIC + 8) (sig_start + len MAGIC + 8 + 16)) []
    (slice content (sig_start + len MAGIC + 8 + 16) (sig_start + len MAGIC + 8 + 16 + sig_len))
  = Ok (Some signature_block).
Hypothesis Hts : struct_unpack_H (slice signature_block 0 (0 + 2)) = Ok timestamp_len.

Lemma ascon_parse :
  fst (verify_document_signature hash dec path key w)
  = fst (try_except (
      let pos := 0 + 2 in
      timestamp ← lift (bytes_decode (slice signature_block pos (pos + timestamp_len)));
      let pos := pos + timestamp_len in
      author_id_len ← lift (struct_unpack_H (slice signature_block pos (pos + 2)));
      let pos := pos + 2 in
      author_id ← lift (bytes_decode (slice signature_block pos (pos + author_id_len)));
      let pos := pos + author_id_len in
      let stored_hash := slice signature_block pos (pos + 32) in
      if decide (hash (slice content 0 sig_start) ≠ stored_hash) then
        raise (SignatureError ContentModified)
      else mret (true, author_id, timestamp)) verify_handlers w).
Proof.
  unfold verify_document_signature. unfold_M. simpl.
  rewrite Hfile. simpl. rewrite Hrfind.
  rewrite !decide_False by lia.
  rewrite N2Z.id, Hlen, Hdec, Hts. done.
Qed.

Lemma ascon_timestamp_overrun :
  len signature_block < 0 + 2 + timestamp_len →
  ∃ e, (e = UnicodeDecodeError ∨ e = StructError)
       ∧ fst (verify_document_signature hash dec path key w)
         = Raise (SignatureError (VerificationFailed e)).
Proof.
  intros Hover. rewrite ascon_parse. unfold_M. simpl.
  destruct (bytes_decode _) as [timestamp|e] eqn:Hdecode.
  - rewrite (slice_empty signature_block) by lia.
    rewrite struct_unpack_H_empty. simpl. eauto.
  - unfold bytes_decode in Hdecode. destruct (utf8_decode _); simplify_eq. simpl. eauto.
Qed.

Lemma ascon_author_overrun timestamp author_id_len author_id :
  bytes_decode (slice signature_block (0 + 2) (0 + 2 + timestamp_len)) = Ok timestamp →
  struct_unpack_H (slice signature_block (0 + 2 + timestamp_len) (0 + 2 + timestamp_len + 2))
  = Ok author_id_len →
  len signature_block < 0 + 2 + timestamp_len + 2 + author_id_len →
  bytes_decode (slice signature_block (0 + 2 + timestamp_len + 2)
                  (0 + 2 + timestamp_len + 2 + author_id_len)) = Ok author_id →
  digest_size hash →
  fst (verify_document_signature hash dec path key w)
  = Raise (SignatureError ContentModified).
Proof.
  intros Htimestamp Halen Hover Hauthor Hhash. rewrite ascon_parse. unfold_M. simpl.
  rewrite Htimestamp, Halen, Hauthor. rewrite (slice_empty signature_block) by lia.
  rewrite decide_True; [done|].
  intros Hnil. pose proof (Hhash (slice content 0 sig_start)) as H32.
  rewrite Hnil in H32. done.
Qed.

End MalformedAscon.

Section MalformedGift.

Variable string_to_list : pystr → result (list Z).
Variable list_to_string : list (list Z) → result pystr.
Variable gift_verify :
  list (list Z) → list Z → list (list Z) → list Z → list Z
  → result (option (list (list Z))).
Variables (w : world) (path : string) (author_key_hex : pystr) (content : bytes).
Variables (sig_start sig_len : N).
Variables (key_list nonce_list tag_list : list Z).
Variables (doc_blocks encrypted_blocks decrypted_blocks : list (list Z)).
Variables (decrypted_hex : pystr) (decrypted_data : bytes).

Hypothesis Hfile : files w !! path = Some content.
Hypothesis Hsize : GiftChanges.MIN_SIG_SIZE ≤ len content.
Hypothesis Hrfind : rfind content GiftChanges.MAGIC = Z.of_N sig_start.
Hypothesis Hlen :
  struct_unpack_Q (slice content (sig_start + len GiftChanges.MAGIC)
                     (sig_start + len GiftChanges.MAGIC + 8)) = Ok sig_len.
Hypothesis Hkey : string_to_list author_key_hex = Ok key_list.
Hypothesis Hnonce :
  string_to_list (bytes_hex (slice content (sig_start + len GiftChanges.MAGIC + 8)
                               (sig_start + len GiftChanges.MAGIC + 8 + 16)))
  = Ok nonce_list.
Hypothesis Hdoc :
  GiftChanges.hex_blocks string_to_list (bytes_hex (slice content 0 sig_start))
  = Ok doc_blocks.
Hypothesis Henc :
  GiftChanges.hex_blocks string_to_list
    (bytes_hex (slice content (sig_start + len GiftChanges.MAGIC + 8 + 16)
                  (sig_start + len GiftChanges.MAGIC + 8 + 16 + sig_len)))
  = Ok encrypted_blocks.
Hypothesis Htag :
  string_to_list
    (bytes_hex (slice content (sig_start + len GiftChanges.MAGIC + 8 + 16 + sig_len)
                  (sig_start + len GiftChanges.MAGIC + 8 + 16 + sig_len + 16)))
  = Ok tag_list.
Hypothesis Hverify :
  gift_verify encrypted_blocks key_list doc_blocks nonce_list tag_list
  = Ok (Some decrypted_blocks).
Hypothesis Hhex : list_to_string decrypted_blocks = Ok decrypted_hex.
Hypothesis Hdata : bytes_fromhex decrypted_hex = Ok decrypted_data.

Lemma gift_fields_truncated timestamp_len timestamp author_id_len author_id :
  struct_unpack_H (slice decrypted_data 0 (0 + 2)) = Ok timestamp_len →
  bytes_decode (slice decrypted_data (0 + 2) (0 + 2 + timestamp_len)) = Ok timestamp →
  struct_unpack_H (slice decrypted_data (0 + 2 + timestamp_len) (0 + 2 + timestamp_len + 2))
  = Ok author_id_len →
  bytes_decode (slice decrypted_data (0 + 2 + timestamp_len + 2)
                  (0 + 2 + timestamp_len + 2 + author_id_len)) = Ok author_id →
  fst (GiftChanges.verify_gift_document_signature string_to_list list_to_string
         gift_verify path author_key_hex w)
  = Ok (true, author_id, timestamp).
Proof.
  intros Hts Htimestamp Halen Hauthor.
  unfold GiftChanges.verify_gift_document_signature. unfold_M. simpl.
  rewrite Hfile. simpl. rewrite Hrfind.
  rewrite !decide_False by lia.
  rewrite N2Z.id, Hlen, Hkey, Hnonce, Hdoc, Henc, Htag, Hverify, Hhex, Hdata.
  by rewrite Hts, Htimestamp, Halen, Hauthor.
Qed.

End MalformedGift.

#[local] Transparent le_bytes MAGIC GiftChanges.MAGIC slice rfind N.pow len.

Example short_timestamp_run :
  fst (verify_document_signature Toy.hash Toy.decrypt Example.path Example.key
         (Example.ascon_file Example.short_timestamp))
  = Raise (SignatureError (VerificationFailed StructError)).
Proof. vm_compute. reflexivity. Qed.

Example short_author_run :
  fst (verify_document_signature Toy.hash Toy.decrypt Example.path Example.key
         (Example.ascon_file Example.short_author))
  = Raise (SignatureError ContentModified).
Proof. vm_compute. reflexivity. Qed.

Example short_author_gift_run :
  fst (GiftChanges.verify_gift_document_signature Toy.string_to_list Toy.list_to_string
         Toy.gift_verify Example.path Example.key_hex
         (Example.gift_file Example.short_author))
  = Ok (true, Toy.str "a", Toy.str "t").
Proof. vm_compute. reflexivity. Qed.

(** C7 (amended).  Neither verify function checks the 2-byte length
    prefixes against the decrypted buffer, and neither has an error of its
    own for them.  In [verify_document_signature], a timestamp length that
    runs past the end of the buffer ends in the generic "Verification
    failed" error (from [struct.unpack] on the empty slice that follows, or
    from decoding the truncated field); an author-id length that runs past
    the end truncates the author id and leaves an empty stored digest, so
    that, when the fields decode, the call raises "Document content has been
    modified".  In [verify_gift_document_signature] the same author-id
    length truncates the author id and the call returns it. *)
Theorem length_prefix_overrun :
  (∀ hash dec w path key content sig_start sig_len signature_block timestamp_len,
     files w !! path = Some content →
     AsconChanges.MIN_SIG_SIZE ≤ len content →
     rfind content MAGIC = Z.of_N sig_start →
     struct_unpack_Q (slice content (sig_start + len MAGIC) (sig_start + len MAGIC + 8))
     = Ok sig_len →
     dec key (slice content (sig_start + len MAGIC + 8) (sig_start + len MAGIC + 8 + 16)) []
       (slice content (sig_start + len MAGIC + 8 + 16)
          (sig_start + len MAGIC + 8 + 16 + sig_len))
     = Ok (Some signature_block) →
     struct_unpack_H (slice signature_block 0 (0 + 2)) = Ok timestamp_len →
     (len signature_block < 0 + 2 + timestamp_len →
      ∃ e, (e = UnicodeDecodeError ∨ e = StructError)
           ∧ fst (verify_document_signature hash dec path key w)
             = Raise (SignatureError (VerificationFailed e)))
     ∧ (∀ timestamp author_id_len author_id,
          bytes_decode (slice signature_block (0 + 2) (0 + 2 + timestamp_len))
          = Ok timestamp →
          struct_unpack_H (slice signature_block (0 + 2 + timestamp_len)
                             (0 + 2 + timestamp_len + 2)) = Ok author_id_len →
          len signature_block < 0 + 2 + timestamp_len + 2 + author_id_len →
          bytes_decode (slice signature_block (0 + 2 + timestamp_len + 2)
                          (0 + 2 + timestamp_len + 2 + author_id_len)) = Ok author_id →
          digest_size hash →
          fst (verify_document_signature hash dec path key w)
          = Raise (SignatureError ContentModified)))
  ∧ (∀ string_to_list list_to_string gift_verify w path author_key_hex content
       sig_start sig_len key_list nonce_list tag_list doc_blocks encrypted_blocks
       decrypted_blocks decrypted_hex decrypted_data
       timestamp_len timestamp author_id_len author_id,
     files w !! path = Some content →
     GiftChanges.MIN_SIG_SIZE ≤ len content →
     rfind content GiftChanges.MAGIC = Z.of_N sig_start →
     struct_unpack_Q (slice content (sig_start + len GiftChanges.MAGIC)
                        (sig_start + len GiftChanges.MAGIC + 8)) = Ok sig_len →
     string_to_list author_key_hex = Ok key_list →
     string_to_list (bytes_hex (slice content (sig_start + len GiftChanges.MAGIC + 8)
                                  (sig_start + len GiftChanges.MAGIC + 8 + 16)))
     = Ok nonce_list →
     GiftChanges.hex_blocks string_to_list (bytes_hex (slice content 0 sig_start))
     = Ok doc_blocks →
     GiftChanges.hex_blocks string_to_list
       (bytes_hex (slice content (sig_start + len GiftChanges.MAGIC + 8 + 16)
                     (sig_start + len GiftChanges.MAGIC + 8 + 16 + sig_len)))
     = Ok encrypted_blocks →
     string_to_list
       (bytes_hex (slice content (sig_start + len GiftChanges.MAGIC + 8 + 16 + sig_len)
                     (sig_start + len GiftChanges.MAGIC + 8 + 16 + sig_len + 16)))
     = Ok tag_list →
     gift_verify encrypted_blocks key_list doc_blocks nonce_list tag_list
     = Ok (Some decrypted_blocks) →
     list_to_string decrypted_blocks = Ok decrypted_hex →
     bytes_fromhex decrypted_hex = Ok decrypted_data →
     struct_unpack_H (slice decrypted_data 0 (0 + 2)) = Ok timestamp_len →
     bytes_decode (slice decrypted_data (0 + 2) (0 + 2 + timestamp_len)) = Ok timestamp →
     struct_unpack_H (slice decrypted_data (0 + 2 + timestamp_len)
                        (0 + 2 + timestamp_len + 2)) = Ok author_id_len →
     len decrypted_data < 0 + 2 + timestamp_len + 2 + author_id_len →
     bytes_decode (slice decrypted_data (0 + 2 + timestamp_len + 2)
                     (0 + 2 + timestamp_len + 2 + author_id_len)) = Ok author_id →
     fst (GiftChanges.verify_gift_document_signature string_to_list list_to_string
            gift_verify path author_key_hex w)
     = Ok (true, author_id, timestamp)).
Proof.
  split.
  - intros. split.
    + by eapply ascon_timestamp_overrun.
    + intros. by eapply ascon_author_overrun.
  - intros. by eapply gift_fields_truncated.
Qed.

Lemma length_prefix_overrun_witness :
  (∃ e, (e = UnicodeDecodeError ∨ e = StructError)
        ∧ fst (verify_document_signature Toy.hash Toy.decrypt Example.path Example.key
                 (Example.ascon_file Example.short_timestamp))
          = Raise (SignatureError (VerificationFailed e)))
  ∧ fst (verify_document_signature Toy.hash Toy.decrypt Example.path Example.key
           (Example.ascon_file Example.short_author))
    = Raise (SignatureError ContentModified)
  ∧ fst (GiftChanges.verify_gift_document_signature Toy.string_to_list Toy.list_to_string
           Toy.gift_verify Example.path Example.key_hex
           (Example.gift_file Example.short_author))
    = Ok (true, Toy.str "a", Toy.str "t").
Proof.
  split; [|split].
  - refine (proj1 (proj1 length_prefix_overrun Toy.hash Toy.decrypt
              (Example.ascon_file Example.short_timestamp) Example.path Example.key
              _ 0 21 Example.short_timestamp 9 _ _ _ _ _ _) _);
      vm_compute; first [reflexivity | discriminate].
  - refine (proj2 (proj1 length_prefix_overrun Toy.hash Toy.decrypt
              (Example.ascon_file Example.short_author) Example.path Example.key
              _ 0 22 Example.short_author 1 _ _ _ _ _ _)
              (Toy.str "t") 5 (Toy.str "a") _ _ _ _ toy_digest_size);
      vm_compute; first [reflexivity | discriminate].
  - refine (proj2 length_prefix_overrun Toy.string_to_list Toy.list_to_string
              Toy.gift_verify (Example.gift_file Example.short_author) Example.path
              Example.key_hex _ 0 6 _ _ _ _ _ _ _ Example.short_author
              1 (Toy.str "t") 5 (Toy.str "a") _ _ _ _ _ _ _ _ _ _ _ _ _ _ _ _ _);
      vm_compute; first [reflexivity | discriminate].
Defined.

(** C7 fails as stated: an author-id length of 5 followed by a single byte
    does not make [verify_document_signature] fail with an error about the
    signature's layout, it raises "Document content has been modified"; and
    [verify_gift_document_signature] returns the one-byte author id. *)
Lemma length_prefix_overrun_counterexample :
  (len Example.short_author < 0 + 2 + 1 + 2 + 5)
  ∧ Toy.decrypt Example.key Example.nonce []
      (drop 33 (default [] (files (Example.ascon_file Example.short_author) !! Example.path)))
    = Ok (Some Example.short_author)
  ∧ fst (verify_document_signature Toy.hash Toy.decrypt Example.path Example.key
           (Example.ascon_file Example.short_author))
    = Raise (SignatureError ContentModified)
  ∧ fst (GiftChanges.verify_gift_document_signature Toy.string_to_list Toy.list_to_string
           Toy.gift_verify Example.path Example.key_hex
           (Example.gift_file Example.short_author))
    = Ok (true, Toy.str "a", Toy.str "t").
Proof. repeat split; vm_compute; reflexivity. Qed.



(** * Further properties *)

(** ** Padding, for every block size *)

Lemma last_replicate_snoc {A} (l : list A) n x :
  (0 < n)%nat → last (l ++ replicate n x) = Some x.
Proof.
  intros Hn. destruct n as [|k]; [lia|].
  change (S k) with (1 + k)%nat. rewrite (Nat.add_comm 1 k), replicate_add.
  change (replicate 1 x) with [x]. by rewrite app_assoc, last_snoc.
Qed.

Lemma unpad_data_inv p d :
  unpad_data p = Ok d →
  ∃ n, 1 ≤ n ≤ 16 ∧ p = d ++ replicate (N.to_nat n) (byte_of n).
Proof.
  unfold unpad_data. destruct (last p) as [b|] eqn:Hlast; [|done].
  set (n := byte_val b). case_decide as Hn; [done|]. case_decide as Hpad; [done|].
  intros [= <-]. exists n. split; [lia|].
  assert (n ≤ len p) as Hle.
  { destruct (decide (n ≤ len p)) as [|Hgt]; [done|].
    apply (f_equal length) in Hpad. rewrite length_replicate in Hpad.
    pose proof (slice_length_le p (len p - n) (len p)). unfold len in *. lia. }
  rewrite <-Hpad. rewrite slice_0, slice_take_drop.
  replace (N.to_nat (len p) - N.to_nat (len p - n))%nat with (N.to_nat n) by lia.
  rewrite (take_ge (drop _ _)) by (rewrite length_drop; unfold len in *; lia).
  by rewrite take_drop.
Qed.

(** X1.  [unpad_data] returns [d] exactly on the buffers that are [d]
    followed by [n] bytes of value [n] with [1 <= n <= 16]; it raises
    [IndexError] exactly on the empty buffer, and every other failure is
    [ValueError("Invalid padding")]. *)
Theorem unpad_data_accepts (p d : bytes) :
  (unpad_data p = Ok d
   ↔ ∃ n, 1 ≤ n ≤ 16 ∧ p = d ++ replicate (N.to_nat n) (byte_of n))
  ∧ (unpad_data p = Raise IndexError ↔ p = [])
  ∧ (∀ e, unpad_data p = Raise e → e = IndexError ∨ e = ValueError "Invalid padding").
Proof.
  split; [|split].
  - split; [apply unpad_data_inv|]. intros (n & Hn & ->). by apply unpad_data_padding.
  - split.
    + unfold unpad_data. destruct (last p) as [b|] eqn:Hlast.
      * repeat case_decide; done.
      * intros _. by apply last_None.
    + by intros ->.
  - intros e. unfold unpad_data. destruct (last p); repeat case_decide; intros [= <-]; auto.
Qed.

(** X2.  On a buffer whose length is a multiple of 16, [pad_data(_, 16)]
    undoes [unpad_data]: whatever [unpad_data] accepts is the padding of
    what it returns. *)
Theorem unpad_then_pad (p d : bytes) :
  len p `mod` 16 = 0 → unpad_data p = Ok d → pad_data d 16 = Ok p.
Proof.
  intros Hal Hun. destruct (unpad_data_inv p d Hun) as (n & Hn & ->).
  destruct (pad_data_16 d) as [_ ->].
  rewrite len_app, len_replicate in Hal.
  replace (16 - len d `mod` 16) with n; [done|]. lia.
Qed.

Lemma unpad_then_pad_witness :
  pad_data (bytes_of_string "abc") 16
  = Ok (bytes_of_string "abc" ++ replicate 13 (byte_of 13)).
Proof.
  apply (unpad_then_pad (bytes_of_string "abc" ++ replicate 13 (byte_of 13))
           (bytes_of_string "abc")); reflexivity.
Defined.

(** X3.  For every block size from 1 to 255, [pad_data] returns the data
    followed by at least one and at most [block_size] bytes, and the length
    of the result is a multiple of the block size. *)
Theorem pad_data_block_aligned (data : bytes) (block_size : N) :
  1 ≤ block_size ≤ 255 →
  ∃ padded, pad_data data block_size = Ok padded
    ∧ len padded `mod` block_size = 0
    ∧ len data < len padded ≤ len data + block_size
    ∧ take (length data) padded = data.
Proof.
  intros Hbs. unfold pad_data. rewrite decide_False by lia.
  assert (len data `mod` block_size < block_size) by (apply N.mod_lt; lia).
  rewrite decide_True by lia. eexists. split; [done|].
  rewrite len_app, len_replicate, take_app_length. split; [|split; [lia|done]].
  rewrite N2Nat.id.
  rewrite (N.div_mod (len data) block_size) at 1 by lia.
  replace (block_size * (len data / block_size) + len data `mod` block_size +
           (block_size - len data `mod` block_size))
    with ((1 + len data / block_size) * block_size) by lia.
  apply N.Div0.mod_mul.
Qed.

Lemma pad_data_block_aligned_witness :
  ∃ padded, pad_data (bytes_of_string "abcde") 4 = Ok padded
    ∧ len padded `mod` 4 = 0
    ∧ len (bytes_of_string "abcde") < len padded ≤ len (bytes_of_string "abcde") + 4
    ∧ take (length (bytes_of_string "abcde")) padded = bytes_of_string "abcde".
Proof. apply (pad_data_block_aligned (bytes_of_string "abcde") 4). lia. Defined.

Lemma unpad_data_long_padding data n :
  16 < n < 256 →
  unpad_data (data ++ replicate (N.to_nat n) (byte_of n)) = Raise (ValueError "Invalid padding").
Proof.
  intros Hn. unfold unpad_data. rewrite last_replicate_snoc by lia.
  rewrite byte_val_of by lia. by rewrite decide_True by lia.
Qed.

(** X4.  [unpad_data] accepts at most 16 padding bytes whatever block size
    was used: after [pad_data(data, block_size)] it returns [data] when the
    padding has at most 16 bytes, and raises [ValueError("Invalid padding")]
    when it has more (which needs a block size above 16). *)
Theorem pad_unpad_block_size (data : bytes) (block_size : N) :
  1 ≤ block_size ≤ 255 →
  (padded ← pad_data data block_size; unpad_data padded)
  = if decide (block_size - len data `mod` block_size ≤ 16) then Ok data
    else Raise (ValueError "Invalid padding").
Proof.
  intros Hbs. unfold pad_data. rewrite decide_False by lia.
  assert (len data `mod` block_size < block_size) by (apply N.mod_lt; lia).
  rewrite decide_True by lia. simpl.
  case_decide.
  - apply unpad_data_padding. lia.
  - apply unpad_data_long_padding. lia.
Qed.

Lemma pad_unpad_block_size_witness :
  (padded ← pad_data (bytes_of_string "abc") 8; unpad_data padded) = Ok (bytes_of_string "abc")
  ∧ (padded ← pad_data (bytes_of_string "abc") 32; unpad_data padded)
    = Raise (ValueError "Invalid padding").
Proof.
  split.
  - apply (pad_unpad_block_size (bytes_of_string "abc") 8). lia.
  - apply (pad_unpad_block_size (bytes_of_string "abc") 32). lia.
Defined.

(** ** The chained modes under the length contract alone *)

Lemma byte_xor_same_key a b k : byte_xor (byte_xor a k) (byte_xor b k) = byte_xor a b.
Proof.
  apply byte_val_inj. rewrite !byte_xor_val.
  rewrite (N.lxor_comm (byte_val b)), N.lxor_assoc, <-(N.lxor_assoc (byte_val k)).
  by rewrite N.lxor_nilpotent, N.lxor_0_l.
Qed.

Lemma xor_bytes_same_key x y k :
  length x = length y → (length x ≤ length k)%nat →
  xor_bytes (xor_bytes x k) (xor_bytes y k) = xor_bytes x y.
Proof.
  unfold xor_bytes. revert y k.
  induction x as [|a x IH]; intros [|b y] [|c k]; simpl; intros Hxy Hk; try done; try lia.
  rewrite byte_xor_same_key, IH; [done|lia|lia].
Qed.

Lemma xor_bytes_app x1 x2 k1 k2 :
  length x1 = length k1 →
  xor_bytes (x1 ++ x2) (k1 ++ k2) = xor_bytes x1 k1 ++ xor_bytes x2 k2.
Proof. intros H. unfold xor_bytes. by rewrite zip_with_app. Qed.

Section ModeLengths.
Variable enc : bytes → bytes → bytes → bytes → result bytes.
Hypothesis Htag : encrypt_appends_tag enc.
Variable key : bytes.
Hypothesis Hkey : len key = 16.

Lemma ofb_loop_stream count : ∀ prev, len prev = 16 →
  ∃ ks, length ks = (16 * count)%nat ∧
    ∀ rest, length rest = (16 * count)%nat →
      (∀ padded i acc, drop (N.to_nat i) padded = rest →
         ofb_encrypt_loop enc key padded count i acc prev = Ok (acc ++ xor_bytes rest ks)) ∧
      (∀ ciphertext i acc, drop (N.to_nat i) ciphertext = rest →
         ofb_decrypt_loop enc key ciphertext count i acc prev = Ok (acc ++ xor_bytes rest ks)).
Proof.
  induction count as [|count IH]; intros prev Hprev.
  - exists []. split; [done|]. intros rest Hrest.
    destruct rest; [|simpl in Hrest; lia].
    split; intros; simpl; by rewrite app_nil_r.
  - destruct (keystream_block enc Htag key Hkey prev Hprev) as (z & Hz & Hks).
    set (k1 := slice z 0 16) in *.
    destruct (IH k1) as (ks & Hlen & Hloops); [unfold len; lia|].
    exists (k1 ++ ks). split; [rewrite length_app; lia|].
    intros rest Hrest.
    assert (length (take 16 rest) = 16%nat) as Hb by (rewrite length_take; lia).
    destruct (Hloops (drop 16 rest)) as [Henc Hdec]; [rewrite length_drop; lia|].
    assert (xor_bytes rest (k1 ++ ks)
            = xor_bytes (take 16 rest) k1 ++ xor_bytes (drop 16 rest) ks) as ->.
    { rewrite <-(take_drop 16 rest) at 1. apply xor_bytes_app. lia. }
    split; intros buf i acc Hdrop; simpl; unfold block_size;
      change (zero_bytes (N.to_nat 16)) with (zero_bytes 16);
      rewrite Hz; simpl; fold k1; rewrite slice_block, Hdrop.
    + rewrite Henc; [by rewrite <-app_assoc|].
      replace (N.to_nat (i + 16)) with (N.to_nat i + 16)%nat by lia.
      by rewrite <-drop_drop, Hdrop.
    + rewrite Hdec; [by rewrite <-app_assoc|].
      replace (N.to_nat (i + 16)) with (N.to_nat i + 16)%nat by lia.
      by rewrite <-drop_drop, Hdrop.
Qed.

Lemma cbc_encrypt_loop_length count : ∀ rest prev,
  length rest = (16 * count)%nat → len prev = 16 →
  ∀ padded i acc, drop (N.to_nat i) padded = rest →
    ∃ tail_c, cbc_encrypt_loop enc key padded count i acc prev = Ok (acc ++ tail_c)
      ∧ length tail_c = (16 * count)%nat.
Proof.
  induction count as [|count IH]; intros rest prev Hrest Hprev padded i acc Hdrop.
  - exists []. simpl. by rewrite app_nil_r.
  - simpl. unfold block_size. rewrite slice_block, Hdrop.
    assert (length (take 16 rest) = 16%nat) as Hb by (rewrite length_take; lia).
    set (xored := xor_bytes (take 16 rest) prev).
    assert (length xored = 16%nat) as Hx
      by (unfold xored; rewrite xor_bytes_length; unfold len in *; lia).
    destruct (Htag key prev [] xored Hkey Hprev) as (c & -> & Hclen). simpl.
    assert (length (slice c 0 16) = 16%nat) as Hc1.
    { rewrite slice_0, length_take. unfold len in *. lia. }
    destruct (IH (drop 16 rest) (slice c 0 16)) with (padded := padded) (i := i + 16)
      (acc := acc ++ slice c 0 16) as (tail' & -> & Hlen').
    { rewrite length_drop. lia. } { unfold len. lia. }
    { replace (N.to_nat (i + 16)) with (N.to_nat i + 16)%nat by lia.
      by rewrite <-drop_drop, Hdrop. }
    exists (slice c 0 16 ++ tail'). split; [by rewrite <-app_assoc|].
    rewrite length_app. lia.
Qed.

Lemma cbc_decrypt_loop_length count : ∀ rest prev,
  length rest = (16 * count)%nat → len prev = 16 →
  ∀ ciphertext i acc, drop (N.to_nat i) ciphertext = rest →
    ∃ tail_p, cbc_decrypt_loop enc key ciphertext count i acc prev = Ok (acc ++ tail_p)
      ∧ length tail_p = (16 * count)%nat.
Proof.
  induction count as [|count IH]; intros rest prev Hrest Hprev ciphertext i acc Hdrop.
  - exists []. simpl. by rewrite app_nil_r.
  - simpl. unfold block_size. change (zero_bytes (N.to_nat 16)) with (zero_bytes 16).
    destruct (keystream_block enc Htag key Hkey prev Hprev) as (z & -> & Hks). simpl.
    rewrite slice_block, Hdrop.
    assert (length (take 16 rest) = 16%nat) as Hb by (rewrite length_take; lia).
    set (block := xor_bytes (xor_bytes (take 16 rest) (slice z 0 16)) prev).
    assert (length block = 16%nat) as Hblock
      by (unfold block; rewrite !xor_bytes_length; unfold len in *; lia).
    destruct (IH (drop 16 rest) (take 16 rest)) with (ciphertext := ciphertext) (i := i + 16)
      (acc := acc ++ block) as (tail' & -> & Hlen').
    { rewrite length_drop. lia. } { unfold len. lia. }
    { replace (N.to_nat (i + 16)) with (N.to_nat i + 16)%nat by lia.
      by rewrite <-drop_drop, Hdrop. }
    exists (block ++ tail'). split; [by rewrite <-app_assoc|].
    rewrite length_app. lia.
Qed.

End ModeLengths.

Lemma aligned_blocks {A} (l : list A) :
  len l `mod` 16 = 0 → ∃ m, length l = (16 * m)%nat ∧ len l = 16 * N.of_nat m.
Proof. intros H. exists (N.to_nat (len l / 16)). unfold len in *. lia. Qed.

(** X5.  With a 16-byte key and IV, and a primitive that returns
    ciphertext plus a 16-byte tag, [cbc_encrypt] and [ofb_encrypt] return a
    ciphertext of [16 * (len(plaintext) // 16 + 1)] bytes: the plaintext
    length rounded up to the next multiple of 16, a whole block more when it
    is one already. *)
Theorem encrypt_output_length
    (enc : bytes → bytes → bytes → bytes → result bytes) (key iv plaintext : bytes) :
  encrypt_appends_tag enc → len key = 16 → len iv = 16 →
  ∃ c1 c2, cbc_encrypt enc key iv plaintext = Ok c1
    ∧ ofb_encrypt enc key iv plaintext = Ok c2
    ∧ len c1 = 16 * (len plaintext / 16 + 1)
    ∧ len c2 = 16 * (len plaintext / 16 + 1).
Proof.
  intros Htag Hkey Hiv.
  destruct (padded_blocks plaintext) as (padded & m & Hpad & Hlen & _).
  assert (N.of_nat m = len plaintext / 16 + 1) as Hm.
  { destruct (pad_data_16 plaintext) as [Hn Hpad']. rewrite Hpad in Hpad'.
    injection Hpad' as ->. rewrite length_app, length_replicate in Hlen.
    unfold len in *. lia. }
  destruct (cbc_encrypt_loop_length enc Htag key Hkey m padded iv Hlen Hiv padded 0 [] eq_refl)
    as (c1 & Hc1 & Hl1).
  destruct (ofb_loop_stream enc Htag key Hkey m iv Hiv) as (ks & Hks & Hloops).
  destruct (Hloops padded Hlen) as [Henc _].
  exists c1, (xor_bytes padded ks).
  unfold cbc_encrypt, ofb_encrypt, block_size.
  rewrite !decide_False by (intros H; by apply H).
  rewrite Hpad. simpl.
  replace (len padded) with (16 * N.of_nat m) by (unfold len; lia).
  rewrite range_count_blocks, Hc1, (Henc padded 0 []) by done.
  repeat split; unfold len in *; rewrite ?xor_bytes_length; lia.
Qed.

Lemma encrypt_output_length_witness :
  ∃ c1 c2, cbc_encrypt Toy.encrypt Example.key Example.nonce test_plaintext = Ok c1
    ∧ ofb_encrypt Toy.encrypt Example.key Example.nonce test_plaintext = Ok c2
    ∧ len c1 = 16 * (len test_plaintext / 16 + 1)
    ∧ len c2 = 16 * (len test_plaintext / 16 + 1).
Proof.
  apply (encrypt_output_length Toy.encrypt Example.key Example.nonce test_plaintext);
    [apply toy_appends_tag|reflexivity|reflexivity].
Defined.

(** X6.  Under the same contract, whatever [cbc_decrypt] or [ofb_decrypt]
    returns is shorter than the ciphertext by at least 1 and at most 16
    bytes, and the ciphertext length is a multiple of 16. *)
Theorem decrypt_output_length
    (enc : bytes → bytes → bytes → bytes → result bytes) (key iv ciphertext p : bytes) :
  encrypt_appends_tag enc → len key = 16 → len iv = 16 →
  cbc_decrypt enc key iv ciphertext = Ok p ∨ ofb_decrypt enc key iv ciphertext = Ok p →
  len ciphertext `mod` 16 = 0 ∧ len p < len ciphertext ≤ len p + 16.
Proof.
  intros Htag Hkey Hiv Hdec.
  assert (len ciphertext `mod` 16 = 0) as Hal.
  { destruct Hdec as [Hdec|Hdec]; revert Hdec; unfold cbc_decrypt, ofb_decrypt;
      repeat case_decide; try done; lia. }
  split; [done|].
  destruct (aligned_blocks ciphertext Hal) as (m & Hlen & Hlen').
  assert (∃ padded, length padded = length ciphertext ∧ unpad_data padded = Ok p)
    as (padded & Hpl & Hun).
  { destruct Hdec as [Hdec|Hdec]; revert Hdec; unfold cbc_decrypt, ofb_decrypt, block_size;
      rewrite !decide_False by (intros H; apply H; done); rewrite Hlen', range_count_blocks.
    - destruct (cbc_decrypt_loop_length enc Htag key Hkey m ciphertext iv Hlen Hiv
                  ciphertext 0 [] eq_refl) as (t & -> & Ht).
      simpl. intros Hun. exists t. split; [lia|done].
    - destruct (ofb_loop_stream enc Htag key Hkey m iv Hiv) as (ks & Hks & Hloops).
      destruct (Hloops ciphertext Hlen) as [_ Hd]. rewrite (Hd ciphertext 0 []) by done.
      simpl. intros Hun. exists (xor_bytes ciphertext ks). split; [|done].
      rewrite xor_bytes_length. lia. }
  destruct (unpad_data_inv padded p Hun) as (n & Hn & ->).
  rewrite length_app, length_replicate in Hpl. unfold len. lia.
Qed.

(** X7.  The OFB key stream depends on key and IV only: for two
    plaintexts of the same length encrypted under the same key and IV, the
    XOR of the ciphertexts is the XOR of the padded plaintexts. *)
Theorem ofb_keystream_reuse
    (enc : bytes → bytes → bytes → bytes → result bytes) (key iv p1 p2 c1 c2 : bytes) :
  encrypt_appends_tag enc → len key = 16 → len iv = 16 → len p1 = len p2 →
  ofb_encrypt enc key iv p1 = Ok c1 → ofb_encrypt enc key iv p2 = Ok c2 →
  ∃ padded1 padded2, pad_data p1 16 = Ok padded1 ∧ pad_data p2 16 = Ok padded2
    ∧ xor_bytes c1 c2 = xor_bytes padded1 padded2.
Proof.
  intros Htag Hkey Hiv Hlen.
  destruct (padded_blocks p1) as (padded1 & m & Hpad1 & Hlen1 & _).
  destruct (padded_blocks p2) as (padded2 & m2 & Hpad2 & Hlen2 & _).
  assert (length padded2 = (16 * m)%nat) as Hlen2'.
  { destruct (pad_data_16 p1) as [_ H1]. destruct (pad_data_16 p2) as [_ H2].
    rewrite Hpad1 in H1. rewrite Hpad2 in H2. injection H1 as ->. injection H2 as ->.
    rewrite length_app, length_replicate in *. rewrite <-Hlen in *.
    unfold len in *. lia. }
  destruct (ofb_loop_stream enc Htag key Hkey m iv Hiv) as (ks & Hks & Hloops).
  destruct (Hloops padded1 Hlen1) as [Henc1 _]. destruct (Hloops padded2 Hlen2') as [Henc2 _].
  unfold ofb_encrypt, block_size.
  rewrite !decide_False by (intros H; by apply H).
  rewrite Hpad1, Hpad2. simpl.
  replace (len padded1) with (16 * N.of_nat m) by (unfold len; lia).
  replace (len padded2) with (16 * N.of_nat m) by (unfold len; lia).
  rewrite range_count_blocks, (Henc1 padded1 0 []), (Henc2 padded2 0 []) by done.
  simpl. intros [= <-] [= <-]. exists padded1, padded2. repeat split.
  apply xor_bytes_same_key; lia.
Qed.

Lemma decrypt_output_length_witness :
  len (ofb_of (bytes_of_string "attack at dawn")) `mod` 16 = 0
  ∧ len (bytes_of_string "attack at dawn") < len (ofb_of (bytes_of_string "attack at dawn"))
    ≤ len (bytes_of_string "attack at dawn") + 16.
Proof.
  apply (decrypt_output_length Toy.encrypt Example.key Example.nonce
           (ofb_of (bytes_of_string "attack at dawn")) (bytes_of_string "attack at dawn"));
    [apply toy_appends_tag|reflexivity|reflexivity|right; vm_compute; reflexivity].
Defined.

Lemma ofb_keystream_reuse_witness :
  ∃ padded1 padded2,
    pad_data (bytes_of_string "attack at dawn") 16 = Ok padded1
    ∧ pad_data (bytes_of_string "retreat at six") 16 = Ok padded2
    ∧ xor_bytes (ofb_of (bytes_of_string "attack at dawn"))
                (ofb_of (bytes_of_string "retreat at six"))
      = xor_bytes padded1 padded2.
Proof.
  apply (ofb_keystream_reuse Toy.encrypt Example.key Example.nonce);
    [apply toy_appends_tag|reflexivity|reflexivity|reflexivity
    |vm_compute; reflexivity|vm_compute; reflexivity].
Defined.

(** ** CBC decryption and the primitive *)




Lemma xor_bytes_inj_r x y k :
  length x = length k → length y = length k → xor_bytes x k = xor_bytes y k → x = y.
Proof.
  intros Hx Hy H. rewrite <-(xor_bytes_cancel x k), <-(xor_bytes_cancel y k) by lia.
  by rewrite H.
Qed.






(** ** Hex strings *)

Lemma hex_value_digit n : n < 16 → hex_value (hex_digit n) = Some n.
Proof.
  intros Hn. unfold hex_value, hex_digit.
  repeat case_decide; try lia; f_equal; lia.
Qed.

Lemma hex_digit_not_space n : n < 16 → is_ascii_space (hex_digit n) = false.
Proof.
  intros Hn. unfold is_ascii_space, hex_digit. apply bool_decide_eq_false.
  case_decide; lia.
Qed.

Lemma fromhex_hex b : ∀ s, fromhex (bytes_hex b ++ s) = app b <$> fromhex s.
Proof.
  induction b as [|x b IH]; intros s.
  - simpl. by destruct (fromhex s).
  - pose proof (byte_val_bound x) as Hx.
    change (bytes_hex (x :: b) ++ s)
      with (hex_digit (byte_val x / 16) :: hex_digit (byte_val x `mod` 16)
            :: (bytes_hex b ++ s)).
    cbn [fromhex].
    rewrite hex_digit_not_space, !hex_value_digit by lia.
    rewrite IH.
    replace (16 * (byte_val x / 16) + byte_val x `mod` 16) with (byte_val x) by lia.
    rewrite byte_of_val. by destruct (fromhex s).
Qed.

Lemma bytes_fromhex_hex b : bytes_fromhex (bytes_hex b) = Ok b.
Proof.
  unfold bytes_fromhex. rewrite <-(app_nil_r (bytes_hex b)), fromhex_hex. simpl.
  by rewrite app_nil_r.
Qed.

Lemma bytes_hex_length b : length (bytes_hex b) = (2 * length b)%nat.
Proof.
  induction b as [|x b IH]; [done|].
  change (bytes_hex (x :: b)) with (hex_digit (byte_val x / 16)
    :: hex_digit (byte_val x `mod` 16) :: bytes_hex b).
  simpl. rewrite IH. lia.
Qed.

Lemma bytes_hex_app a b : bytes_hex (a ++ b) = bytes_hex a ++ bytes_hex b.
Proof. unfold bytes_hex. apply bind_app. Qed.

Lemma bytes_hex_take k b : take (2 * k) (bytes_hex b) = bytes_hex (take k b).
Proof.
  rewrite <-(take_drop k b) at 1. rewrite bytes_hex_app.
  destruct (decide (k ≤ length b)%nat).
  - rewrite take_app_length'; [done|]. rewrite bytes_hex_length, length_take. lia.
  - rewrite drop_ge by lia. rewrite app_nil_r. apply take_ge.
    rewrite bytes_hex_length, length_take. lia.
Qed.

Lemma fromhex_zeros k : fromhex (replicate (2 * k) 48) = Some (replicate k Byte.x00).
Proof.
  induction k as [|k IH]; [done|].
  replace (2 * S k)%nat with (S (S (2 * k))) by lia. cbn [replicate fromhex].
  change (is_ascii_space 48) with false. change (hex_value 48) with (Some 0).
  cbn iota. rewrite IH. done.
Qed.

(** The nonce of a GIFT signature: the first 16 bytes of the document,
    padded with zero bytes. *)
Lemma gift_nonce_bytes D :
  bytes_fromhex (ljust (slice (bytes_hex D) 0 32) 32 48)
  = Ok (take 16 D ++ replicate (16 - length D) Byte.x00).
Proof.
  rewrite slice_0. change (N.to_nat 32) with (2 * 16)%nat. rewrite bytes_hex_take.
  unfold ljust, bytes_fromhex.
  replace (N.to_nat (32 - len (bytes_hex (take 16 D)))) with (2 * (16 - length D))%nat.
  2: { unfold len. rewrite bytes_hex_length, length_take. lia. }
  by rewrite fromhex_hex, fromhex_zeros.
Qed.

Lemma gift_nonce_length (D : bytes) :
  len (take 16 D ++ replicate (16 - length D) Byte.x00) = 16.
Proof. unfold len. rewrite length_app, length_take, length_replicate. lia. Qed.

(** ** Occurrences of the magic tag *)

Lemma starts_with_app sub l : starts_with sub l = true → ∃ post, l = sub ++ post.
Proof.
  revert l. induction sub as [|a sub IH]; intros l; simpl.
  - intros _. by exists l.
  - destruct l as [|b l]; [done|]. intros [Hab Hrest]%andb_true_iff.
    apply bool_decide_eq_true in Hab as ->.
    destruct (IH l Hrest) as [post ->]. by exists post.
Qed.

Lemma rfind_from_occurs sub l : ∀ i j,
  rfind_from sub l i = Some j → ∃ pre post, l = pre ++ sub ++ post.
Proof.
  induction l as [|x l IH]; intros i j; simpl.
  - destruct (starts_with sub []) eqn:E; [|done]. intros _.
    destruct (starts_with_app _ _ E) as [post ->]. by exists [], post.
  - destruct (rfind_from sub l (i + 1)) as [j'|] eqn:E.
    + intros _. destruct (IH _ _ E) as (pre & post & ->). by exists (x :: pre), post.
    + destruct (starts_with sub (x :: l)) eqn:E'; [|done]. intros _.
      destruct (starts_with_app _ _ E') as [post ->]. by exists [], post.
Qed.

Lemma rfind_absent content sub :
  (∀ pre post, content ≠ pre ++ sub ++ post) → rfind content sub = (-1)%Z.
Proof.
  intros Hno. unfold rfind. destruct (rfind_from sub content 0) as [j|] eqn:E; [|done].
  destruct (rfind_from_occurs _ _ _ _ E) as (pre & post & ->). by destruct (Hno pre post).
Qed.

Lemma slice_to_end {A} (content pre mid : list A) i j :
  content = pre ++ mid → i = len pre → len pre + len mid ≤ j → slice content i j = mid.
Proof.
  intros -> -> Hj. rewrite slice_take_drop.
  replace (N.to_nat (len pre)) with (length pre) by (unfold len; lia).
  rewrite drop_app_length. apply take_ge. unfold len in *. lia.
Qed.

#[local] Opaque le_bytes MAGIC GiftChanges.MAGIC slice rfind N.pow len.

(** ** What [create_document_signature] does to the disk *)

(** X8.  [create_document_signature] touches the disk only by appending
    the block it returns to the file it signs, and only when it returns:
    the block is the magic tag, the 8-byte length of the ciphertext, the
    nonce and the ciphertext, and the returned length is its length.  When
    the call raises, no file has changed, and the exception is
    [FileNotFoundError], the [ValueError] on the key length, or a
    [SignatureError("Failed to create signature: ...")]. *)
Theorem create_only_appends
    (hash : bytes → bytes) (enc : bytes → bytes → bytes → bytes → result bytes)
    (now : pystr) (random_bytes : bytes) (path : string) (key : bytes) (author : pystr)
    (w : world) :
  match create_document_signature hash enc now random_bytes path key author w with
  | (Ok (sig, n), w') =>
    ∃ D ct, files w !! path = Some D
      ∧ files w' = <[path := D ++ sig]> (files w)
      ∧ sig = MAGIC ++ le_bytes 8 (len ct) ++ random_bytes ++ ct
      ∧ n = len sig
  | (Raise e, w') =>
    files w' = files w
    ∧ (e = FileNotFoundError ∨ e = ValueError "Author key must be exactly 16 bytes"
       ∨ ∃ cause, e = SignatureError (FailedToCreate cause))
  end.
Proof.
  destruct (create_document_signature _ _ _ _ _ _ _ _) as [[[sig n]|e] w'] eqn:Hrun.
  - destruct (create_inv _ _ _ _ _ _ _ _ _ _ _ Hrun)
      as (D & ts & a & ct & HD & _ & _ & _ & _ & _ & _ & _ & -> & -> & ->).
    exists D, ct. by repeat split.
  - revert Hrun. unfold create_document_signature. unfold_M.
    destruct (files w !! path) as [D|] eqn:Hfile; simpl; [|intros [= <- <-]; auto].
    case_decide; [intros [= <- <-]; auto|].
    rewrite Hfile.
    destruct (str_encode now); [|intros [= <- <-]; eauto].
    destruct (str_encode author); [|intros [= <- <-]; eauto].
    destruct (struct_pack_H _); [|intros [= <- <-]; eauto].
    destruct (struct_pack_H _); [|intros [= <- <-]; eauto]. simpl.
    destruct (enc _ _ _ _); [|intros [= <- <-]; eauto].
    destruct (struct_pack_Q _); [|intros [= <- <-]; eauto]. simpl.
    rewrite Hfile. done.
Qed.

(** ** What [verify_document_signature] can do *)

Lemma verify_handlers_signature_error e : ∃ m, verify_handlers e = SignatureError m.
Proof. destruct e; simpl; eauto. Qed.

Ltac outcome :=
  simpl; repeat split; first [done | by eexists | apply verify_handlers_signature_error].

(** X9.  [verify_document_signature] changes nothing on the disk; the
    first component of what it returns is always [True]; every exception
    that leaves it is a [SignatureError], a missing file included, which
    arrives as "Verification failed: ..." around [FileNotFoundError]. *)
Theorem verify_outcomes
    (hash : bytes → bytes) (dec : bytes → bytes → bytes → bytes → result (option bytes))
    (path : string) (key : bytes) (w : world) :
  let '(r, w') := verify_document_signature hash dec path key w in
  w' = w
  ∧ match r with
    | Ok (is_valid, _, _) => is_valid = true
    | Raise e => ∃ m, e = SignatureError m
    end
  ∧ (files w !! path = None
     → r = Raise (SignatureError (VerificationFailed FileNotFoundError))).
Proof.
  unfold verify_document_signature. unfold_M.
  destruct (files w !! path) as [content|]; simpl; [|outcome].
  case_decide; simpl; [outcome|]. case_decide; simpl; [outcome|].
  destruct (struct_unpack_Q _); simpl; [|outcome].
  destruct (dec _ _ _ _) as [[sb|]|]; simpl; [|outcome|outcome].
  do 2 (destruct (struct_unpack_H _); simpl; [|outcome];
        destruct (bytes_decode _); simpl; [|outcome]).
  match goal with |- context [if ?d then _ else _] => destruct d end; outcome.
Qed.

(** X10.  A file shorter than 33 bytes is rejected with "File too small
    to contain a valid signature", and a longer file in which the magic tag
    occurs nowhere with "No valid signature found", whatever the key and the
    primitives. *)
Theorem unsigned_file_rejected
    (hash : bytes → bytes) (dec : bytes → bytes → bytes → bytes → result (option bytes))
    (path : string) (key : bytes) (w : world) (content : bytes) :
  files w !! path = Some content →
  (len content < 33
   → verify_document_signature hash dec path key w = (Raise (SignatureError FileTooSmall), w))
  ∧ (33 ≤ len content → (∀ pre post, content ≠ pre ++ MAGIC ++ post)
     → verify_document_signature hash dec path key w
       = (Raise (SignatureError NoValidSignature), w)).
Proof.
  intros Hfile. unfold verify_document_signature. unfold_M. rewrite Hfile.
  pose proof len_MAGIC as HM. unfold MIN_SIG_SIZE. split.
  - intros Hlen. by rewrite decide_True by lia.
  - intros Hlen Hno. rewrite decide_False by lia.
    by rewrite (rfind_absent _ _ Hno), decide_True.
Qed.

(** X11.  When the hash returns 32 bytes and the cipher appends a 16-byte
    tag, the block that [create_document_signature] appends with a 16-byte
    nonce has 85 bytes more than the UTF-8 encodings of the timestamp and of
    the author id together. *)
Theorem signature_size
    (hash : bytes → bytes) (enc : bytes → bytes → bytes → bytes → result bytes)
    (now : pystr) (nonce : bytes) (path : string) (key : bytes) (author : pystr)
    (w w' : world) (sig ts a : bytes) (n : N) :
  encrypt_appends_tag enc → digest_size hash → len nonce = 16 →
  create_document_signature hash enc now nonce path key author w = (Ok (sig, n), w') →
  str_encode now = Ok ts → str_encode author = Ok a →
  n = 85 + len ts + len a ∧ len sig = n.
Proof.
  intros Htag Hdigest Hnonce Hrun Hts Ha.
  destruct (create_inv _ _ _ _ _ _ _ _ _ _ _ Hrun)
    as (D & ts' & a' & ct & HD & Hkey & Hts' & Ha' & _ & _ & Hct & _ & -> & -> & _).
  rewrite Hts in Hts'. rewrite Ha in Ha'. injection Hts' as <-. injection Ha' as <-.
  split; [|done].
  destruct (Htag key nonce [] (signature_data_of hash ts a D) Hkey Hnonce) as (c & Hc & Hlen).
  rewrite Hct in Hc. injection Hc as <-.
  rewrite len_frame, Hlen. unfold signature_data_of.
  rewrite !len_app, !len_le_bytes, Hdigest. lia.
Qed.

Ltac resolve_block D L nonce ct :=
  rewrite (slice_split (D ++ MAGIC ++ le_bytes 8 L ++ nonce ++ ct)
             (D ++ MAGIC) (le_bytes 8 L) (nonce ++ ct))
    by (rewrite ?len_app, ?len_le_bytes, <-?app_assoc; first [done|lia]);
  rewrite (slice_split (D ++ MAGIC ++ le_bytes 8 L ++ nonce ++ ct)
             (D ++ MAGIC ++ le_bytes 8 L) nonce ct)
    by (rewrite ?len_app, ?len_le_bytes, <-?app_assoc; first [done|lia]);
  rewrite (slice_split (D ++ MAGIC ++ le_bytes 8 L ++ nonce ++ ct)
             [] D (MAGIC ++ le_bytes 8 L ++ nonce ++ ct)) by done.

(** X12.  The length field of a signature block that ends the file is
    only an upper bound: replacing it by any larger number below [2 ^ 64]
    leaves what [verify_document_signature] returns or raises unchanged
    (as long as the rightmost magic tag stays where it was). *)
Theorem length_field_unchecked
    (hash : bytes → bytes) (dec : bytes → bytes → bytes → bytes → result (option bytes))
    (path : string) (key : bytes) (w w' : world) (D nonce ct : bytes) (L : N) :
  files w !! path = Some (D ++ MAGIC ++ le_bytes 8 (len ct) ++ nonce ++ ct) →
  files w' !! path = Some (D ++ MAGIC ++ le_bytes 8 L ++ nonce ++ ct) →
  len nonce = 16 → len ct ≤ L < 2 ^ 64 →
  rfind (D ++ MAGIC ++ le_bytes 8 (len ct) ++ nonce ++ ct) MAGIC = Z.of_N (len D) →
  rfind (D ++ MAGIC ++ le_bytes 8 L ++ nonce ++ ct) MAGIC = Z.of_N (len D) →
  fst (verify_document_signature hash dec path key w')
  = fst (verify_document_signature hash dec path key w).
Proof.
  intros Hfile Hfile' Hnonce HL Hr Hr'.
  unfold verify_document_signature. unfold_M.
  rewrite Hfile, Hfile', Hr, Hr'. pose proof len_MAGIC as HM.
  rewrite !decide_False
    by (unfold MIN_SIG_SIZE; rewrite ?len_app, ?len_le_bytes; lia).
  rewrite N2Z.id.
  resolve_block D L nonce ct. resolve_block D (len ct) nonce ct.
  destruct (struct_unpack_pack_Q L (le_bytes 8 L)) as [-> _].
  { unfold struct_pack_Q. by rewrite decide_True by lia. }
  destruct (struct_unpack_pack_Q (len ct) (le_bytes 8 (len ct))) as [-> _].
  { unfold struct_pack_Q. by rewrite decide_True by lia. }
  rewrite (slice_to_end (D ++ MAGIC ++ le_bytes 8 L ++ nonce ++ ct)
             (D ++ MAGIC ++ le_bytes 8 L ++ nonce) ct)
    by (rewrite ?len_app, ?len_le_bytes, <-?app_assoc; first [done|lia]).
  rewrite (slice_to_end (D ++ MAGIC ++ le_bytes 8 (len ct) ++ nonce ++ ct)
             (D ++ MAGIC ++ le_bytes 8 (len ct) ++ nonce) ct)
    by (rewrite ?len_app, ?len_le_bytes, <-?app_assoc; first [done|lia]).
  destruct (dec _ _ _ _) as [[signature_block|]|e]; [|done|done].
  repeat (first [done | destruct (struct_unpack_H _) | destruct (bytes_decode _)
                 | destruct (decide _)]).
Qed.

Section GiftSign.

Variable string_to_list : pystr → result (list Z).
Variable list_to_string : list (list Z) → result pystr.
Variable gift_encrypt :
  list (list Z) → list Z → list (list Z) → list Z → result (list (list Z) * list Z).
Variable gift_verify :
  list (list Z) → list Z → list (list Z) → list Z → list Z
  → result (option (list (list Z))).

Lemma gift_create_inv now path author_key_hex author w sig n w' :
  GiftChanges.create_gift_document_signature string_to_list list_to_string gift_encrypt
    now path author_key_hex author w = (Ok (sig, n), w') →
  ∃ D encrypted_data tag_bytes,
    files w !! path = Some D
    ∧ files w' = <[path := D ++ sig]> (files w)
    ∧ sig = GiftChanges.MAGIC ++ le_bytes 8 (len encrypted_data)
            ++ (take 16 D ++ replicate (16 - length D) Byte.x00)
            ++ encrypted_data ++ tag_bytes
    ∧ n = len sig.
Proof.
  unfold GiftChanges.create_gift_document_signature, GiftChanges.call_gift_encrypt.
  unfold_M.
  destruct (files w !! path) as [D|] eqn:Hfile; simpl; [|by intros [=]].
  case_decide as Hkey; [by intros [=]|].
  rewrite Hfile.
  destruct (str_encode now) as [ts|]; [|by intros [=]].
  destruct (str_encode author) as [a|]; [|by intros [=]].
  destruct (struct_pack_H (len ts)) as [h1|]; [|by intros [=]].
  destruct (struct_pack_H (len a)) as [h2|]; [|by intros [=]]. simpl.
  destruct (GiftChanges.hex_blocks string_to_list (bytes_hex D)); [|by intros [=]].
  destruct (GiftChanges.hex_blocks string_to_list (bytes_hex _)); [|by intros [=]].
  destruct (string_to_list author_key_hex); [|by intros [=]].
  destruct (string_to_list (ljust _ _ _)); [|by intros [=]]. simpl.
  destruct (gift_encrypt _ _ _ _) as [[eb tag]|]; [|by intros [=]]. simpl.
  destruct (list_to_string eb); [|by intros [=]].
  destruct (bytes_fromhex _) as [encrypted_data|]; [|by intros [=]].
  destruct (list_to_string [tag]); [|by intros [=]].
  destruct (bytes_fromhex _) as [tag_bytes|]; [|by intros [=]].
  unfold struct_pack_Q. case_decide; [|by intros [=]]. simpl.
  rewrite gift_nonce_bytes. simpl. rewrite Hfile.
  intros [= <- <- <-]. exists D, encrypted_data, tag_bytes. done.
Qed.

(** X13.  [create_gift_document_signature] touches the disk only by
    appending the block it returns, and only when it returns.  The block is
    the magic tag, the 8-byte length of the encrypted data, a 16-byte nonce
    field, the encrypted data and the tag bytes; the nonce field is the
    first 16 bytes of the document, filled up with zero bytes.  When the
    call raises, no file has changed, and the exception is
    [FileNotFoundError], the [ValueError] on the key length, or a
    [GiftSignatureError("Failed to create signature: ...")]. *)
Theorem gift_create_only_appends
    (now : pystr) (path : string) (author_key_hex author : pystr) (w : world) :
  match GiftChanges.create_gift_document_signature string_to_list list_to_string
          gift_encrypt now path author_key_hex author w with
  | (Ok (sig, n), w') =>
    ∃ D encrypted_data tag_bytes, files w !! path = Some D
      ∧ files w' = <[path := D ++ sig]> (files w)
      ∧ sig = GiftChanges.MAGIC ++ le_bytes 8 (len encrypted_data)
              ++ (take 16 D ++ replicate (16 - length D) Byte.x00)
              ++ encrypted_data ++ tag_bytes
      ∧ n = len sig
  | (Raise e, w') =>
    files w' = files w
    ∧ (e = FileNotFoundError
       ∨ e = ValueError "Author key must be exactly 32 hex characters (16 bytes)"
       ∨ ∃ cause, e = GiftSignatureError (FailedToCreate cause))
  end.
Proof.
  destruct (GiftChanges.create_gift_document_signature _ _ _ _ _ _ _ _)
    as [[[sig n]|e] w'] eqn:Hrun.
  - by apply gift_create_inv in Hrun.
  - revert Hrun. unfold GiftChanges.create_gift_document_signature, GiftChanges.call_gift_encrypt.
  unfold_M.
    destruct (files w !! path) as [D|] eqn:Hfile; simpl; [|intros [= <- <-]; auto].
    case_decide; [intros [= <- <-]; auto|].
    rewrite Hfile.
    destruct (str_encode now); [|intros [= <- <-]; eauto].
    destruct (str_encode author); [|intros [= <- <-]; eauto].
    destruct (struct_pack_H _); [|intros [= <- <-]; eauto].
    destruct (struct_pack_H _); [|intros [= <- <-]; eauto]. simpl.
    destruct (GiftChanges.hex_blocks string_to_list (bytes_hex D)); [|intros [= <- <-]; eauto].
    destruct (GiftChanges.hex_blocks string_to_list (bytes_hex _)); [|intros [= <- <-]; eauto].
    destruct (string_to_list author_key_hex); [|intros [= <- <-]; eauto].
    destruct (string_to_list (ljust _ _ _)); [|intros [= <- <-]; eauto]. simpl.
    destruct (gift_encrypt _ _ _ _) as [[eb tag]|]; [|intros [= <- <-]; eauto]. simpl.
    destruct (list_to_string eb); [|intros [= <- <-]; eauto].
    destruct (bytes_fromhex _) as [encrypted_data|]; [|intros [= <- <-]; eauto].
    destruct (list_to_string [tag]); [|intros [= <- <-]; eauto].
    destruct (bytes_fromhex _) as [tag_bytes|]; [|intros [= <- <-]; eauto].
    destruct (struct_pack_Q _); [|intros [= <- <-]; eauto]. simpl.
    rewrite gift_nonce_bytes. simpl. rewrite Hfile. done.
Qed.

(** X14.  The nonce of a GIFT signature is not random: bytes 16 to 31 of
    the returned block are the first 16 bytes of the signed file, filled up
    with zero bytes, whatever the key, the author, the time and the
    primitives. *)
Theorem gift_nonce_is_document_prefix
    (now : pystr) (path : string) (author_key_hex author : pystr) (w w' : world)
    (D sig : bytes) (n : N) :
  files w !! path = Some D →
  GiftChanges.create_gift_document_signature string_to_list list_to_string gift_encrypt
    now path author_key_hex author w = (Ok (sig, n), w') →
  slice sig 16 32 = take 16 D ++ replicate (16 - length D) Byte.x00.
Proof.
  intros Hfile Hrun.
  destruct (gift_create_inv _ _ _ _ _ _ _ _ Hrun) as (D' & ed & tb & HD & _ & -> & _).
  rewrite Hfile in HD. injection HD as <-.
  apply (slice_split _ (GiftChanges.MAGIC ++ le_bytes 8 (len ed)) _ (ed ++ tb)).
  - by rewrite <-!app_assoc.
  - rewrite len_app, len_le_bytes. by vm_compute.
  - by rewrite gift_nonce_length.
Qed.

Lemma gift_verify_handlers_error e :
  ∃ m, GiftChanges.verify_handlers e = GiftSignatureError m.
Proof. destruct e; simpl; eauto. Qed.

Ltac gift_outcome :=
  simpl; repeat split; first [done | by eexists | apply gift_verify_handlers_error].

(** X15.  [verify_gift_document_signature] changes nothing on the disk;
    the first component of what it returns is always [True]; every
    exception that leaves it is a [GiftSignatureError], a missing file
    included. *)
Theorem gift_verify_outcomes (path : string) (author_key_hex : pystr) (w : world) :
  let '(r, w') := GiftChanges.verify_gift_document_signature string_to_list list_to_string
                    gift_verify path author_key_hex w in
  w' = w
  ∧ match r with
    | Ok (is_valid, _, _) => is_valid = true
    | Raise e => ∃ m, e = GiftSignatureError m
    end
  ∧ (files w !! path = None
     → r = Raise (GiftSignatureError (VerificationFailed FileNotFoundError))).
Proof.
  unfold GiftChanges.verify_gift_document_signature. unfold_M.
  destruct (files w !! path) as [content|]; simpl; [|gift_outcome].
  case_decide; simpl; [gift_outcome|]. case_decide; simpl; [gift_outcome|].
  destruct (struct_unpack_Q _); simpl; [|gift_outcome].
  destruct (string_to_list author_key_hex); simpl; [|gift_outcome].
  destruct (string_to_list _); simpl; [|gift_outcome].
  destruct (GiftChanges.hex_blocks _ _); simpl; [|gift_outcome].
  destruct (GiftChanges.hex_blocks _ _); simpl; [|gift_outcome].
  destruct (string_to_list _); simpl; [|gift_outcome].
  destruct (gift_verify _ _ _ _ _) as [[blocks|]|]; simpl; [|gift_outcome|gift_outcome].
  destruct (list_to_string _); simpl; [|gift_outcome].
  destruct (bytes_fromhex _); simpl; [|gift_outcome].
  do 2 (destruct (struct_unpack_H _); simpl; [|gift_outcome];
        destruct (bytes_decode _); simpl; [|gift_outcome]).
  gift_outcome.
Qed.

(** X16.  A file shorter than 32 bytes is rejected with "File too small
    to contain a valid signature", and a longer file in which the magic tag
    [GIFT_SIG] occurs nowhere with "No valid signature found", whatever the
    key and the primitives. *)
Theorem gift_unsigned_file_rejected
    (path : string) (author_key_hex : pystr) (w : world) (content : bytes) :
  files w !! path = Some content →
  (len content < 32
   → GiftChanges.verify_gift_document_signature string_to_list list_to_string gift_verify
       path author_key_hex w = (Raise (GiftSignatureError FileTooSmall), w))
  ∧ (32 ≤ len content → (∀ pre post, content ≠ pre ++ GiftChanges.MAGIC ++ post)
     → GiftChanges.verify_gift_document_signature string_to_list list_to_string gift_verify
         path author_key_hex w = (Raise (GiftSignatureError NoValidSignature), w)).
Proof.
  intros Hfile. unfold GiftChanges.verify_gift_document_signature. unfold_M. rewrite Hfile.
  assert (len GiftChanges.MAGIC = 8) as HM by (by vm_compute).
  unfold GiftChanges.MIN_SIG_SIZE. split.
  - intros Hlen. by rewrite decide_True by lia.
  - intros Hlen Hno. rewrite decide_False by lia.
    by rewrite (rfind_absent _ _ Hno), decide_True.
Qed.

End GiftSign.

#[local] Transparent le_bytes MAGIC GiftChanges.MAGIC slice rfind N.pow len.

(** ** The signing properties on concrete inputs *)

Lemma starts_with_prefix sub post : starts_with sub (sub ++ post) = true.
Proof. induction sub as [|a sub IH]; [done|]. simpl. by rewrite bool_decide_eq_true_2, IH. Qed.

Lemma rfind_from_finds sub pre post : ∀ i,
  is_Some (rfind_from sub (pre ++ sub ++ post) i).
Proof.
  induction pre as [|x pre IH]; intros i.
  - simpl. destruct (sub ++ post) as [|y l] eqn:E.
    + simpl. destruct sub; [by eexists|done].
    + simpl. destruct (rfind_from sub l (i + 1)); [by eexists|].
      rewrite <-E, starts_with_prefix. by eexists.
  - simpl. destruct (IH (i + 1)) as [j ->]. by eexists.
Qed.

Lemma rfind_absent_inv content sub :
  rfind content sub = (-1)%Z → ∀ pre post, content ≠ pre ++ sub ++ post.
Proof.
  unfold rfind. intros Hr pre post ->.
  destruct (rfind_from_finds sub pre post 0) as [j Hj]. rewrite Hj in Hr. lia.
Qed.

Lemma unsigned_file_rejected_witness :
  verify_document_signature Toy.hash Toy.decrypt Example.path Example.key Example.disk
  = (Raise (SignatureError FileTooSmall), Example.disk)
  ∧ verify_document_signature Toy.hash Toy.decrypt Example.path Example.key unsigned_disk
    = (Raise (SignatureError NoValidSignature), unsigned_disk).
Proof.
  split.
  - apply (unsigned_file_rejected Toy.hash Toy.decrypt Example.path Example.key
             Example.disk Example.document); [reflexivity|vm_compute; reflexivity].
  - apply (unsigned_file_rejected Toy.hash Toy.decrypt Example.path Example.key
             unsigned_disk (replicate 40 Byte.x00)); [reflexivity|vm_compute; discriminate|].
    apply rfind_absent_inv. vm_compute. reflexivity.
Defined.

Lemma gift_unsigned_file_rejected_witness :
  GiftChanges.verify_gift_document_signature Toy.string_to_list Toy.list_to_string
    Toy.gift_verify Example.path Example.key_hex Example.disk
  = (Raise (GiftSignatureError FileTooSmall), Example.disk)
  ∧ GiftChanges.verify_gift_document_signature Toy.string_to_list Toy.list_to_string
      Toy.gift_verify Example.path Example.key_hex unsigned_disk
    = (Raise (GiftSignatureError NoValidSignature), unsigned_disk).
Proof.
  split.
  - apply (gift_unsigned_file_rejected Toy.string_to_list Toy.list_to_string Toy.gift_verify
             Example.path Example.key_hex Example.disk Example.document);
      [reflexivity|vm_compute; reflexivity].
  - apply (gift_unsigned_file_rejected Toy.string_to_list Toy.list_to_string Toy.gift_verify
             Example.path Example.key_hex unsigned_disk (replicate 40 Byte.x00));
      [reflexivity|vm_compute; discriminate|].
    apply rfind_absent_inv. vm_compute. reflexivity.
Defined.

Lemma signature_size_witness :
  returned_length signed_once = 85 + 19 + 5
  ∧ len (returned_signature signed_once) = returned_length signed_once.
Proof.
  apply (signature_size Toy.hash Toy.encrypt Example.now Example.nonce Example.path
           Example.key Example.alice Example.disk (snd signed_once)
           (returned_signature signed_once)
           (bytes_of_string "2024-11-03T17:14:00") (bytes_of_string "alice"));
    [apply toy_appends_tag|apply toy_digest_size|reflexivity
    |vm_compute; reflexivity|reflexivity|reflexivity].
Defined.

Lemma gift_nonce_is_document_prefix_witness :
  slice (returned_signature gift_signed_once) 16 32
  = bytes_of_string "hello" ++ replicate 11 Byte.x00.
Proof.
  apply (gift_nonce_is_document_prefix Toy.string_to_list Toy.list_to_string Toy.gift_encrypt
           Example.now Example.path Example.key_hex Example.alice Example.disk
           (snd gift_signed_once) Example.document (returned_signature gift_signed_once)
           (returned_length gift_signed_once));
    [reflexivity|vm_compute; reflexivity].
Defined.

Lemma length_field_unchecked_witness :
  fst (verify_document_signature Toy.hash Toy.decrypt Example.path Example.key stretched_disk)
  = fst (verify_document_signature Toy.hash Toy.decrypt Example.path Example.key
           (snd signed_once))
  ∧ fst (verify_document_signature Toy.hash Toy.decrypt Example.path Example.key stretched_disk)
    = Ok (true, Example.alice, Example.now).
Proof.
  split; [|vm_compute; reflexivity].
  apply (length_field_unchecked Toy.hash Toy.decrypt Example.path Example.key
           (snd signed_once) stretched_disk Example.document Example.nonce
           signed_ciphertext 1000);
    [vm_compute; reflexivity|reflexivity|reflexivity|vm_compute; split; [discriminate|reflexivity]
    |vm_compute; reflexivity|vm_compute; reflexivity].
Defined.

Lemma gift_appended_suffix_ignored_witness :
  fst (GiftChanges.verify_gift_document_signature Toy.string_to_list Toy.list_to_string
         Toy.gift_verify Example.path Example.key_hex
         (World (<[Example.path := gift_signed_file ++ bytes_of_string "trailer"]>
                   (files (snd gift_signed_once))) (aead_calls (snd gift_signed_once))))
  = fst (GiftChanges.verify_gift_document_signature Toy.string_to_list Toy.list_to_string
           Toy.gift_verify Example.path Example.key_hex (snd gift_signed_once)).
Proof.
  apply (gift_appended_suffix_ignored Toy.string_to_list Toy.list_to_string Toy.gift_verify
           (snd gift_signed_once) Example.path Example.key_hex gift_signed_file
           (bytes_of_string "trailer") 5);
    [vm_compute; reflexivity|vm_compute; reflexivity|vm_compute; discriminate
    |vm_compute; reflexivity].
Defined.

(** ** The GIFT modes *)

Example process_block_samples :
  GiftCofbModes._process_block Toy.string_to_list Toy.gift_encrypt
    Example.key Example.nonce
  = Ok (xor_bytes Example.nonce Example.key)
  ∧ format_x 0 = Toy.str "0" ∧ format_x 11 = Toy.str "b" ∧ format_x 255 = Toy.str "ff"
  ∧ format_x 4096 = Toy.str "1000" ∧ format_x (-26) = Toy.str "-1a".
Proof. repeat split. Qed.

Lemma gift_pad_data_eq : GiftCofbModes.pad_data = AsconModes.pad_data.
Proof. reflexivity. Qed.

Lemma gift_unpad_data_eq : GiftCofbModes.unpad_data = AsconModes.unpad_data.
Proof. reflexivity. Qed.

Lemma xor_bytes_comm_cancel x y :
  (length x ≤ length y)%nat → xor_bytes (xor_bytes x y) y = x.
Proof. apply xor_bytes_cancel. Qed.

Section GiftModeProofs.

Variable string_to_list : pystr → result (list Z).
Variable gift_encrypt :
  list (list Z) → list Z → list (list Z) → list Z → result (list (list Z) * list Z).
Variable key : bytes.

Hypothesis Hblock : block_function_total string_to_list gift_encrypt key.

Lemma gift_ofb_loops count : ∀ prev, len prev = 16 →
  ∃ ks, length ks = (16 * count)%nat ∧
    ∀ rest, length rest = (16 * count)%nat →
      (∀ padded i acc, drop (N.to_nat i) padded = rest →
         GiftCofbModes.ofb_encrypt_loop string_to_list gift_encrypt key padded count i acc prev
         = Ok (acc ++ xor_bytes rest ks)) ∧
      (∀ ciphertext i acc, drop (N.to_nat i) ciphertext = rest →
         GiftCofbModes.ofb_decrypt_loop string_to_list gift_encrypt key ciphertext count i acc prev
         = Ok (acc ++ xor_bytes rest ks)).
Proof.
  induction count as [|count IH]; intros prev Hprev.
  - exists []. split; [done|]. intros rest Hrest.
    destruct rest; [|simpl in Hrest; lia].
    split; intros; simpl; by rewrite app_nil_r.
  - destruct (Hblock prev Hprev) as (k1 & Hk1 & Hk1len).
    destruct (IH k1 Hk1len) as (ks & Hlen & Hloops).
    exists (k1 ++ ks). split; [rewrite length_app; unfold len in *; lia|].
    intros rest Hrest.
    assert (length (take 16 rest) = 16%nat) as Hb by (rewrite length_take; lia).
    destruct (Hloops (drop 16 rest)) as [Henc Hdec]; [rewrite length_drop; lia|].
    assert (xor_bytes rest (k1 ++ ks)
            = xor_bytes (take 16 rest) k1 ++ xor_bytes (drop 16 rest) ks) as ->.
    { rewrite <-(take_drop 16 rest) at 1. apply xor_bytes_app. unfold len in *. lia. }
    split; intros buf i acc Hdrop; simpl; unfold GiftCofbModes.block_size;
      rewrite Hk1; simpl; rewrite slice_block, Hdrop.
    + rewrite Henc; [by rewrite <-app_assoc|].
      replace (N.to_nat (i + 16)) with (N.to_nat i + 16)%nat by lia.
      by rewrite <-drop_drop, Hdrop.
    + rewrite Hdec; [by rewrite <-app_assoc|].
      replace (N.to_nat (i + 16)) with (N.to_nat i + 16)%nat by lia.
      by rewrite <-drop_drop, Hdrop.
Qed.

Lemma gift_cbc_encrypt_loop_ok count : ∀ rest prev,
  length rest = (16 * count)%nat → len prev = 16 →
  ∃ tail_c, length tail_c = (16 * count)%nat ∧
    ∀ padded i acc, drop (N.to_nat i) padded = rest →
      GiftCofbModes.cbc_encrypt_loop string_to_list gift_encrypt key padded count i acc prev
      = Ok (acc ++ tail_c).
Proof.
  induction count as [|count IH]; intros rest prev Hrest Hprev.
  - exists []. split; [done|]. intros. simpl. by rewrite app_nil_r.
  - assert (length (take 16 rest) = 16%nat) as Hb by (rewrite length_take; lia).
    set (xored := xor_bytes (take 16 rest) prev).
    assert (len xored = 16) as Hx
      by (unfold xored, len in *; rewrite xor_bytes_length; lia).
    destruct (Hblock xored Hx) as (c & Hc & Hclen).
    destruct (IH (drop 16 rest) c) as (tail' & Hlen' & Henc);
      [rewrite length_drop; lia|done|].
    exists (c ++ tail'). split; [rewrite length_app; unfold len in *; lia|].
    intros padded i acc Hdrop. simpl. unfold GiftCofbModes.block_size.
    rewrite slice_block, Hdrop. fold xored. rewrite Hc. simpl.
    rewrite Henc; [by rewrite <-app_assoc|].
    replace (N.to_nat (i + 16)) with (N.to_nat i + 16)%nat by lia.
    by rewrite <-drop_drop, Hdrop.
Qed.

Lemma gift_cbc_decrypt_loop_ok count : ∀ rest prev,
  length rest = (16 * count)%nat → len prev = 16 →
  ∃ tail_p, length tail_p = (16 * count)%nat ∧
    ∀ ciphertext i acc, drop (N.to_nat i) ciphertext = rest →
      GiftCofbModes.cbc_decrypt_loop string_to_list gift_encrypt key ciphertext count i acc prev
      = Ok (acc ++ tail_p).
Proof.
  induction count as [|count IH]; intros rest prev Hrest Hprev.
  - exists []. split; [done|]. intros. simpl. by rewrite app_nil_r.
  - assert (len (take 16 rest) = 16) as Hb by (unfold len; rewrite length_take; lia).
    destruct (Hblock (take 16 rest) Hb) as (d & Hd & Hdlen).
    destruct (IH (drop 16 rest) (take 16 rest)) as (tail' & Hlen' & Hdec);
      [rewrite length_drop; lia|done|].
    exists (xor_bytes d prev ++ tail'). split.
    { rewrite length_app, xor_bytes_length. unfold len in *. lia. }
    intros ciphertext i acc Hdrop. simpl. unfold GiftCofbModes.block_size.
    rewrite slice_block, Hdrop, Hd. simpl.
    rewrite Hdec; [by rewrite <-app_assoc|].
    replace (N.to_nat (i + 16)) with (N.to_nat i + 16)%nat by lia.
    by rewrite <-drop_drop, Hdrop.
Qed.

Lemma gift_cbc_loops_involutive count :
  block_function_involutive string_to_list gift_encrypt key → ∀ rest prev,
  length rest = (16 * count)%nat → len prev = 16 →
  ∃ tail_c, length tail_c = (16 * count)%nat ∧
    (∀ padded i acc, drop (N.to_nat i) padded = rest →
       GiftCofbModes.cbc_encrypt_loop string_to_list gift_encrypt key padded count i acc prev
       = Ok (acc ++ tail_c)) ∧
    (∀ ciphertext i acc, drop (N.to_nat i) ciphertext = tail_c →
       GiftCofbModes.cbc_decrypt_loop string_to_list gift_encrypt key ciphertext count i acc prev
       = Ok (acc ++ rest)).
Proof.
  intros Hinv.
  induction count as [|count IH]; intros rest prev Hrest Hprev.
  - destruct rest; [|simpl in Hrest; lia]. exists []. split; [done|].
    split; intros; simpl; by rewrite app_nil_r.
  - assert (length (take 16 rest) = 16%nat) as Hb by (rewrite length_take; lia).
    set (xored := xor_bytes (take 16 rest) prev).
    assert (len xored = 16) as Hx
      by (unfold xored, len in *; rewrite xor_bytes_length; lia).
    destruct (Hblock xored Hx) as (c & Hc & Hclen).
    pose proof (Hinv xored c Hx Hc) as Hback.
    destruct (IH (drop 16 rest) c) as (tail' & Hlen' & Henc & Hdec);
      [rewrite length_drop; lia|done|].
    exists (c ++ tail'). split; [rewrite length_app; unfold len in *; lia|]. split.
    + intros padded i acc Hdrop. simpl. unfold GiftCofbModes.block_size.
      rewrite slice_block, Hdrop. fold xored. rewrite Hc. simpl.
      rewrite Henc; [by rewrite <-app_assoc|].
      replace (N.to_nat (i + 16)) with (N.to_nat i + 16)%nat by lia.
      by rewrite <-drop_drop, Hdrop.
    + intros ciphertext i acc Hdrop. simpl. unfold GiftCofbModes.block_size.
      rewrite slice_block, Hdrop.
      rewrite take_app_length' by (unfold len in *; lia).
      rewrite Hback. simpl. unfold xored.
      rewrite xor_bytes_cancel by (unfold len in *; lia).
      rewrite Hdec.
      * by rewrite <-app_assoc, take_drop.
      * replace (N.to_nat (i + 16)) with (N.to_nat i + 16)%nat by lia.
        rewrite <-drop_drop, Hdrop. rewrite drop_app_length'; [done|unfold len in *; lia].
Qed.

End GiftModeProofs.


(** X19.  When [_process_block] under the key maps 16-byte blocks to
    16-byte blocks, [GiftCofbModes.ofb_decrypt] undoes
    [GiftCofbModes.ofb_encrypt] for every plaintext and every 16-byte key
    and IV. *)
Theorem gift_ofb_decrypt_inverts_encrypt
    (string_to_list : pystr → result (list Z))
    (gift_encrypt : list (list Z) → list Z → list (list Z) → list Z
                    → result (list (list Z) * list Z))
    (key iv plaintext : bytes) :
  block_function_total string_to_list gift_encrypt key →
  len key = 16 → len iv = 16 →
  (c ← GiftCofbModes.ofb_encrypt string_to_list gift_encrypt key iv plaintext;
   GiftCofbModes.ofb_decrypt string_to_list gift_encrypt key iv c) = Ok plaintext.
Proof.
  intros Hblock Hkey Hiv.
  destruct (padded_blocks plaintext) as (padded & m & Hpad & Hlen & Hunpad).
  destruct (gift_ofb_loops string_to_list gift_encrypt key Hblock m iv Hiv)
    as (ks & Hks & Hloops).
  destruct (Hloops padded Hlen) as [Henc _].
  assert (length (xor_bytes padded ks) = (16 * m)%nat) as Hclen
    by (rewrite xor_bytes_length; lia).
  destruct (Hloops (xor_bytes padded ks) Hclen) as [_ Hdec].
  unfold GiftCofbModes.ofb_encrypt, GiftCofbModes.ofb_decrypt, GiftCofbModes.block_size.
  rewrite !decide_False by (intros H; by apply H).
  rewrite gift_pad_data_eq, gift_unpad_data_eq, Hpad. simpl.
  replace (len padded) with (16 * N.of_nat m) by (unfold len; lia).
  rewrite range_count_blocks, (Henc padded 0 []) by done. simpl.
  rewrite !decide_False by (intros H; by apply H).
  replace (len (xor_bytes padded ks)) with (16 * N.of_nat m) by (unfold len; lia).
  rewrite decide_False by (intros H; apply H; lia).
  rewrite range_count_blocks, (Hdec _ 0 []) by done. simpl.
  by rewrite xor_bytes_cancel by lia.
Qed.

(** X20.  [GiftCofbModes.cbc_decrypt] runs [_process_block] forwards.  When
    [_process_block] under the key maps 16-byte blocks to 16-byte blocks and
    undoes itself, [cbc_decrypt] undoes [cbc_encrypt]. *)
Theorem gift_cbc_decrypt_inverts_encrypt
    (string_to_list : pystr → result (list Z))
    (gift_encrypt : list (list Z) → list Z → list (list Z) → list Z
                    → result (list (list Z) * list Z))
    (key iv plaintext : bytes) :
  block_function_total string_to_list gift_encrypt key →
  block_function_involutive string_to_list gift_encrypt key →
  len key = 16 → len iv = 16 →
  (c ← GiftCofbModes.cbc_encrypt string_to_list gift_encrypt key iv plaintext;
   GiftCofbModes.cbc_decrypt string_to_list gift_encrypt key iv c) = Ok plaintext.
Proof.
  intros Hblock Hinv Hkey Hiv.
  destruct (padded_blocks plaintext) as (padded & m & Hpad & Hlen & Hunpad).
  destruct (gift_cbc_loops_involutive string_to_list gift_encrypt key Hblock m Hinv
              padded iv Hlen Hiv) as (c & Hc & Henc & Hdec).
  unfold GiftCofbModes.cbc_encrypt, GiftCofbModes.cbc_decrypt, GiftCofbModes.block_size.
  rewrite !decide_False by (intros H; by apply H).
  rewrite gift_pad_data_eq, gift_unpad_data_eq, Hpad. simpl.
  replace (len padded) with (16 * N.of_nat m) by (unfold len; lia).
  rewrite range_count_blocks, (Henc padded 0 []) by done. simpl.
  rewrite !decide_False by (intros H; by apply H).
  replace (len c) with (16 * N.of_nat m) by (unfold len; lia).
  rewrite decide_False by (intros H; apply H; lia).
  rewrite range_count_blocks, (Hdec c 0 []) by done. simpl. done.
Qed.

(** X21.  When [_process_block] does not undo itself on the first block
    (the first padded plaintext block XOR the IV), [cbc_encrypt] succeeds
    and [cbc_decrypt] of its result does not return the plaintext. *)
Theorem gift_cbc_decrypt_reencrypts
    (string_to_list : pystr → result (list Z))
    (gift_encrypt : list (list Z) → list Z → list (list Z) → list Z
                    → result (list (list Z) * list Z))
    (key iv plaintext padded c d : bytes) :
  block_function_total string_to_list gift_encrypt key →
  len key = 16 → len iv = 16 →
  GiftCofbModes.pad_data plaintext 16 = Ok padded →
  GiftCofbModes._process_block string_to_list gift_encrypt key
    (xor_bytes (take 16 padded) iv) = Ok c →
  GiftCofbModes._process_block string_to_list gift_encrypt key c = Ok d →
  d ≠ xor_bytes (take 16 padded) iv →
  ∃ ciphertext,
    GiftCofbModes.cbc_encrypt string_to_list gift_encrypt key iv plaintext = Ok ciphertext
    ∧ GiftCofbModes.cbc_decrypt string_to_list gift_encrypt key iv ciphertext ≠ Ok plaintext.
Proof.
  intros Hblock Hkey Hiv Hpad Hc Hd Hne.
  destruct (padded_blocks plaintext) as (padded' & m & Hpad' & Hlen & Hunpad).
  rewrite gift_pad_data_eq in Hpad. rewrite Hpad in Hpad'. injection Hpad' as <-.
  assert (m ≠ 0%nat) as Hm.
  { destruct (pad_data_16 plaintext) as [Hn Hp]. rewrite Hpad in Hp. injection Hp as ->.
    rewrite length_app, length_replicate in Hlen. lia. }
  destruct m as [|m]; [done|]. clear Hm.
  assert (length (take 16 padded) = 16%nat) as Hb by (rewrite length_take; lia).
  set (x := xor_bytes (take 16 padded) iv) in *.
  assert (len x = 16) as Hx by (unfold x, len in *; rewrite xor_bytes_length; lia).
  assert (len c = 16) as Hclen.
  { destruct (Hblock x Hx) as (c' & Hc' & ?). rewrite Hc in Hc'. by injection Hc' as <-. }
  assert (len d = 16) as Hdlen.
  { destruct (Hblock c Hclen) as (d' & Hd' & ?). rewrite Hd in Hd'. by injection Hd' as <-. }
  destruct (gift_cbc_encrypt_loop_ok string_to_list gift_encrypt key Hblock m
              (drop 16 padded) c) as (tail_c & Htc & Henc);
    [rewrite length_drop; lia|done|].
  destruct (gift_cbc_decrypt_loop_ok string_to_list gift_encrypt key Hblock m tail_c c)
    as (tail_p & Htp & Hdec); [done|done|].
  exists (c ++ tail_c).
  unfold GiftCofbModes.cbc_encrypt, GiftCofbModes.cbc_decrypt, GiftCofbModes.block_size.
  rewrite !decide_False by (intros H; by apply H).
  rewrite gift_pad_data_eq, gift_unpad_data_eq, Hpad. simpl.
  replace (len padded) with (16 * N.of_nat (S m)) by (unfold len; lia).
  rewrite range_count_blocks. simpl. unfold GiftCofbModes.block_size.
  rewrite slice_block. change (drop (N.to_nat 0) padded) with padded.
  fold x. rewrite Hc. cbn [mbind result_bind].
  rewrite (Henc padded (0 + 16) c) by done.
  split; [done|].
  replace (len (c ++ tail_c)) with (16 * N.of_nat (S m))
    by (unfold len in *; rewrite length_app; lia).
  rewrite decide_False by (intros H; apply H; lia).
  rewrite range_count_blocks. simpl. unfold GiftCofbModes.block_size.
  rewrite slice_block. change (drop (N.to_nat 0) (c ++ tail_c)) with (c ++ tail_c).
  rewrite take_app_length' by (unfold len in *; lia).
  rewrite Hd. cbn [mbind result_bind].
  rewrite (Hdec (c ++ tail_c) (0 + 16) (xor_bytes d iv)).
  2: { change (N.to_nat (0 + 16)) with 16%nat.
       rewrite drop_app_length'; [done|unfold len in *; lia]. }
  cbn [mbind result_bind]. intros Hun.
  destruct (unpad_data_inv _ _ Hun) as (n & Hn & Heq).
  destruct (pad_data_16 plaintext) as [Hn0 Hp]. rewrite Hpad in Hp. injection Hp as Hp.
  assert (n = 16 - len plaintext `mod` 16) as Hnn.
  { apply (f_equal length) in Heq. rewrite Hp in Hlen.
    rewrite !length_app, !length_replicate, xor_bytes_length in *.
    unfold len in *. lia. }
  rewrite Hnn, <-Hp in Heq.
  apply (f_equal (take 16)) in Heq.
  rewrite take_app_length' in Heq by (rewrite xor_bytes_length; unfold len in *; lia).
  apply Hne. apply (xor_bytes_inj_r d x iv).
  - unfold len in *. lia.
  - unfold len in *. lia.
  - rewrite Heq. unfold x. by rewrite xor_bytes_cancel by (unfold len in *; lia).
Qed.

Lemma nibbles_of_cons x b :
  nibbles_of (x :: b)
  = Z.of_N (byte_val x / 16) :: Z.of_N (byte_val x `mod` 16) :: nibbles_of b.
Proof. done. Qed.

Lemma bytes_hex_cons x b :
  bytes_hex (x :: b)
  = hex_digit (byte_val x / 16) :: hex_digit (byte_val x `mod` 16) :: bytes_hex b.
Proof. done. Qed.

Lemma nibbles_of_length b : length (nibbles_of b) = (2 * length b)%nat.
Proof. induction b as [|x b IH]; [done|]. rewrite nibbles_of_cons. simpl. lia. Qed.

Lemma nibbles_of_range b : Forall (λ x, 0 ≤ x < 16)%Z (nibbles_of b).
Proof.
  induction b as [|x b IH]; [constructor|]. rewrite nibbles_of_cons.
  pose proof (byte_val_bound x). repeat constructor; try lia. done.
Qed.

Lemma format_x_nibble n : n < 16 → format_x (Z.of_N n) = [hex_digit n].
Proof.
  intros Hn. unfold format_x. rewrite decide_False by lia.
  rewrite Zabs2N.id. cbn [hex_of app]. by rewrite decide_True.
Qed.

Lemma format_nibbles b : mjoin (format_x <$> nibbles_of b) = bytes_hex b.
Proof.
  induction b as [|x b IH]; [done|]. pose proof (byte_val_bound x).
  rewrite nibbles_of_cons, bytes_hex_cons. cbn [fmap list_fmap mjoin list_join].
  rewrite !format_x_nibble by lia. rewrite <-IH. done.
Qed.

Lemma nibbles_pack k : ∀ ns,
  Forall (λ x, 0 ≤ x < 16)%Z ns → length ns = (2 * k)%nat →
  ∃ out, ns = nibbles_of out ∧ length out = k.
Proof.
  induction k as [|k IH]; intros ns Hns Hlen.
  - destruct ns; [|simpl in Hlen; lia]. by exists [].
  - destruct ns as [|a [|b ns]]; simpl in Hlen; try lia.
    apply Forall_cons in Hns as [Ha Hns]. apply Forall_cons in Hns as [Hb Hns].
    destruct (IH ns Hns) as (out & -> & Hout); [lia|].
    exists (byte_of (16 * Z.to_N a + Z.to_N b) :: out). split; [|simpl; lia].
    rewrite nibbles_of_cons, byte_val_of by lia.
    f_equal; [lia|]. f_equal. lia.
Qed.

Lemma nibbles_of_inj a : ∀ b, nibbles_of a = nibbles_of b → a = b.
Proof.
  induction a as [|x a IH]; intros [|y b]; try done.
  rewrite !nibbles_of_cons. intros [= H1 H2 H3].
  pose proof (byte_val_bound x). pose proof (byte_val_bound y).
  f_equal; [apply byte_val_inj; lia|by apply IH].
Qed.

Lemma toy_string_to_list_hex b : Toy.string_to_list (bytes_hex b) = Ok (nibbles_of b).
Proof.
  unfold Toy.string_to_list.
  assert (mapM hex_value (bytes_hex b)
          = Some (b ≫= λ x, [byte_val x / 16; byte_val x `mod` 16])) as ->.
  { induction b as [|x b IH]; [done|]. pose proof (byte_val_bound x).
    rewrite bytes_hex_cons. cbn [mapM]. rewrite !hex_value_digit by lia.
    cbn. rewrite IH. done. }
  f_equal. induction b as [|x b IH]; [done|]. cbn. f_equal. f_equal. exact IH.
Qed.

(** X18.  [_process_block] returns the bytes whose hex nibbles are the
    ints of the first ciphertext block that [GiftCofb.encrypt] returns for
    the block, the key, one empty block of associated data and the all-zero
    nonce. *)
Theorem process_block_packs_nibbles
    (string_to_list : pystr → result (list Z))
    (gift_encrypt : list (list Z) → list Z → list (list Z) → list Z
                    → result (list (list Z) * list Z))
    (key block out : bytes) (block_list key_list nonce tag : list Z)
    (others : list (list Z)) :
  string_to_list (bytes_hex block) = Ok block_list →
  string_to_list (bytes_hex key) = Ok key_list →
  string_to_list (replicate 32 48) = Ok nonce →
  gift_encrypt [block_list] key_list [[]] nonce = Ok (nibbles_of out :: others, tag) →
  GiftCofbModes._process_block string_to_list gift_encrypt key block = Ok out.
Proof.
  intros Hb Hk Hn Henc. unfold GiftCofbModes._process_block.
  rewrite Hb, Hk, Hn. cbn [mbind result_bind]. rewrite Henc. cbn [mbind result_bind].
  rewrite format_nibbles. apply bytes_fromhex_hex.
Qed.

Lemma lxor_nibble a b : (0 ≤ a < 16 → 0 ≤ b < 16 → 0 ≤ Z.lxor a b < 16)%Z.
Proof.
  intros Ha Hb.
  rewrite <-(Z2N.id a), <-(Z2N.id b) by lia. rewrite <-N2Z.inj_lxor.
  assert (N.lxor (Z.to_N a) (Z.to_N b) < 16); [|lia].
  set (x := Z.to_N a). set (y := Z.to_N b).
  assert (x < 16) by lia. assert (y < 16) by lia.
  destruct (decide (N.lxor x y = 0)) as [->|Hne]; [lia|].
  apply N.log2_lt_pow2 with (b:=4); [lia|].
  eapply N.le_lt_trans; [apply N.log2_lxor|].
  apply N.max_lub_lt.
  - destruct (decide (x = 0)) as [->|?]; [done|]. apply N.log2_lt_pow2; lia.
  - destruct (decide (y = 0)) as [->|?]; [done|]. apply N.log2_lt_pow2; lia.
Qed.

Lemma zip_with_range (f : Z → Z → Z) xs ys :
  (∀ x y, 0 ≤ x < 16 → 0 ≤ y < 16 → 0 ≤ f x y < 16)%Z →
  Forall (λ x, 0 ≤ x < 16)%Z xs → Forall (λ x, 0 ≤ x < 16)%Z ys →
  Forall (λ x, 0 ≤ x < 16)%Z (zip_with f xs ys).
Proof.
  intros Hf Hxs. revert ys. induction Hxs as [|x xs Hx Hxs IH]; intros ys Hys; [constructor|].
  destruct Hys as [|y ys Hy Hys]; simpl; [constructor|]. constructor; [by apply Hf|by apply IH].
Qed.

Lemma zip_with_lxor_cancel xs ks :
  (length xs ≤ length ks)%nat → zip_with Z.lxor (zip_with Z.lxor xs ks) ks = xs.
Proof.
  revert ks. induction xs as [|x xs IH]; intros [|k ks] Hl; simpl in *; try done; try lia.
  rewrite Z.lxor_assoc, Z.lxor_nilpotent, Z.lxor_0_r, IH; [done|lia].
Qed.

Lemma toy_process_block (f : Z → Z → Z) (gift_encrypt : _) key block :
  (∀ x y, 0 ≤ x < 16 → 0 ≤ y < 16 → 0 ≤ f x y < 16)%Z →
  (∀ m k ad n, gift_encrypt m k ad n
               = Ok ((λ b, zip_with f b k) <$> m, zip_with Z.lxor k n)) →
  len key = 16 → len block = 16 →
  ∃ out, GiftCofbModes._process_block Toy.string_to_list gift_encrypt key block = Ok out
    ∧ nibbles_of out = zip_with f (nibbles_of block) (nibbles_of key)
    ∧ len out = 16.
Proof.
  intros Hf Henc Hkey Hb.
  destruct (nibbles_pack 16 (zip_with f (nibbles_of block) (nibbles_of key)))
    as (out & Hout & Hlen).
  { apply zip_with_range; [done|apply nibbles_of_range|apply nibbles_of_range]. }
  { rewrite length_zip_with, !nibbles_of_length. unfold len in *. lia. }
  exists out. split; [|split; [done|unfold len; lia]].
  unfold GiftCofbModes._process_block.
  rewrite !toy_string_to_list_hex. change (Toy.string_to_list (replicate 32 48))
    with (Ok (replicate 32 0%Z) : result (list Z)).
  cbn [mbind result_bind]. rewrite Henc. cbn [mbind result_bind fmap list_fmap].
  rewrite Hout, format_nibbles. apply bytes_fromhex_hex.
Qed.

Lemma toy_block_total key :
  len key = 16 → block_function_total Toy.string_to_list Toy.gift_encrypt key.
Proof.
  intros Hkey b Hb.
  destruct (toy_process_block Z.lxor Toy.gift_encrypt key b) as (out & Ho & _ & Hl);
    [apply lxor_nibble|done|done|done|]. by exists out.
Qed.

Lemma toy_block_involutive key :
  len key = 16 → block_function_involutive Toy.string_to_list Toy.gift_encrypt key.
Proof.
  intros Hkey b c Hb Hc.
  destruct (toy_process_block Z.lxor Toy.gift_encrypt key b) as (out & Ho & Hn & Hl);
    [apply lxor_nibble|done|done|done|].
  rewrite Hc in Ho. injection Ho as <-.
  destruct (toy_process_block Z.lxor Toy.gift_encrypt key c) as (out & Ho & Hn' & Hl');
    [apply lxor_nibble|done|done|done|].
  rewrite Ho. f_equal. apply nibbles_of_inj. rewrite Hn', Hn.
  apply zip_with_lxor_cancel. rewrite !nibbles_of_length. unfold len in *. lia.
Qed.

Lemma toy_add_block_total key :
  len key = 16 → block_function_total Toy.string_to_list toy_gift_add key.
Proof.
  intros Hkey b Hb.
  destruct (toy_process_block (λ x k, (x + k) `mod` 16)%Z toy_gift_add key b)
    as (out & Ho & _ & Hl); [intros; lia|done|done|done|]. by exists out.
Qed.

Lemma gift_ofb_decrypt_inverts_encrypt_witness :
  (c ← GiftCofbModes.ofb_encrypt Toy.string_to_list Toy.gift_encrypt
         Example.key Example.nonce test_plaintext;
   GiftCofbModes.ofb_decrypt Toy.string_to_list Toy.gift_encrypt Example.key Example.nonce c)
  = Ok test_plaintext.
Proof.
  apply (gift_ofb_decrypt_inverts_encrypt Toy.string_to_list Toy.gift_encrypt
           Example.key Example.nonce test_plaintext);
    [by apply toy_block_total|reflexivity|reflexivity].
Defined.

Lemma gift_cbc_decrypt_inverts_encrypt_witness :
  (c ← GiftCofbModes.cbc_encrypt Toy.string_to_list Toy.gift_encrypt
         Example.key Example.nonce test_plaintext;
   GiftCofbModes.cbc_decrypt Toy.string_to_list Toy.gift_encrypt Example.key Example.nonce c)
  = Ok test_plaintext.
Proof.
  apply (gift_cbc_decrypt_inverts_encrypt Toy.string_to_list Toy.gift_encrypt
           Example.key Example.nonce test_plaintext);
    [by apply toy_block_total|by apply toy_block_involutive|reflexivity|reflexivity].
Defined.

Lemma gift_cbc_decrypt_reencrypts_witness :
  ∃ ciphertext,
    GiftCofbModes.cbc_encrypt Toy.string_to_list toy_gift_add
      Example.key Example.nonce test_plaintext = Ok ciphertext
    ∧ GiftCofbModes.cbc_decrypt Toy.string_to_list toy_gift_add
        Example.key Example.nonce ciphertext ≠ Ok test_plaintext.
Proof.
  set (padded := ok_or [] (GiftCofbModes.pad_data test_plaintext 16)).
  set (E := GiftCofbModes._process_block Toy.string_to_list toy_gift_add Example.key).
  apply (gift_cbc_decrypt_reencrypts Toy.string_to_list toy_gift_add
           Example.key Example.nonce test_plaintext padded
           (ok_or [] (E (xor_bytes (take 16 padded) Example.nonce)))
           (ok_or [] (E (ok_or [] (E (xor_bytes (take 16 padded) Example.nonce))))));
    [by apply toy_add_block_total|reflexivity|reflexivity
    |vm_compute; reflexivity|vm_compute; reflexivity|vm_compute; reflexivity
    |vm_compute; discriminate].
Defined.

Lemma process_block_packs_nibbles_witness :
  GiftCofbModes._process_block Toy.string_to_list Toy.gift_encrypt Example.key Example.nonce
  = Ok (xor_bytes Example.nonce Example.key).
Proof.
  apply (process_block_packs_nibbles Toy.string_to_list Toy.gift_encrypt
           Example.key Example.nonce (xor_bytes Example.nonce Example.key)
           (nibbles_of Example.nonce) (nibbles_of Example.key) (replicate 32 0%Z)
           (zip_with Z.lxor (nibbles_of Example.key) (replicate 32 0%Z)) []);
    vm_compute; reflexivity.
Defined.

(** ** Signing and verifying with GIFT *)

(** ** Blocks of nibbles *)

Lemma slice_drop {A} (l : list A) k i j :
  slice (drop k l) i j = slice l (i + N.of_nat k) (j + N.of_nat k).
Proof.
  rewrite !slice_take_drop, drop_drop. f_equal; [lia|f_equal; lia].
Qed.

Lemma slice_fmap {A B} (f : A → B) (l : list A) i j : slice (f <$> l) i j = f <$> slice l i j.
Proof. by rewrite !slice_take_drop, fmap_take, fmap_drop. Qed.

Lemma range_count_small n : 0 < n ≤ 32 → range_count n 32 = 1%nat.
Proof. intros Hn. unfold range_count. lia. Qed.

Lemma range_count_large n : 32 < n → range_count n 32 = S (range_count (n - 32) 32).
Proof. intros Hn. unfold range_count. lia. Qed.

Lemma blocks_of_nil : blocks_of [] = [[]].
Proof. done. Qed.

Lemma blocks_of_small ns : (0 < length ns ≤ 32)%nat → blocks_of ns = [ns].
Proof.
  intros Hn. unfold blocks_of, range_list.
  rewrite range_count_small by (unfold len; lia). simpl.
  rewrite slice_0. by rewrite take_ge by lia.
Qed.

Lemma blocks_of_large ns :
  (32 < length ns)%nat → blocks_of ns = take 32 ns :: blocks_of (drop 32 ns).
Proof.
  intros Hn. unfold blocks_of, range_list.
  rewrite range_count_large by (unfold len; lia).
  replace (len ns - 32) with (len (drop 32 ns)) by (unfold len; rewrite length_drop; lia).
  destruct (range_count (len (drop 32 ns)) 32) as [|cnt] eqn:Hcnt.
  { unfold range_count, len in Hcnt. rewrite length_drop in Hcnt. lia. }
  cbn [seq fmap list_fmap]. rewrite !decide_False by done.
  f_equal; [by rewrite slice_0|]. f_equal.
  - rewrite slice_drop. f_equal.
  - rewrite <-!list_fmap_compose, <-!fmap_S_seq, <-!list_fmap_compose.
    apply list_fmap_ext. intros ? k _. simpl. rewrite slice_drop. f_equal; lia.
Qed.

Lemma blocks_of_ind (P : list Z → Prop) :
  P [] → (∀ ns, (0 < length ns ≤ 32)%nat → P ns) →
  (∀ ns, (32 < length ns)%nat → P (drop 32 ns) → P ns) →
  ∀ ns, P ns.
Proof.
  intros H0 H1 H2 ns.
  assert (∀ k ns, (length ns ≤ 32 * k)%nat → P ns) as Hk.
  { clear ns. induction k as [|k IH]; intros ns Hlen.
    - destruct ns; [done|simpl in Hlen; lia].
    - destruct (decide (length ns = 0)%nat) as [Hz|Hnz]; [by destruct ns|].
      destruct (decide (length ns ≤ 32)%nat); [apply H1; lia|].
      apply H2; [lia|]. apply IH. rewrite length_drop. lia. }
  apply (Hk (length ns)). lia.
Qed.

Lemma blocks_of_join ns : mjoin (blocks_of ns) = ns.
Proof.
  induction ns as [| ns Hn | ns Hn IH] using blocks_of_ind.
  - done.
  - rewrite blocks_of_small by done. simpl. by rewrite app_nil_r.
  - rewrite blocks_of_large by done. simpl. rewrite IH. apply take_drop.
Qed.

Lemma blocks_of_bounded (P : Z → Prop) ns :
  Forall P ns → Forall (λ b, Forall P b ∧ (length b ≤ 32)%nat) (blocks_of ns).
Proof.
  induction ns as [| ns Hn | ns Hn IH] using blocks_of_ind; intros HP.
  - rewrite blocks_of_nil. constructor; [split; [constructor|simpl; lia]|constructor].
  - rewrite blocks_of_small by done. constructor; [split; [done|lia]|constructor].
  - rewrite blocks_of_large by done. constructor.
    + split; [by apply Forall_take|rewrite length_take; lia].
    + apply IH. by apply Forall_drop.
Qed.

Lemma length_join_shape {A} (c c' : list (list A)) :
  length <$> c = length <$> c' → length (mjoin c) = length (mjoin c').
Proof. intros H. by rewrite !length_join, H. Qed.

Lemma blocks_of_shape ns : ∀ c,
  length <$> c = length <$> blocks_of ns → blocks_of (mjoin c) = c.
Proof.
  induction ns as [| ns Hn | ns Hn IH] using blocks_of_ind; intros c Hshape.
  - destruct c as [|[|] [|]]; done.
  - rewrite blocks_of_small in Hshape by done.
    destruct c as [|b [|]]; try done. injection Hshape as Hb.
    simpl. rewrite app_nil_r. apply blocks_of_small. lia.
  - rewrite blocks_of_large in Hshape by done.
    destruct c as [|b c]; [done|]. injection Hshape as Hb Hc.
    rewrite length_take in Hb.
    pose proof (length_join_shape _ _ Hc) as Hlen. rewrite blocks_of_join, length_drop in Hlen.
    simpl. rewrite blocks_of_large by (rewrite length_app; lia).
    rewrite take_app_length', drop_app_length' by lia. f_equal. by apply IH.
Qed.

(** ** The hex helpers against nibbles *)

Lemma mapM_ok {A B} (f : A → result B) (g : A → B) l :
  (∀ x, x ∈ l → f x = Ok (g x)) → mapM f l = Ok (g <$> l).
Proof.
  induction l as [|x l IH]; intros Hf; [done|].
  cbn [mapM]. rewrite (Hf x) by left. cbn. rewrite IH; [done|].
  intros y Hy. apply Hf. by right.
Qed.

(** The nibbles of a byte string, as natural numbers. *)
Lemma bytes_hex_digits b :
  ∃ ns, bytes_hex b = hex_digit <$> ns ∧ nibbles_of b = Z.of_N <$> ns
    ∧ Forall (λ n, n < 16) ns.
Proof.
  induction b as [|x b (ns & Hh & Hn & Hall)]; [by exists []|].
  pose proof (byte_val_bound x).
  exists (byte_val x / 16 :: byte_val x `mod` 16 :: ns).
  rewrite bytes_hex_cons, nibbles_of_cons, Hh, Hn. split; [done|]. split; [done|].
  repeat constructor; [lia|lia|done].
Qed.

Lemma nibbles_hex b : (λ x, hex_digit (Z.to_N x)) <$> nibbles_of b = bytes_hex b.
Proof.
  induction b as [|x b IH]; [done|].
  rewrite bytes_hex_cons, nibbles_of_cons. cbn [fmap list_fmap].
  rewrite !N2Z.id. f_equal. f_equal. exact IH.
Qed.

Section GiftHex.

Variable string_to_list : pystr → result (list Z).
Variable list_to_string : list (list Z) → result pystr.
Hypothesis Hreads : reads_hex string_to_list.
Hypothesis Hwrites : writes_hex list_to_string.

Lemma string_to_list_hex b : string_to_list (bytes_hex b) = Ok (nibbles_of b).
Proof.
  destruct (bytes_hex_digits b) as (ns & -> & -> & Hall). by apply Hreads.
Qed.

Lemma hex_blocks_nibbles b :
  GiftChanges.hex_blocks string_to_list (bytes_hex b) = Ok (blocks_of (nibbles_of b)).
Proof.
  destruct (bytes_hex_digits b) as (ns & Hh & Hn & Hall).
  unfold GiftChanges.hex_blocks, blocks_of. rewrite Hh, Hn.
  rewrite (mapM_ok _ (λ i, slice (Z.of_N <$> ns) i (i + 32))).
  - cbn. by replace (len (hex_digit <$> ns)) with (len (Z.of_N <$> ns))
      by (unfold len; by rewrite !length_fmap).
  - intros i _. rewrite !slice_fmap. apply Hreads.
    rewrite slice_take_drop. by apply Forall_take, Forall_drop.
Qed.

Lemma list_to_string_bytes blocks out :
  Forall nibble_list blocks → mjoin blocks = nibbles_of out →
  (h ← list_to_string blocks; bytes_fromhex h) = Ok out.
Proof.
  intros Hall Hjoin. rewrite (Hwrites blocks Hall), Hjoin, nibbles_hex. cbn.
  apply bytes_fromhex_hex.
Qed.

End GiftHex.

Lemma bytes_hex_zeros k : bytes_hex (replicate k Byte.x00) = replicate (2 * k) 48.
Proof.
  induction k as [|k IH]; [done|].
  replace (2 * S k)%nat with (S (S (2 * k))) by lia. cbn [replicate].
  rewrite bytes_hex_cons, IH. done.
Qed.

Lemma gift_nonce_hex D :
  ljust (slice (bytes_hex D) 0 32) 32 48
  = bytes_hex (take 16 D ++ replicate (16 - length D) Byte.x00).
Proof.
  rewrite slice_0. change (N.to_nat 32) with (2 * 16)%nat. rewrite bytes_hex_take.
  unfold ljust. rewrite bytes_hex_app, bytes_hex_zeros. do 2 f_equal.
  unfold len. rewrite bytes_hex_length, length_take. lia.
Qed.

Lemma len_metadata ts a : len (metadata_of ts a) = 4 + len ts + len a.
Proof. unfold metadata_of. rewrite !len_app, !len_le_bytes. lia. Qed.

Lemma len_nibbles_pack (out : bytes) (ns : list Z) (b : bytes) :
  ns = nibbles_of out → length ns = length (nibbles_of b) → len out = len b.
Proof. intros -> H. rewrite !nibbles_of_length in H. unfold len. lia. Qed.

#[local] Opaque le_bytes AsconChanges.MAGIC GiftChanges.MAGIC slice rfind N.pow len.

Ltac unfold_gift_M :=
  unfold try_except, os_path_exists, read_file, append_file, GiftChanges.call_gift_encrypt,
    log_call, lift, raise, mbind, M_bind, mret, M_ret, result_bind, result_ret in *.

Section GiftRoundTrip.

Variable string_to_list : pystr → result (list Z).
Variable list_to_string : list (list Z) → result pystr.
Variable gift_encrypt :
  list (list Z) → list Z → list (list Z) → list Z → result (list (list Z) * list Z).
Variable gift_verify :
  list (list Z) → list Z → list (list Z) → list Z → list Z
  → result (option (list (list Z))).
Hypothesis Hreads : reads_hex string_to_list.
Hypothesis Hwrites : writes_hex list_to_string.
Hypothesis Haead : gift_aead gift_encrypt gift_verify.

Variables (w : world) (path : string) (D : bytes) (key_hex : pystr) (key_list : list Z).
Variables (now author : pystr) (ts a : bytes).
Hypothesis Hfile : files w !! path = Some D.
Hypothesis Hkeylen : len key_hex = 32.
Hypothesis Hkey : string_to_list key_hex = Ok key_list.
Hypothesis Hkeynib : nibble_list key_list.
Hypothesis Hkey32 : length key_list = 32%nat.
Hypothesis Hts : str_encode now = Ok ts.
Hypothesis Htslen : len ts < 2 ^ 16.
Hypothesis Ha : str_encode author = Ok a.
Hypothesis Halen : len a < 2 ^ 16.

Local Abbreviation nonce := (take 16 D ++ replicate (16 - length D) Byte.x00).
Local Abbreviation metadata := (metadata_of ts a).

(** What the primitive returns in this signing run, packed into bytes. *)
Lemma gift_encrypt_run :
  ∃ c tag encrypted_data tag_bytes,
    gift_encrypt (blocks_of (nibbles_of metadata)) key_list (blocks_of (nibbles_of D))
      (nibbles_of nonce) = Ok (c, tag)
    ∧ gift_verify c key_list (blocks_of (nibbles_of D)) (nibbles_of nonce) tag
      = Ok (Some (blocks_of (nibbles_of metadata)))
    ∧ Forall nibble_list c ∧ nibble_list tag
    ∧ mjoin c = nibbles_of encrypted_data ∧ blocks_of (nibbles_of encrypted_data) = c
    ∧ tag = nibbles_of tag_bytes
    ∧ len encrypted_data = len metadata ∧ len tag_bytes = 16.
Proof.
  destruct (Haead (blocks_of (nibbles_of metadata)) key_list (blocks_of (nibbles_of D))
              (nibbles_of nonce)) as (c & tag & Henc & Hshape & Hc & Htag & Htag32 & Hver).
  { done. } { done. } { apply nibbles_of_range. }
  { rewrite nibbles_of_length, length_app, length_take, length_replicate. lia. }
  { apply blocks_of_bounded, nibbles_of_range. }
  destruct (nibbles_pack (length metadata) (mjoin c)) as (ed & Hed & Hedlen).
  { unfold nibble_list in Hc. by apply Forall_join. }
  { rewrite (length_join_shape _ _ Hshape), blocks_of_join. apply nibbles_of_length. }
  destruct (nibbles_pack 16 tag Htag Htag32) as (tb & Htb & Htblen).
  exists c, tag, ed, tb. repeat split; try done.
  - rewrite <-Hed. by apply blocks_of_shape with (ns := nibbles_of metadata).
  - Transparent len. unfold len. Opaque len. lia.
  - Transparent len. unfold len. Opaque len. lia.
Qed.

Section Run.

Variables (c : list (list Z)) (tag : list Z) (encrypted_data tag_bytes : bytes).
Hypothesis Henc :
  gift_encrypt (blocks_of (nibbles_of metadata)) key_list (blocks_of (nibbles_of D))
    (nibbles_of nonce) = Ok (c, tag).
Hypothesis Hver :
  gift_verify c key_list (blocks_of (nibbles_of D)) (nibbles_of nonce) tag
  = Ok (Some (blocks_of (nibbles_of metadata))).
Hypothesis Hc : Forall nibble_list c.
Hypothesis Htag : nibble_list tag.
Hypothesis Hjoin : mjoin c = nibbles_of encrypted_data.
Hypothesis Hblocks : blocks_of (nibbles_of encrypted_data) = c.
Hypothesis Htagb : tag = nibbles_of tag_bytes.
Hypothesis Hedlen : len encrypted_data = len metadata.
Hypothesis Htblen : len tag_bytes = 16.

Local Abbreviation sig :=
  (GiftChanges.MAGIC ++ le_bytes 8 (len encrypted_data) ++ nonce ++ encrypted_data ++ tag_bytes).

Lemma gift_create_runs :
  GiftChanges.create_gift_document_signature string_to_list list_to_string gift_encrypt
    now path key_hex author w
  = (Ok (sig, len sig),
     World (<[path := D ++ sig]> (files w))
       (aead_calls w ++ [GiftEncrypt (blocks_of (nibbles_of metadata)) key_list
                           (blocks_of (nibbles_of D)) (nibbles_of nonce)])).
Proof.
  unfold GiftChanges.create_gift_document_signature. unfold_gift_M.
  rewrite Hfile. simpl.
  rewrite decide_False by (intros H; by apply H).
  rewrite Hfile, Hts, Ha. unfold struct_pack_H.
  rewrite !decide_True by done. simpl.
  rewrite hex_blocks_nibbles by done.
  change (le_bytes 2 (len ts) ++ ts ++ le_bytes 2 (len a) ++ a) with metadata.
  rewrite hex_blocks_nibbles by done.
  rewrite Hkey, gift_nonce_hex, string_to_list_hex by done. simpl.
  rewrite Henc. simpl.
  rewrite (Hwrites c Hc), Hjoin, nibbles_hex, bytes_fromhex_hex.
  rewrite (Hwrites [tag]) by (by repeat constructor).
  simpl. rewrite app_nil_r, Htagb, nibbles_hex, bytes_fromhex_hex.
  unfold struct_pack_Q. rewrite decide_True.
  2: { rewrite Hedlen, len_metadata. change (2 ^ 16) with 65536 in *.
       change (2 ^ 64) with 18446744073709551616. lia. }
  simpl. rewrite bytes_fromhex_hex. simpl. rewrite Hfile. done.
Qed.

Lemma gift_verify_framed w1 :
  rfind sig GiftChanges.MAGIC = 0%Z →
  files w1 !! path = Some (D ++ sig) →
  GiftChanges.verify_gift_document_signature string_to_list list_to_string gift_verify
    path key_hex w1 = (Ok (true, author, now), w1).
Proof.
  intros Hrfind Hfile1.
  assert (len GiftChanges.MAGIC = 8) as HM by (by vm_compute).
  pose proof (gift_nonce_length D) as Hnonce.
  revert Hrfind Hfile1 Hver. set (nn := nonce) in *. intros Hrfind Hfile1 Hver'.
  unfold GiftChanges.verify_gift_document_signature. unfold_gift_M.
  rewrite Hfile1. simpl.
  assert (rfind (D ++ GiftChanges.MAGIC ++ le_bytes 8 (len encrypted_data) ++ nn ++ encrypted_data
                ++ tag_bytes) GiftChanges.MAGIC = Z.of_N (len D)) as ->.
  { rewrite (rfind_app _ _ _ 0) by done. f_equal. lia. }
  rewrite decide_False
    by (unfold GiftChanges.MIN_SIG_SIZE; rewrite !len_app, len_le_bytes, HM; lia).
  rewrite decide_False by lia. rewrite N2Z.id.
  rewrite (slice_split (D ++ GiftChanges.MAGIC ++ le_bytes 8 (len encrypted_data) ++ nn ++ encrypted_data
                ++ tag_bytes) (D ++ GiftChanges.MAGIC) (le_bytes 8 (len encrypted_data))
             (nn ++ encrypted_data ++ tag_bytes))
    by (rewrite ?len_app, ?len_le_bytes, <-?app_assoc; first [done|lia]).
  destruct (struct_unpack_pack_Q (len encrypted_data) (le_bytes 8 (len encrypted_data)))
    as [-> _].
  { unfold struct_pack_Q. rewrite decide_True; [done|].
    rewrite Hedlen, len_metadata. change (2 ^ 16) with 65536 in *.
    change (2 ^ 64) with 18446744073709551616. lia. }
  simpl.
  rewrite (slice_split (D ++ GiftChanges.MAGIC ++ le_bytes 8 (len encrypted_data) ++ nn ++ encrypted_data
                ++ tag_bytes) (D ++ GiftChanges.MAGIC ++ le_bytes 8 (len encrypted_data))
             nn (encrypted_data ++ tag_bytes))
    by (rewrite ?len_app, ?len_le_bytes, <-?app_assoc; first [done|lia]).
  rewrite (slice_split (D ++ GiftChanges.MAGIC ++ le_bytes 8 (len encrypted_data) ++ nn ++ encrypted_data
                ++ tag_bytes)
             (D ++ GiftChanges.MAGIC ++ le_bytes 8 (len encrypted_data) ++ nn)
             encrypted_data tag_bytes (len D + len GiftChanges.MAGIC + 8 + 16)
             (len D + len GiftChanges.MAGIC + 8 + 16 + len encrypted_data))
    by (rewrite ?len_app, ?len_le_bytes, <-?app_assoc; first [done|lia]).
  rewrite (slice_split (D ++ GiftChanges.MAGIC ++ le_bytes 8 (len encrypted_data) ++ nn ++ encrypted_data
                ++ tag_bytes)
             (D ++ GiftChanges.MAGIC ++ le_bytes 8 (len encrypted_data) ++ nn
              ++ encrypted_data) tag_bytes []
             (len D + len GiftChanges.MAGIC + 8 + 16 + len encrypted_data)
             (len D + len GiftChanges.MAGIC + 8 + 16 + len encrypted_data + 16))
    by (rewrite ?len_app, ?len_le_bytes, <-?app_assoc, ?app_nil_r; first [done|lia]).
  rewrite (slice_split (D ++ GiftChanges.MAGIC ++ le_bytes 8 (len encrypted_data) ++ nn ++ encrypted_data
                ++ tag_bytes) [] D
             (GiftChanges.MAGIC ++ le_bytes 8 (len encrypted_data) ++ nn ++ encrypted_data
              ++ tag_bytes) 0 (len D)) by done.
  rewrite Hkey. simpl.
  rewrite !string_to_list_hex by done. simpl.
  rewrite !hex_blocks_nibbles by done. simpl.
  rewrite Hblocks, <-Htagb, Hver'. simpl.
  rewrite (Hwrites (blocks_of (nibbles_of metadata))).
  2: { eapply Forall_impl; [apply (blocks_of_bounded _ _ (nibbles_of_range metadata))|].
       by intros b [Hb _]. }
  rewrite blocks_of_join, nibbles_hex, bytes_fromhex_hex. simpl.
  unfold metadata_of.
  set (sb := le_bytes 2 (len ts) ++ ts ++ le_bytes 2 (len a) ++ a).
  rewrite (slice_split sb [] (le_bytes 2 (len ts)) (ts ++ le_bytes 2 (len a) ++ a))
    by (rewrite ?len_le_bytes; first [done|lia]).
  destruct (struct_unpack_pack_H (len ts) (le_bytes 2 (len ts))) as [-> _].
  { unfold struct_pack_H. by rewrite decide_True. }
  simpl.
  rewrite (slice_split sb (le_bytes 2 (len ts)) ts (le_bytes 2 (len a) ++ a))
    by (rewrite ?len_le_bytes; first [done|lia]).
  rewrite (bytes_decode_encode _ _ Hts). simpl.
  rewrite (slice_split sb (le_bytes 2 (len ts) ++ ts) (le_bytes 2 (len a)) a)
    by (unfold sb; rewrite ?len_app, ?len_le_bytes, <-?app_assoc; first [done|lia]).
  destruct (struct_unpack_pack_H (len a) (le_bytes 2 (len a))) as [-> _].
  { unfold struct_pack_H. by rewrite decide_True. }
  simpl.
  rewrite (slice_split sb (le_bytes 2 (len ts) ++ ts ++ le_bytes 2 (len a)) a [])
    by (unfold sb; rewrite ?len_app, ?len_le_bytes, <-?app_assoc, ?app_nil_r; first [done|lia]).
  by rewrite (bytes_decode_encode _ _ Ha).
Qed.

End Run.

End GiftRoundTrip.

#[local] Transparent le_bytes AsconChanges.MAGIC GiftChanges.MAGIC slice rfind N.pow len.

(** ** The toy instance meets the contracts of the GIFT primitives *)

Lemma toy_reads_hex : reads_hex Toy.string_to_list.
Proof.
  intros ns Hns. unfold Toy.string_to_list.
  assert (mapM hex_value (hex_digit <$> ns) = Some ns) as ->; [|done].
  induction Hns as [|n ns Hn Hns IH]; [done|].
  cbn [fmap list_fmap mapM]. rewrite hex_value_digit by done. rewrite IH. done.
Qed.

Lemma toy_writes_hex : writes_hex Toy.list_to_string.
Proof.
  intros blocks Hblocks. unfold Toy.list_to_string.
  rewrite decide_True; [done|]. by apply Forall_join.
Qed.

Lemma toy_gift_aead : gift_aead Toy.gift_encrypt Toy.gift_verify.
Proof.
  intros message key ad nonce Hkey Hkey32 Hnonce Hnonce32 Hmsg.
  eexists _, _. split; [reflexivity|].
  assert (((λ block, zip_with Z.lxor block key) <$>
           ((λ block, zip_with Z.lxor block key) <$> message)) = message) as Hinv.
  { rewrite <-list_fmap_compose.
    induction Hmsg as [|b message [_ Hb] _ IH]; [done|].
    cbn [fmap list_fmap compose]. rewrite zip_with_lxor_cancel by lia. by f_equal. }
  repeat split.
  - rewrite <-list_fmap_compose. apply Forall_fmap_ext_1.
    eapply Forall_impl; [exact Hmsg|]. intros b [_ Hb]. simpl.
    rewrite length_zip_with. lia.
  - apply Forall_fmap. eapply Forall_impl; [exact Hmsg|]. intros b [Hb _]. simpl.
    by apply zip_with_range; [apply lxor_nibble| |].
  - by apply zip_with_range; [apply lxor_nibble| |].
  - rewrite length_zip_with. lia.
  - unfold Toy.gift_verify. rewrite decide_True by done. by rewrite Hinv.
Qed.

(** X26.  Signing with GIFT and verifying with the same key.  Let
    [string_to_list] and [list_to_string] read and write lower-case hex
    nibbles, and let [GiftCofb.verify] give back what [GiftCofb.encrypt]
    encrypted, block lengths kept and the tag 32 nibbles long.  Then for
    every document, every key of 32 hex characters that reads as 32 nibbles
    and every author string whose UTF-8 encoding exists and is shorter than
    65536 bytes, [create_gift_document_signature] returns and appends one
    block to the file; and when the magic tag occurs in that block only at
    its start, [verify_gift_document_signature] with the same key returns
    [(True, author, now)], [now] being the timestamp recorded at
    signing. *)
Theorem gift_sign_then_verify
    (string_to_list : pystr → result (list Z))
    (list_to_string : list (list Z) → result pystr)
    (gift_encrypt : list (list Z) → list Z → list (list Z) → list Z
                    → result (list (list Z) * list Z))
    (gift_verify : list (list Z) → list Z → list (list Z) → list Z → list Z
                   → result (option (list (list Z))))
    (w : world) (path : string) (D : bytes) (key_hex : pystr) (key_list : list Z)
    (now author : pystr) (timestamp author_id_bytes : bytes) :
  reads_hex string_to_list → writes_hex list_to_string →
  gift_aead gift_encrypt gift_verify →
  files w !! path = Some D →
  len key_hex = 32 → string_to_list key_hex = Ok key_list →
  nibble_list key_list → length key_list = 32%nat →
  str_encode now = Ok timestamp → len timestamp < 2 ^ 16 →
  str_encode author = Ok author_id_bytes → len author_id_bytes < 2 ^ 16 →
  ∃ sig w1,
    GiftChanges.create_gift_document_signature string_to_list list_to_string gift_encrypt
      now path key_hex author w = (Ok (sig, len sig), w1)
    ∧ files w1 !! path = Some (D ++ sig)
    ∧ (rfind sig GiftChanges.MAGIC = 0%Z →
       GiftChanges.verify_gift_document_signature string_to_list list_to_string gift_verify
         path key_hex w1 = (Ok (true, author, now), w1)).
Proof.
  intros Hreads Hwrites Haead Hfile Hkeylen Hkey Hkeynib Hkey32 Hts Htslen Ha Halen.
  destruct (gift_encrypt_run gift_encrypt gift_verify Haead D key_hex key_list timestamp
              author_id_bytes Hkeylen Hkeynib Hkey32 Htslen Halen)
    as (c & tag & ed & tb & Henc & Hver & Hc & Htag & Hjoin & Hblocks & Htb & Hedlen & Htblen).
  eexists _, _. split; [eapply gift_create_runs; eauto|]. split.
  { simpl. by rewrite lookup_insert_eq. }
  intros Hrfind.
  eapply gift_verify_framed; eauto.
  simpl. by rewrite lookup_insert_eq.
Qed.

Lemma gift_sign_then_verify_witness :
  ∃ sig w1,
    GiftChanges.create_gift_document_signature Toy.string_to_list Toy.list_to_string
      Toy.gift_encrypt Example.now Example.path Example.key_hex Example.alice Example.disk
    = (Ok (sig, len sig), w1)
    ∧ rfind sig GiftChanges.MAGIC = 0%Z
    ∧ GiftChanges.verify_gift_document_signature Toy.string_to_list Toy.list_to_string
        Toy.gift_verify Example.path Example.key_hex w1
      = (Ok (true, Example.alice, Example.now), w1).
Proof.
  assert (nibble_list (Z.of_N <$> [0; 1; 2; 3; 4; 5; 6; 7; 8; 9; 10; 11; 12; 13; 14; 15;
                                   0; 1; 2; 3; 4; 5; 6; 7; 8; 9; 10; 11; 12; 13; 14; 15]))
    as Hnib by (unfold nibble_list; simpl; repeat (constructor; [lia|]); constructor).
  destruct (gift_sign_then_verify Toy.string_to_list Toy.list_to_string Toy.gift_encrypt
              Toy.gift_verify Example.disk Example.path Example.document Example.key_hex _
              Example.now Example.alice
              (bytes_of_string "2024-11-03T17:14:00") (bytes_of_string "alice")
              toy_reads_hex toy_writes_hex toy_gift_aead
              eq_refl eq_refl eq_refl Hnib eq_refl eq_refl eq_refl eq_refl eq_refl)
    as (sig & w1 & Hcreate & _ & Hverify).
  exists sig, w1.
  assert (rfind sig GiftChanges.MAGIC = 0%Z) as Hrfind.
  { vm_compute in Hcreate. injection Hcreate as <- _. vm_compute. reflexivity. }
  split; [exact Hcreate|]. split; [exact Hrfind|]. exact (Hverify Hrfind).
Defined.

(** * The prime checker *)

Local Open Scope Z_scope.
Import PrimeChecker.

Example prime_checker_samples :
  PrimeChecker.pow3 3 (-1) 7 = Ok 5%Z
  ∧ PrimeChecker.pow3 2 (-2) 7 = Ok 2%Z
  ∧ PrimeChecker.pow3 3 (-1) (-7) = Ok (-2)%Z
  ∧ PrimeChecker.pow3 2 3 (-5) = Ok (-2)%Z
  ∧ PrimeChecker.pow3 5 (-1) 1 = Ok 0%Z
  ∧ PrimeChecker.pow3 2 (-1) 4
    = Raise (ValueError "base is not invertible for the given modulus")
  ∧ PrimeChecker.py_range 9 20 3 = [9; 12; 15; 18]%Z
  ∧ PrimeChecker.py_range 5 5 1 = []
  ∧ PrimeChecker.factor_twos 25 0 24 = (3, 3)%Z
  ∧ PrimeChecker.getitem [true; false] (-1) = Ok false
  ∧ PrimeChecker.getitem [true; false] 2 = Raise IndexError
  ∧ PrimeChecker.sieve_of_eratosthenes_single Z.sqrt 97 = Ok true
  ∧ PrimeChecker.sieve_of_eratosthenes_single Z.sqrt 91 = Ok false
  ∧ PrimeChecker.sieve_of_atkin_single Z.sqrt 97 = Ok true
  ∧ PrimeChecker.sieve_of_atkin_single Z.sqrt 91 = Ok false
  ∧ PrimeChecker.is_prime_miller_rabin (λ _ lo _, lo) 97 5 = Ok true
  ∧ PrimeChecker.is_prime_miller_rabin (λ _ lo _, lo) 91 5 = Ok false.
Proof. repeat split. Qed.

(** ** Miller-Rabin *)

Lemma factor_twos_spec fuel : ∀ s d,
  0 < d < 2 ^ Z.of_nat fuel →
  ∃ s' d', factor_twos fuel s d = (s', d')
    ∧ s ≤ s' ∧ d = d' * 2 ^ (s' - s) ∧ d' `mod` 2 = 1 ∧ (d `mod` 2 = 0 → s < s').
Proof.
  induction fuel as [|fuel IH]; intros s d Hd.
  - simpl in Hd. lia.
  - rewrite Nat2Z.inj_succ, Z.pow_succ_r in Hd by lia. simpl.
    case_decide as Heven.
    + destruct (IH (s + 1) (d `div` 2)) as (s' & d' & -> & Hs & Hdiv & Hodd & _).
      { split; [apply Z.div_str_pos; lia|apply Z.div_lt_upper_bound; lia]. }
      exists s', d'. split; [done|]. split; [lia|]. split; [|split; [done|lia]].
      replace (s' - s) with (Z.succ (s' - (s + 1))) by lia.
      rewrite Z.pow_succ_r by lia.
      rewrite (Z.div_mod d 2) at 1 by lia. rewrite Heven, Hdiv. lia.
    + exists s, d. split; [done|]. split; [lia|].
      replace (s - s) with 0 by lia. split; [lia|]. split; [|done].
      pose proof (Z.mod_pos_bound d 2). lia.
Qed.

Lemma pow3_nonneg base exp modulus :
  0 ≤ exp → modulus ≠ 0 → pow3 base exp modulus = Ok (base ^ exp `mod` modulus).
Proof. intros. unfold pow3. rewrite decide_False, decide_True by done. done. Qed.

Lemma sqrt_one_prime n x :
  Z.prime n → 0 ≤ x < n → (x ^ 2) `mod` n = 1 → x = 1 ∨ x = n - 1.
Proof.
  intros Hp Hx Hsq. pose proof (Z.prime_ge_2 _ Hp) as Hn.
  assert ((n | (x - 1) * (x + 1))) as Hdiv.
  { apply Z.mod_divide; [lia|].
    replace ((x - 1) * (x + 1)) with (x ^ 2 - 1) by lia.
    rewrite Zminus_mod, Hsq, Z.mod_1_l by lia. done. }
  apply (Z.divide_prime_mul _ _ _ Hp) in Hdiv as [[q Hq]|[q Hq]]; [left|right].
  - assert (q = 0) as -> by nia. lia.
  - assert (q = 1) as -> by nia. lia.
Qed.

Lemma pow_pow_two x c : 0 ≤ c → (x ^ 2) ^ (2 ^ c) = x ^ (2 ^ (c + 1)).
Proof.
  intros Hc. rewrite <-Z.pow_mul_r by lia. f_equal.
  rewrite Z.pow_add_r by lia. lia.
Qed.

Lemma miller_rabin_loop_prime n : Z.prime n → ∀ count x,
  0 ≤ x < n → x ≠ 1 → x ≠ n - 1 →
  (x ^ (2 ^ (Z.of_nat count + 1))) `mod` n = 1 →
  miller_rabin_loop count x n = Ok true.
Proof.
  intros Hp. pose proof (Z.prime_ge_2 _ Hp) as Hn.
  induction count as [|count IH]; intros x Hx H1 Hn1 Hpow.
  - simpl in Hpow. destruct (sqrt_one_prime n x Hp Hx); [|done|done].
    by rewrite <-Hpow.
  - cbn [miller_rabin_loop]. rewrite pow3_nonneg by lia. cbn [mbind result_bind].
    assert (x ^ 2 `mod` n ≠ 1) as Hne.
    { intros Hsq. by destruct (sqrt_one_prime n x Hp Hx Hsq). }
    rewrite decide_False by done. case_decide; [done|].
    apply IH; [apply Z.mod_pos_bound; lia|done|done|].
    rewrite Z.mod_pow_l, pow_pow_two by lia. rewrite <-Hpow. do 3 f_equal. lia.
Qed.

Lemma miller_rabin_pass_prime n a s d :
  Z.prime n → n - 1 = d * 2 ^ s → 1 ≤ s → 0 ≤ d → a `mod` n ≠ 0 →
  miller_rabin_pass a s d n = Ok true.
Proof.
  intros Hp Hfact Hs Hd Ha. pose proof (Z.prime_ge_2 _ Hp) as Hn.
  unfold miller_rabin_pass. rewrite pow3_nonneg by lia. cbn [mbind result_bind].
  case_decide as Hx; [done|].
  apply miller_rabin_loop_prime; [done|apply Z.mod_pos_bound; lia|tauto|tauto|].
  rewrite Z2Nat.id by lia. replace (s - 1 + 1) with s by lia.
  rewrite Z.mod_pow_l, <-Z.pow_mul_r, <-Hfact by lia.
  by apply Z.fermat_nz.
Qed.

(** X22.  [is_prime_miller_rabin] never calls a prime composite: for
    every prime [n], every number of rounds [k] and every sequence of draws
    that [random.randint(2, n - 2)] can make, it returns [True]. *)
Theorem miller_rabin_accepts_primes (random_randint : nat → Z → Z → Z) (n k : Z) :
  Z.prime n →
  (∀ i lo hi, lo ≤ hi → lo ≤ random_randint i lo hi ≤ hi) →
  is_prime_miller_rabin random_randint n k = Ok true.
Proof.
  intros Hp Hrand. pose proof (Z.prime_ge_2 _ Hp) as Hn.
  unfold is_prime_miller_rabin. case_decide as H23; [done|].
  assert (n `mod` 2 ≠ 0) as Hodd.
  { intros Heven. apply Z.mod_divide in Heven; [|lia].
    destruct Hp as [_ Hp]. apply (Hp 2); [lia|done]. }
  assert (n ≠ 4) by (intros ->; by apply Hodd).
  rewrite decide_False by lia.
  destruct (factor_twos_spec (Z.to_nat n) 0 (n - 1)) as (s & d & -> & Hs & Hfact & _ & Hpos).
  { split; [lia|]. rewrite Z2Nat.id by lia.
    pose proof (Z.pow_gt_lin_r 2 n). lia. }
  rewrite Z.sub_0_r in Hfact.
  assert (0 < s).
  { apply Hpos. pose proof (Z.mod_pos_bound n 2).
    rewrite Zminus_mod. replace (n `mod` 2) with 1 by lia. done. }
  assert (0 ≤ d) by nia.
  generalize 0%nat. induction (Z.to_nat k) as [|count IH]; intros i; [done|].
  cbn [miller_rabin_rounds].
  rewrite (miller_rabin_pass_prime n _ s d); [|done|done|lia|done|].
  - apply IH.
  - pose proof (Hrand i 2 (n - 2)). rewrite Z.mod_small; lia.
Qed.

Lemma prime_13 : Z.prime 13.
Proof.
  split; [lia|]. intros d Hd [q Hq].
  assert (d = 2 ∨ d = 3 ∨ d = 4 ∨ d = 5 ∨ d = 6 ∨ d = 7 ∨ d = 8 ∨ d = 9 ∨ d = 10
          ∨ d = 11 ∨ d = 12) as Hcases by lia.
  repeat (destruct Hcases as [->|Hcases]; [lia|]). lia.
Qed.

Lemma miller_rabin_accepts_primes_witness :
  is_prime_miller_rabin (λ i lo hi, Z.min hi (lo + Z.of_nat i)) 13 5 = Ok true.
Proof.
  apply (miller_rabin_accepts_primes (λ i lo hi, Z.min hi (lo + Z.of_nat i)) 13 5);
    [exact prime_13|intros; lia].
Defined.

Lemma miller_rabin_loop_true n : n ≠ 0 → ∀ count x,
  miller_rabin_loop count x n = Ok true →
  ∃ t, 1 ≤ t ≤ Z.of_nat count ∧ (x ^ (2 ^ t)) `mod` n = (n - 1) `mod` n.
Proof.
  intros Hn. induction count as [|count IH]; intros x; [done|].
  cbn [miller_rabin_loop]. rewrite pow3_nonneg by lia. cbn [mbind result_bind].
  case_decide; [done|]. case_decide as Hm.
  - intros _. exists 1. split; [lia|]. simpl. rewrite <-Hm. by rewrite Z.mod_mod.
  - intros (t & Ht & Hpow)%IH. exists (t + 1). split; [lia|].
    rewrite <-Hpow, Z.mod_pow_l, pow_pow_two by lia. done.
Qed.

Lemma power_after_minus_one a d s t n :
  2 ≤ n → 0 ≤ d → 1 ≤ t ≤ s →
  ((a ^ d) ^ (2 ^ (t - 1))) `mod` n = (n - 1) `mod` n →
  (a ^ (d * 2 ^ s)) `mod` n = 1.
Proof.
  intros Hn Hd Ht Hpow.
  replace (d * 2 ^ s) with (d * 2 ^ (t - 1) * 2 * 2 ^ (s - t)).
  2: { rewrite <-!Z.mul_assoc. f_equal. rewrite <-(Z.pow_1_r 2) at 2.
       rewrite <-!Z.pow_add_r by lia. f_equal. lia. }
  rewrite !Z.pow_mul_r by lia.
  assert (((a ^ d) ^ 2 ^ (t - 1)) ^ 2 `mod` n = 1) as Hsq.
  { rewrite <-Z.mod_pow_l, Hpow, Z.mod_pow_l.
    replace ((n - 1) ^ 2) with (1 + (n - 2) * n) by lia.
    rewrite Z.mod_add by lia. apply Z.mod_1_l. lia. }
  rewrite <-Z.mod_pow_l, Hsq, Z.pow_1_l by lia. apply Z.mod_1_l. lia.
Qed.

Lemma miller_rabin_pass_fermat_lemma (a s d n : Z) :
  2 ≤ n → 1 ≤ s → 0 ≤ d →
  miller_rabin_pass a s d n = Ok true →
  (a ^ (d * 2 ^ s)) `mod` n = 1.
Proof.
  intros Hn Hs Hd. unfold miller_rabin_pass. rewrite pow3_nonneg by lia.
  cbn [mbind result_bind].
  case_decide as Hx.
  - intros _. destruct Hx as [Hx|Hx].
    + rewrite Z.pow_mul_r, <-Z.mod_pow_l, Hx, Z.pow_1_l by lia. apply Z.mod_1_l. lia.
    + apply (power_after_minus_one a d s 1); [lia|lia|lia|]. simpl. rewrite Z.pow_1_r, Hx.
      symmetry. apply Z.mod_small. lia.
  - intros (t & Ht & Hpow)%miller_rabin_loop_true; [|lia].
    apply (power_after_minus_one a d s (t + 1)); [lia|lia|lia|]. rewrite Z.mod_pow_l in Hpow.
    by replace (t + 1 - 1) with t by lia.
Qed.

(** X23.  A base that passes [miller_rabin_pass] also passes the Fermat
    test: when [n >= 2] and [n - 1 == d * 2 ** s] with [s >= 1] and
    [d >= 0], and the call returns [True], then [a ** (n - 1) % n == 1]. *)
Theorem miller_rabin_pass_fermat (a s d n : Z) :
  2 ≤ n → 1 ≤ s → 0 ≤ d → n - 1 = d * 2 ^ s →
  miller_rabin_pass a s d n = Ok true →
  (a ^ (n - 1)) `mod` n = 1.
Proof.
  intros Hn Hs Hd -> Hpass. by apply (miller_rabin_pass_fermat_lemma a s d n).
Qed.

Lemma miller_rabin_pass_fermat_witness : (3 ^ (13 - 1)) `mod` 13 = 1.
Proof.
  apply (miller_rabin_pass_fermat 3 2 3 13); [lia|lia|lia|reflexivity|reflexivity].
Defined.

(** ** Bases that expose a composite *)

Lemma miller_rabin_loop_total n : n ≠ 0 → ∀ count x,
  ∃ b, miller_rabin_loop count x n = Ok b.
Proof.
  intros Hn. induction count as [|count IH]; intros x; [by eexists|].
  cbn [miller_rabin_loop]. rewrite pow3_nonneg by lia. cbn [mbind result_bind].
  repeat case_decide; eauto.
Qed.

Lemma miller_rabin_pass_total a s d n :
  n ≠ 0 → 0 ≤ d → ∃ b, miller_rabin_pass a s d n = Ok b.
Proof.
  intros Hn Hd. unfold miller_rabin_pass. rewrite pow3_nonneg by lia.
  cbn [mbind result_bind]. case_decide; [by eexists|]. by apply miller_rabin_loop_total.
Qed.

Lemma miller_rabin_rounds_reject random_randint s d n :
  2 ≤ n → 1 ≤ s → 0 ≤ d → n - 1 = d * 2 ^ s → ∀ count i j,
  (i ≤ j < i + count)%nat →
  (random_randint j 2 (n - 2) ^ (n - 1)) `mod` n ≠ 1 →
  miller_rabin_rounds random_randint count i s d n = Ok false.
Proof.
  intros Hn Hs Hd Hfact. induction count as [|count IH]; intros i j Hj Hwitness; [lia|].
  cbn [miller_rabin_rounds].
  destruct (miller_rabin_pass_total (random_randint i 2 (n - 2)) s d n) as [b Hb]; [lia|lia|].
  rewrite Hb. cbn [mbind result_bind]. destruct b; [|done]. cbn [negb].
  apply (IH (S i) j); [|done].
  destruct (decide (j = i)) as [->|]; [|lia].
  destruct Hwitness. rewrite Hfact.
  by apply (miller_rabin_pass_fermat_lemma _ s d n).
Qed.

(** X27.  One draw that fails the Fermat test is enough: for [n > 3],
    when one of the first [k] bases [a] drawn by [random.randint(2, n - 2)]
    has [a ** (n - 1) % n != 1], [is_prime_miller_rabin(n, k)] returns
    [False]. *)
Theorem miller_rabin_rejects_on_fermat_failure
    (random_randint : nat → Z → Z → Z) (n k : Z) (j : nat) :
  3 < n → Z.of_nat j < k →
  (random_randint j 2 (n - 2) ^ (n - 1)) `mod` n ≠ 1 →
  is_prime_miller_rabin random_randint n k = Ok false.
Proof.
  intros Hn Hj Hwitness. unfold is_prime_miller_rabin.
  rewrite decide_False by lia. case_decide as Heven; [done|].
  destruct (factor_twos_spec (Z.to_nat n) 0 (n - 1)) as (s & d & -> & Hs & Hfact & _ & Hpos).
  { split; [lia|]. rewrite Z2Nat.id by lia. pose proof (Z.pow_gt_lin_r 2 n). lia. }
  rewrite Z.sub_0_r in Hfact.
  assert (0 < s).
  { apply Hpos. pose proof (Z.mod_pos_bound n 2).
    rewrite Zminus_mod. replace (n `mod` 2) with 1 by lia. done. }
  assert (0 ≤ d) by nia.
  apply (miller_rabin_rounds_reject random_randint s d n) with (j := j);
    [lia|lia|lia|done|lia|done].
Qed.

Lemma miller_rabin_rejects_on_fermat_failure_witness :
  is_prime_miller_rabin (λ _ lo _, lo) 91 5 = Ok false.
Proof.
  apply (miller_rabin_rejects_on_fermat_failure (λ _ lo _, lo) 91 5 3); [lia|lia|].
  vm_compute. discriminate.
Defined.

(** ** The sieve of Eratosthenes *)

Lemma index_of_in_range {A} (l : list A) i :
  0 ≤ i < Z.of_nat (length l) → index_of l i = Some (Z.to_nat i).
Proof. intros Hi. unfold index_of. by rewrite decide_True. Qed.

Lemma getitem_in_range {A} (l : list A) i :
  0 ≤ i < Z.of_nat (length l) → ∃ x, l !! Z.to_nat i = Some x ∧ getitem l i = Ok x.
Proof.
  intros Hi. unfold getitem. rewrite index_of_in_range by done. simpl.
  destruct (lookup_lt_is_Some_2 l (Z.to_nat i)) as [x Hx]; [lia|].
  exists x. by rewrite Hx.
Qed.

Lemma setitem_in_range {A} (l : list A) i x :
  0 ≤ i < Z.of_nat (length l) → setitem l i x = Ok (<[Z.to_nat i := x]> l).
Proof. intros Hi. unfold setitem. by rewrite index_of_in_range. Qed.

Lemma py_range_elem start stop step j :
  0 < step →
  j ∈ py_range start stop step ↔ start ≤ j < stop ∧ (step | j - start).
Proof.
  intros Hstep. unfold py_range. rewrite list_elem_of_fmap. split.
  - intros (k & -> & Hk%elem_of_seq). split.
    + assert (Z.of_nat k < (stop - start + step - 1) `div` step) as Hlt by lia.
      assert (Z.of_nat k + 1 ≤ (stop - start + step - 1) `div` step) as Hle by lia.
      pose proof (Z.mul_div_le (stop - start + step - 1) step Hstep). nia.
    + exists (Z.of_nat k). lia.
  - intros [Hj [q Hq]]. exists (Z.to_nat q).
    assert (0 ≤ q) by nia. split; [lia|]. apply elem_of_seq. split; [lia|].
    assert (q + 1 ≤ (stop - start + step - 1) `div` step); [|lia].
    apply Z.div_le_lower_bound; [lia|]. nia.
Qed.

Lemma py_range_step_one a c :
  (λ k, a + Z.of_nat k * 1) <$> seq 0 (S c)
  = a :: ((λ k, (a + 1) + Z.of_nat k * 1) <$> seq 0 c).
Proof.
  cbn [seq fmap list_fmap]. f_equal; [lia|].
  rewrite <-fmap_S_seq, <-list_fmap_compose. apply list_fmap_ext. intros ? k _. simpl. lia.
Qed.

(** Marking a list of indices. *)
Lemma mark_all (L : list Z) : ∀ sieve : list bool,
  (∀ j, j ∈ L → 0 ≤ j < Z.of_nat (length sieve)) →
  ∃ sieve', for_each (λ sieve j, setitem sieve j false) L sieve = Ok sieve'
    ∧ length sieve' = length sieve
    ∧ ∀ j, 0 ≤ j → (sieve' !! Z.to_nat j = Some true
                     ↔ sieve !! Z.to_nat j = Some true ∧ j ∉ L).
Proof.
  induction L as [|i L IH]; intros sieve Hin.
  - exists sieve. split; [done|]. split; [done|]. intros j _.
    split; [intros; split; [done|apply not_elem_of_nil]|tauto].
  - cbn [for_each]. rewrite setitem_in_range by (apply Hin; left).
    cbn [mbind result_bind].
    destruct (IH (<[Z.to_nat i := false]> sieve)) as (sieve' & -> & Hlen & Hspec).
    { intros j Hj. rewrite length_insert. apply Hin. by right. }
    exists sieve'. split; [done|]. rewrite length_insert in Hlen. split; [done|].
    intros j Hj. rewrite (Hspec j Hj), not_elem_of_cons.
    assert (0 ≤ i < Z.of_nat (length sieve)) by (apply Hin; left).
    destruct (decide (j = i)) as [->|Hne].
    + rewrite list_lookup_insert_eq by lia.
      split; [by intros [[=] _]|tauto].
    + rewrite list_lookup_insert_ne by lia. tauto.
Qed.

Section Eratosthenes.

Variable n : Z.
Hypothesis Hn : 2 ≤ n.

Lemma eratosthenes_step m sieve :
  1 ≤ m → m + 1 ≤ n → sieved n m sieve →
  ∃ sieve', eratosthenes_body n sieve (m + 1) = Ok sieve' ∧ sieved n (m + 1) sieve'.
Proof.
  intros Hm Hmn [Hlen Hspec]. unfold eratosthenes_body.
  destruct (getitem_in_range sieve (m + 1)) as (b & Hb & ->); [lia|].
  cbn [mbind result_bind]. destruct b.
  - destruct (mark_all (py_range ((m + 1) * (m + 1)) (n + 1) (m + 1)) sieve)
      as (sieve' & -> & Hlen' & Hspec').
    { intros j [Hj _]%py_range_elem; [|lia]. nia. }
    exists sieve'. split; [done|]. split; [lia|].
    intros j Hj. rewrite (Hspec' j) by lia. rewrite (Hspec j Hj).
    rewrite py_range_elem by lia.
    assert ((m + 1 | j - (m + 1) * (m + 1)) ↔ (m + 1 | j)) as Hdiv.
    { split; intros [q Hq]; [exists (q + (m + 1))|exists (q - (m + 1))]; lia. }
    rewrite Hdiv. split.
    + intros [[H2 Hall] Hnot]. split; [done|]. intros d Hd Hsq Hdj.
      destruct (decide (d = m + 1)) as [->|Hne]; [apply Hnot; split; [lia|done]|].
      apply (Hall d); [lia|done|done].
    + intros [H2 Hall]. split; [split; [done|]|].
      * intros d Hd. apply Hall. lia.
      * intros [Hsq Hdj]. apply (Hall (m + 1)); [lia|lia|done].
  - exists sieve. split; [done|]. split; [done|].
    intros j Hj. rewrite (Hspec j Hj). split.
    + intros [H2 Hall]. split; [done|]. intros d Hd Hsq Hdj.
      destruct (decide (d = m + 1)) as [->|Hne]; [|apply (Hall d); [lia|done|done]].
      assert (sieve !! Z.to_nat (m + 1) = Some true); [|congruence].
      apply Hspec; [lia|]. split; [lia|]. intros d Hd' Hsq' Hdi.
      apply (Hall d Hd'); [nia|]. by etrans.
    + intros [H2 Hall]. split; [done|]. intros d Hd. apply Hall. lia.
Qed.

Lemma eratosthenes_loop count : ∀ m sieve,
  1 ≤ m → m + Z.of_nat count ≤ n → sieved n m sieve →
  ∃ sieve', for_each (eratosthenes_body n)
              ((λ k, (m + 1) + Z.of_nat k * 1) <$> seq 0 count) sieve = Ok sieve'
    ∧ sieved n (m + Z.of_nat count) sieve'.
Proof.
  induction count as [|count IH]; intros m sieve Hm Hmn Hs.
  - exists sieve. split; [done|]. by rewrite Z.add_0_r.
  - rewrite py_range_step_one. cbn [for_each].
    destruct (eratosthenes_step m sieve) as (sieve1 & -> & Hs1); [lia|lia|done|].
    cbn [mbind result_bind].
    destruct (IH (m + 1) sieve1) as (sieve' & -> & Hs'); [lia|lia|done|].
    exists sieve'. split; [done|].
    by replace (m + Z.of_nat (S count)) with (m + 1 + Z.of_nat count) by lia.
Qed.

Lemma sieved_initial :
  sieved n 1 (<[1%nat := false]> (<[0%nat := false]> (replicate (Z.to_nat (n + 1)) true))).
Proof.
  split; [by rewrite !length_insert, length_replicate|].
  intros j Hj.
  destruct (decide (j = 0)) as [->|H0]; [|destruct (decide (j = 1)) as [->|H1]].
  - rewrite list_lookup_insert_ne by lia.
    rewrite list_lookup_insert_eq by (rewrite length_replicate; lia).
    split; [done|lia].
  - rewrite list_lookup_insert_eq by (rewrite length_insert, length_replicate; lia).
    split; [done|lia].
  - rewrite !list_lookup_insert_ne by lia.
    rewrite lookup_replicate_2 by lia. split; [|done].
    intros _. split; [lia|]. intros d Hd. lia.
Qed.

Lemma sieved_prime r sieve :
  Z.sqrt n ≤ r → sieved n r sieve →
  sieve !! Z.to_nat n = Some true ↔ Z.prime n.
Proof.
  intros Hr [_ Hspec]. rewrite (Hspec n) by lia. split.
  - intros [_ Hall]. split; [lia|]. intros d Hd [q Hq].
    assert (1 < q < n) by nia.
    destruct (decide (d ≤ q)).
    + apply (Hall d); [|nia|by exists q]. split; [lia|].
      etrans; [|exact Hr]. apply Z.sqrt_le_square; [lia|lia|nia].
    + apply (Hall q); [|nia|exists d; lia]. split; [lia|].
      etrans; [|exact Hr]. apply Z.sqrt_le_square; [lia|lia|nia].
  - intros [_ Hp]. split; [done|]. intros d Hd Hsq. apply Hp. nia.
Qed.

End Eratosthenes.

(** X24.  [sieve_of_eratosthenes_single(n)] returns [True] exactly when
    [n] is prime, for every int [n] for which [int(sqrt(n))] is at least
    the integer square root of [n] and at most [n]. *)
Theorem sieve_of_eratosthenes_correct (int_sqrt : Z → Z) (n : Z) :
  (2 ≤ n → Z.sqrt n ≤ int_sqrt n ≤ n) →
  ∃ b, sieve_of_eratosthenes_single int_sqrt n = Ok b ∧ (b = true ↔ Z.prime n).
Proof.
  intros Hsqrt. unfold sieve_of_eratosthenes_single. case_decide as Hn.
  - exists false. split; [done|]. split; [done|]. intros Hp%Z.prime_ge_2. lia.
  - assert (2 ≤ n) as Hn2 by lia. specialize (Hsqrt Hn2).
    assert (1 ≤ Z.sqrt n) by (apply Z.sqrt_le_square; lia).
    rewrite setitem_in_range by (rewrite length_replicate; lia). cbn [mbind result_bind].
    rewrite setitem_in_range by (rewrite length_insert, length_replicate; lia).
    cbn [mbind result_bind]. change (Z.to_nat 0) with 0%nat. change (Z.to_nat 1) with 1%nat.
    destruct (eratosthenes_loop n Hn2 (Z.to_nat (int_sqrt n - 1)) 1 _ ltac:(lia) ltac:(lia)
                (sieved_initial n Hn2)) as (sieve & Hloop & Hs).
    unfold py_range.
    replace ((int_sqrt n + 1 - 2 + 1 - 1) `div` 1) with (int_sqrt n - 1)
      by (rewrite Z.div_1_r; lia).
    change (2 + ?k * 1) with (1 + 1 + k * 1).
    rewrite Hloop. cbn [mbind result_bind].
    destruct Hs as [Hlen Hspec].
    destruct (getitem_in_range sieve n) as (b & Hb & ->); [lia|].
    exists b. split; [done|].
    rewrite <-(sieved_prime n Hn2 (1 + Z.of_nat (Z.to_nat (int_sqrt n - 1))) sieve);
      [|lia|by split].
    rewrite Hb. split; [by intros ->|by intros [= ->]].
Qed.

Lemma sieve_of_eratosthenes_correct_witness :
  ∃ b, sieve_of_eratosthenes_single Z.sqrt 97 = Ok b ∧ (b = true ↔ Z.prime 97).
Proof.
  apply (sieve_of_eratosthenes_correct Z.sqrt 97). intros _. vm_compute. split; discriminate.
Defined.

(** ** Trial division, and the sieve of Atkin on small numbers *)

Lemma trial_division_prime n : trial_division n = true ↔ Z.prime n.
Proof.
  unfold trial_division. rewrite andb_true_iff, bool_decide_eq_true, forallb_forall. split.
  - intros [Hn Hall]. split; [lia|]. intros d Hd Hdiv.
    assert (negb (bool_decide (n `mod` d = 0)) = true) as Hneg.
    { apply Hall, list_elem_of_In, py_range_elem; [lia|]. split; [lia|]. exists (d - 2). lia. }
    apply negb_true_iff, bool_decide_eq_false in Hneg. apply Hneg.
    by apply Z.mod_divide; [lia|].
  - intros [Hn Hp]. split; [lia|]. intros d [Hd _]%list_elem_of_In%py_range_elem; [|lia].
    apply negb_true_iff, bool_decide_eq_false. intros Hmod.
    apply (Hp d); [lia|]. by apply Z.mod_divide; [lia|].
Qed.

Lemma returns_eq r b : returns r b = true → r = Ok b.
Proof. destruct r; [|done]. simpl. by intros ->%bool_decide_eq_true. Qed.

Lemma atkin_agrees_below_300 :
  forallb (λ n, returns (sieve_of_atkin_single Z.sqrt n) (trial_division n))
          (py_range 0 300 1) = true.
Proof. vm_compute. reflexivity. Qed.

(** X25.  For every [n] below 300 (with [int(sqrt(n))] the integer square
    root), [sieve_of_atkin_single(n)] returns [True] exactly when [n] is
    prime. *)
Theorem sieve_of_atkin_below_300 (int_sqrt : Z → Z) (n : Z) :
  n < 300 → int_sqrt n = Z.sqrt n →
  ∃ b, sieve_of_atkin_single int_sqrt n = Ok b ∧ (b = true ↔ Z.prime n).
Proof.
  intros Hn Hsqrt. exists (trial_division n). split; [|apply trial_division_prime].
  destruct (decide (n < 0)) as [Hneg|Hpos].
  - unfold sieve_of_atkin_single, trial_division.
    rewrite decide_True, bool_decide_eq_false_2 by lia. done.
  - transitivity (sieve_of_atkin_single Z.sqrt n).
    { unfold sieve_of_atkin_single. by rewrite Hsqrt. }
    apply returns_eq.
    pose proof atkin_agrees_below_300 as Hall. rewrite forallb_forall in Hall.
    apply (Hall n). apply list_elem_of_In, py_range_elem; [lia|].
    split; [lia|]. exists n. lia.
Qed.

Lemma sieve_of_atkin_below_300_witness :
  ∃ b, sieve_of_atkin_single Z.sqrt 97 = Ok b ∧ (b = true ↔ Z.prime 97).
Proof. apply (sieve_of_atkin_below_300 Z.sqrt 97); [lia|reflexivity]. Defined.
